(** * LatteArt GUI: repository access, note linkage, history actions

    A shallow embedding of

    - [RepositoryServiceDispatcher] (note linkage: add / edit / move /
      delete, resume, readProject, settings),
    - [TestTargetRepository] and [ProjectRepository] (status-checking REST
      wrappers),
    - the Vuex actions of [store/operationHistory/actions.ts] that record,
      move and delete notes, register operations, number window handles and
      generate test scripts,
    - [JSDocReadmeGenerator],

    together with the properties of these functions that the specification
    states, and further properties read off the code: edge cases, failure
    outcomes, round trips.  Asynchronous code is written in a
    state-and-exception monad over an explicit world: the REST service's
    store, the Vuex state, the pending timers and a log of the requests and
    commits in the order they happen. *)

From stdpp Require Import gmap strings list fin_maps pretty.
From Stdlib Require Import ZArith.

(** ** Thrown values and outcomes *)

(** What a [throw] can carry in the embedded code.  The first two are what
    the HTTP client raises; the catch blocks of the dispatcher never look at
    the value. *)
Inductive Thrown : Type :=
| ConnectionRefused
| StatusError (status : nat)
| TypeError
| URIError
| ErrorMessage (message : string)
| ErrorObject (code message : string).

Inductive Outcome (A : Type) : Type :=
| Returns (a : A)
| Throws (e : Thrown).
Arguments Returns {A} a.
Arguments Throws {A} e.

Definition returned {A} (o : Outcome A) : option A :=
  match o with Returns a => Some a | Throws _ => None end.

(** ** Data exchanged with the service *)

(** A note id as it sits in a test step's [bugs] / [notices] array or in its
    [intention] field.  [None] is JavaScript's [undefined] / [null]: reading
    an array out of range gives [undefined], and JSON carries it as [null]. *)
Definition NoteRef : Type := option nat.

(** A test step as [GET /test-results/:id/test-steps/:sequence] returns it
    (only the linkage fields and the screenshot are read by the client). *)
Record TestStep : Type := mkTestStep {
  ts_intention : NoteRef;
  ts_bugs : list NoteRef;
  ts_notices : list NoteRef;
  ts_imageFileUrl : option string
}.

(** The body of [PATCH .../test-steps/:sequence]: one linkage field. *)
Inductive StepPatch : Type :=
| PatchBugs (bugs : list NoteRef)
| PatchNotices (notices : list NoteRef)
| PatchIntention (intention : NoteRef).

Definition applyPatch (p : StepPatch) (s : TestStep) : TestStep :=
  match p with
  | PatchBugs l => mkTestStep (ts_intention s) l (ts_notices s) (ts_imageFileUrl s)
  | PatchNotices l => mkTestStep (ts_intention s) (ts_bugs s) l (ts_imageFileUrl s)
  | PatchIntention r => mkTestStep r (ts_bugs s) (ts_notices s) (ts_imageFileUrl s)
  end.

(** A note as the service stores and returns it. *)
Record SavedNote : Type := mkSavedNote {
  sn_id : nat;
  sn_type : string;
  sn_value : string;
  sn_details : string;
  sn_imageFileUrl : option string;
  sn_tags : option (list string)
}.

(** The body of [POST .../notes] and [PUT .../notes/:id]. *)
Record NoteBody : Type := mkNoteBody {
  nb_type : string;
  nb_value : string;
  nb_details : string;
  nb_tags : option (list string);
  nb_imageData : option string
}.

(** The client-side [Note] value object ([new Note({...})]). *)
Record Note : Type := mkNote {
  note_id : option nat;
  note_sequence : nat;
  note_value : string;
  note_details : string;
  note_imageFilePath : string;
  note_tags : option (list string)
}.

(** The operation the capture layer hands to [registerOperation]. *)
Record CapturedOperation : Type := mkCapturedOperation {
  co_windowHandle : string;
  co_screenDef : string;
  co_type : string;
  co_input : string;
  co_imageData : string;
  co_pageSource : string;
  co_keywordTexts : option (list string)
}.

(** An operation as the service returns it. *)
Record ServiceOperation : Type := mkServiceOperation {
  so_sequence : nat;
  so_windowHandle : string;
  so_screenDef : string;
  so_type : string;
  so_input : string;
  so_imageFileUrl : option string;
  so_keywordTexts : list string
}.

(** The client-side [Operation] value object. *)
Record Operation : Type := mkOperation {
  sequence : nat;
  windowHandle : string;
  screenDef : string;
  op_type : string;
  op_input : string;
  imageFilePath : option string;
  keywordSet : gset string;
  inputElements : list string
}.

Record CoverageSource : Type := mkCoverageSource {
  cs_screenDef : string;
  cs_screenElements : list string
}.

Record InputElementInfo : Type := mkInputElementInfo {
  iei_inputElements : option (list string)
}.

Record RegisterResponse : Type := mkRegisterResponse {
  rr_operation : ServiceOperation;
  rr_coverageSource : CoverageSource;
  rr_inputElementInfo : option InputElementInfo
}.

Record Project : Type := mkProject {
  project_id : string;
  project_name : string
}.

Record Settings : Type := mkSettings {
  locale : string;
  config_imageCompression_isEnabled : bool
}.

(** JavaScript truthiness of an optional string: [undefined] and the empty
    string are falsy. *)
Definition truthy (s : option string) : bool :=
  match s with
  | Some s => negb (String.eqb s "")
  | None => false
  end.

(** ** Replies of the dispatcher *)

(** [{ succeeded: true, data }] or [{ succeeded: false, error: { code,
    message } }]. *)
Inductive Reply (A : Type) : Type :=
| ReplySuccess (data : A)
| ReplyFailure (code message : string).
Arguments ReplySuccess {A} data.
Arguments ReplyFailure {A} code message.

Definition succeeded {A} (r : Reply A) : bool :=
  match r with ReplySuccess _ => true | ReplyFailure _ _ => false end.

(** [reply.data] — [undefined] on a failure reply. *)
Definition data {A} (r : Reply A) : option A :=
  match r with ReplySuccess d => Some d | ReplyFailure _ _ => None end.

Definition repository_service_not_found {A} : Reply A :=
  ReplyFailure "repository_service_not_found" "Repository service is not found.".

(** [{ bug: Note; index: number }] and [{ notice: Note; index: number }]. *)
Record Recorded : Type := mkRecorded {
  recorded_note : Note;
  recorded_index : Z
}.

(** ** The Vuex side *)

Record OperationWithNotes : Type := mkItem {
  operation : Operation;
  intention : option Note;
  bugs : option (list Note);
  notices : option (list Note)
}.

(** The part of [OperationHistoryState] that the actions below read. *)
Record State : Type := mkState {
  history : list OperationWithNotes;
  config_imageCompression : bool;
  debug_saveItems_keywordSet : bool;
  testResultInfo_id : string
}.

Inductive Commit : Type :=
| setBug (payload : option Recorded)
| deleteBug (sequence index : nat)
| setNotice (payload : option Recorded)
| deleteNotice (sequence index : nat)
| setCanUpdateModels (canUpdateModels : bool)
| addHistory (entry : OperationWithNotes)
| registerCoverageSource (coverageSource : CoverageSource)
| registerInputElementInfo (inputElementInfo : InputElementInfo)
| replaceNoteImageFileUrl (type : string) (sequence : nat) (index : Z)
    (imageFileUrl : option string)
| replaceTestStepsImageFileUrl (sequence : nat) (imageFileUrl : string).

(** A callback handed to [setTimeout], with the values its closure captured. *)
Inductive TimerTask : Type :=
| compressOperationImage (sequence : nat)
| compressNoteImage_task (type : string) (noteId : option nat)
    (sequence : nat) (index : Z).

(** ** The REST service *)

Inductive Request : Type :=
| GET_testStep (testResultId : string) (sequence : nat)
| PATCH_testStep (testResultId : string) (sequence : nat) (body : StepPatch)
| POST_testSteps (testResultId : string) (body : CapturedOperation)
| POST_testStep_compressedImage (testResultId : string) (sequence : nat)
| POST_notes (testResultId : string) (body : NoteBody)
| GET_note (testResultId : string) (noteId : NoteRef)
| PUT_note (testResultId : string) (noteId : NoteRef) (body : NoteBody)
| POST_note_compressedImage (testResultId : string) (noteId : NoteRef)
| GET_testResult (testResultId : string)
| GET_projects
| POST_projects (name : string)
| GET_project (projectId : string)
| POST_project_testScripts (projectId : string)
| POST_testResult_testScripts (testResultId : string)
| GET_configs.

(** A test step of [GET /test-results/:id], with its notes inlined. *)
Record ResultStep : Type := mkResultStep {
  rs_operation : option ServiceOperation;
  rs_intention : option SavedNote;
  rs_bugs : option (list SavedNote);
  rs_notices : option (list SavedNote)
}.

Record TestResult : Type := mkTestResult {
  tr_id : string;
  tr_name : string;
  tr_testSteps : list ResultStep;
  tr_coverageSources : list CoverageSource;
  tr_inputElementInfos : list InputElementInfo;
  tr_initialUrl : string
}.

(** Modelled from the spec: the REST service behind the dispatcher (spec
    section 6; the service and the legacy [RESTClient] are not among the
    sources).  It keeps test steps and notes per test result, answers
    [PATCH] and [POST] with the freshly persisted object, and assigns note
    and project ids itself.  [capture], [storeImage] and [compress] stand for
    what the service computes from a captured operation and from image data,
    [archive] for the URL under which it files a script bundle;
    [testResults] is its serialised view of whole test results. *)
Record Service : Type := mkService {
  steps : gmap (string * nat) TestStep;
  notes : gmap (string * nat) SavedNote;
  nextNoteId : nat;
  testResults : gmap string TestResult;
  projects : list Project;
  nextProjectId : nat;
  settings : Settings;
  capture : string → CapturedOperation → RegisterResponse;
  storeImage : string → string;
  compress : string → string;
  archive : string → string
}.

Definition with_steps (m : gmap (string * nat) TestStep) (s : Service) : Service :=
  mkService m (notes s) (nextNoteId s) (testResults s) (projects s)
    (nextProjectId s) (settings s) (capture s) (storeImage s) (compress s) (archive s).

Definition with_notes (m : gmap (string * nat) SavedNote) (n : nat) (s : Service)
  : Service :=
  mkService (steps s) m n (testResults s) (projects s)
    (nextProjectId s) (settings s) (capture s) (storeImage s) (compress s) (archive s).

Definition with_projects (l : list Project) (n : nat) (s : Service) : Service :=
  mkService (steps s) (notes s) (nextNoteId s) (testResults s) l n
    (settings s) (capture s) (storeImage s) (compress s) (archive s).

Inductive Event : Type :=
| Requested (r : Request)
| Committed (c : Commit)
| TimerSet (t : TimerTask).

(** ** The world and the monad of asynchronous code *)

(** [faults] is the plan of the transport: each request consumes its head;
    [Some e] makes the client throw [e] without reaching the service.
    [serviceUrl] is the dispatcher's [_serviceUrl]; [screenshot] is what
    [captureControl/takeScreenshot] would deliver. *)
Record World : Type := mkWorld {
  service : Service;
  faults : list (option Thrown);
  serviceUrl : string;
  state : State;
  screenshot : string;
  timers : list TimerTask;
  log : list Event
}.

Definition with_service (s : Service) (w : World) : World :=
  mkWorld s (faults w) (serviceUrl w) (state w) (screenshot w) (timers w) (log w).
Definition with_faults (f : list (option Thrown)) (w : World) : World :=
  mkWorld (service w) f (serviceUrl w) (state w) (screenshot w) (timers w) (log w).
Definition with_state (st : State) (w : World) : World :=
  mkWorld (service w) (faults w) (serviceUrl w) st (screenshot w) (timers w) (log w).
Definition with_timers (t : list TimerTask) (w : World) : World :=
  mkWorld (service w) (faults w) (serviceUrl w) (state w) (screenshot w) t (log w).
Definition logged (e : Event) (w : World) : World :=
  mkWorld (service w) (faults w) (serviceUrl w) (state w) (screenshot w) (timers w)
    (log w ++ [e]).

Definition Async (A : Type) : Type := World → Outcome A * World.

Definition ret {A} (a : A) : Async A := λ w, (Returns a, w).
Definition throw {A} (e : Thrown) : Async A := λ w, (Throws e, w).
Definition bind {A B} (m : Async A) (k : A → Async B) : Async B :=
  λ w, match m w with
       | (Returns a, w') => k a w'
       | (Throws e, w') => (Throws e, w')
       end.
Definition try_catch {A} (body : Async A) (handler : Thrown → Async A) : Async A :=
  λ w, match body w with
       | (Returns a, w') => (Returns a, w')
       | (Throws e, w') => handler e w'
       end.
Definition read {A} (f : World → A) : Async A := λ w, (Returns (f w), w).
Definition lift {A} (o : Outcome A) : Async A := λ w, (o, w).

Notation "'let*' x ':=' m 'in' k" := (bind m (λ x, k))
  (at level 10, x name, m at level 100, k at level 200).
Notation "m ';;' k" := (bind m (λ _, k))
  (at level 100, k at level 200, right associativity).

(** One request of the legacy client: logged, then either thrown by the
    transport or served; a resource the service does not have is a 404, which
    this client throws. *)
Definition http {A} (r : Request) (serve : Service → option (A * Service)) : Async A :=
  λ w, let w1 := with_faults (tail (faults w)) (logged (Requested r) w) in
       match head (faults w) with
       | Some (Some e) => (Throws e, w1)
       | _ => match serve (service w) with
              | Some (a, s') => (Returns a, with_service s' w1)
              | None => (Throws (StatusError 404), w1)
              end
       end.

(** *** Endpoints *)

Definition httpGet_testStep (testResultId : string) (seq : nat) : Async TestStep :=
  http (GET_testStep testResultId seq)
    (λ s, step ← steps s !! (testResultId, seq); Some (step, s)).

Definition httpPatch_testStep (testResultId : string) (seq : nat) (body : StepPatch)
  : Async TestStep :=
  http (PATCH_testStep testResultId seq body)
    (λ s, step ← steps s !! (testResultId, seq);
          let step' := applyPatch body step in
          Some (step', with_steps (<[(testResultId, seq) := step']> (steps s)) s)).

Definition httpPost_notes (testResultId : string) (body : NoteBody) : Async SavedNote :=
  http (POST_notes testResultId body)
    (λ s, let note := mkSavedNote (nextNoteId s) (nb_type body) (nb_value body)
                        (nb_details body) (storeImage s <$> nb_imageData body)
                        (nb_tags body) in
          Some (note, with_notes (<[(testResultId, nextNoteId s) := note]> (notes s))
                        (S (nextNoteId s)) s)).

Definition httpGet_note (testResultId : string) (noteId : NoteRef) : Async SavedNote :=
  http (GET_note testResultId noteId)
    (λ s, id ← noteId; note ← notes s !! (testResultId, id); Some (note, s)).

Definition httpPut_note (testResultId : string) (noteId : NoteRef) (body : NoteBody)
  : Async SavedNote :=
  http (PUT_note testResultId noteId body)
    (λ s, id ← noteId; old ← notes s !! (testResultId, id);
          let note := mkSavedNote id (nb_type body) (nb_value body) (nb_details body)
                        (sn_imageFileUrl old) (nb_tags body) in
          Some (note, with_notes (<[(testResultId, id) := note]> (notes s))
                        (nextNoteId s) s)).

Definition httpPost_testSteps (testResultId : string) (body : CapturedOperation)
  : Async RegisterResponse :=
  http (POST_testSteps testResultId body)
    (λ s, let response := capture s testResultId body in
          let op := rr_operation response in
          let step := mkTestStep None [] [] (so_imageFileUrl op) in
          Some (response,
                with_steps (<[(testResultId, so_sequence op) := step]> (steps s)) s)).

(** The two compression endpoints answer [{ imageFileUrl }]; the field is
    missing when the record has no image. *)
Definition httpPost_testStep_compressedImage (testResultId : string) (seq : nat)
  : Async (option string) :=
  http (POST_testStep_compressedImage testResultId seq)
    (λ s, step ← steps s !! (testResultId, seq);
          let url := compress s <$> ts_imageFileUrl step in
          let step' := mkTestStep (ts_intention step) (ts_bugs step) (ts_notices step)
                         url in
          Some (url, with_steps (<[(testResultId, seq) := step']> (steps s)) s)).

Definition httpPost_note_compressedImage (testResultId : string) (noteId : NoteRef)
  : Async (option string) :=
  http (POST_note_compressedImage testResultId noteId)
    (λ s, id ← noteId; note ← notes s !! (testResultId, id);
          let url := compress s <$> sn_imageFileUrl note in
          let note' := mkSavedNote id (sn_type note) (sn_value note) (sn_details note)
                         url (sn_tags note) in
          Some (url, with_notes (<[(testResultId, id) := note']> (notes s))
                       (nextNoteId s) s)).

Definition httpGet_testResult (testResultId : string) : Async TestResult :=
  http (GET_testResult testResultId)
    (λ s, r ← testResults s !! testResultId; Some (r, s)).

Definition httpGet_projects : Async (list Project) :=
  http GET_projects (λ s, Some (projects s, s)).

Definition httpPost_projects (name : string) : Async Project :=
  http (POST_projects name)
    (λ s, let p := mkProject (pretty (nextProjectId s)) name in
          Some (p, with_projects (projects s ++ [p]) (S (nextProjectId s)) s)).

Definition httpGet_project (projectId : string) : Async Project :=
  http (GET_project projectId)
    (λ s, p ← snd <$> list_find (λ p, project_id p = projectId) (projects s);
          Some (p, s)).

Definition httpGet_configs : Async Settings :=
  http GET_configs (λ s, Some (settings s, s)).

Definition httpPost_project_testScripts (projectId : string) : Async string :=
  http (POST_project_testScripts projectId)
    (λ s, p ← list_find (λ p, project_id p = projectId) (projects s);
          Some (archive s projectId, s)).

Definition httpPost_testResult_testScripts (testResultId : string) : Async string :=
  http (POST_testResult_testScripts testResultId)
    (λ s, r ← testResults s !! testResultId; Some (archive s testResultId, s)).

(** *** Endpoints outside the log *)

Definition with_settings (c : Settings) (s : Service) : Service :=
  mkService (steps s) (notes s) (nextNoteId s) (testResults s) (projects s)
    (nextProjectId s) c (capture s) (storeImage s) (compress s) (archive s).

(** One request of the legacy client to an endpoint whose requests the log
    does not follow: thrown by the transport or served, as with [http]. *)
Definition http_unlogged {A} (serve : Service → option (A * Service)) : Async A :=
  λ w, let w1 := with_faults (tail (faults w)) w in
       match head (faults w) with
       | Some (Some e) => (Throws e, w1)
       | _ => match serve (service w) with
              | Some (a, s') => (Returns a, with_service s' w1)
              | None => (Throws (StatusError 404), w1)
              end
       end.

(** Modelled from the spec: [deleteNote] of the repository service (spec
    section 6; the service is not among the sources).
    [DELETE /test-results/:id/notes/:noteId] removes the note and leaves the
    test steps alone; unlinking is the client's business, which is why
    [deleteBug] sends a [PATCH] after it. *)
Definition httpDelete_note (testResultId : string) (noteId : NoteRef) : Async unit :=
  http_unlogged
    (λ s, id ← noteId; _ ← notes s !! (testResultId, id);
          Some ((), with_notes (delete (testResultId, id) (notes s)) (nextNoteId s) s)).

(** Modelled from the spec: the settings resource of the repository service
    (the service is not among the sources).  [PUT /projects/1/configs]
    stores the settings it is given and answers with them, the freshly
    persisted object. *)
Definition httpPut_configs (body : Settings) : Async Settings :=
  http_unlogged (λ s, Some (body, with_settings body s)).

(** ** Pieces of the JavaScript runtime *)

Global Instance outcome_ret : MRet Outcome := λ A a, Returns a.
Global Instance outcome_bind : MBind Outcome := λ A B k o,
  match o with Returns a => k a | Throws e => Throws e end.
Global Instance outcome_fmap : FMap Outcome := λ A B f o,
  match o with Returns a => Returns (f a) | Throws e => Throws e end.

(** [array.map((x, index) => f(x, index))] with a callback that may throw:
    the elements are visited in order and the first throw ends the map. *)
Fixpoint map_from {A B} (f : A → nat → Outcome B) (i : nat) (l : list A)
  : Outcome (list B) :=
  match l with
  | [] => Returns []
  | x :: l' => y ← f x i; ys ← map_from f (S i) l'; Returns (y :: ys)
  end.
Definition js_map {A B} (f : A → nat → Outcome B) (l : list A) : Outcome (list B) :=
  map_from f 0 l.

(** [array.filter((x, index, array) => p(x, index, array))]. *)
Fixpoint filter_from {A} (p : A → nat → list A → bool) (array : list A) (i : nat)
  (l : list A) : list A :=
  match l with
  | [] => []
  | x :: l' =>
      if p x i array then x :: filter_from p array (S i) l'
      else filter_from p array (S i) l'
  end.
Definition js_filter {A} (p : A → nat → list A → bool) (l : list A) : list A :=
  filter_from p l 0 l.

(** [array.indexOf(x)]: the first position holding [x]; [None] stands for
    the result -1. *)
Definition indexOf (array : list string) (x : string) : option nat :=
  fst <$> list_find (λ y, y = x) array.

(** [array[index]] on an array of note ids. *)
Definition item (array : list NoteRef) (index : nat) : NoteRef :=
  mjoin (array !! index).

(** Modelled from the spec: [Operation.createFromOtherOperation] and
    [Note.createFromOtherNote] (lib/operationHistory/Operation and Note are
    not among the sources) — "factory/merge semantics": a copy of [other] in
    which the fields given in [overrideParams] replace the copied ones.  The
    callers below override [imageFilePath] and [keywordSet] of an operation,
    and [sequence] and optionally [imageFilePath] of a note. *)
Definition createFromOtherOperation (other : ServiceOperation)
  (imageFilePath : option string) (keywordSet : gset string) : Operation :=
  mkOperation (so_sequence other) (so_windowHandle other) (so_screenDef other)
    (so_type other) (so_input other) imageFilePath keywordSet [].

(** Modelled from the spec: [Note.createFromOtherNote], as above; a note of
    the service has no [imageFilePath], so without an override the copy has
    the empty one. *)
Definition createFromOtherNote (other : SavedNote) (sequence : nat)
  (imageFilePath : option string) : Note :=
  mkNote (Some (sn_id other)) sequence (sn_value other) (sn_details other)
    (default "" imageFilePath) (sn_tags other).

(** An item of the history that [resume] hands back. *)
Record OperationHistoryItem : Type := mkHistoryItem {
  item_operation : option Operation;
  item_intention : option Note;
  item_bugs : option (list Note);
  item_notices : option (list Note)
}.

Record Resumed : Type := mkResumed {
  resumed_id : string;
  resumed_name : string;
  operationHistoryItems : list OperationHistoryItem;
  coverageSources : list CoverageSource;
  inputElementInfos : list InputElementInfo;
  initialUrl : string
}.

Record Registered : Type := mkRegistered {
  reg_operation : Operation;
  reg_coverageSource : CoverageSource;
  reg_inputElementInfo : option InputElementInfo
}.

(** ** RepositoryServiceDispatcher *)

Module RepositoryServiceDispatcher.
Section Runtime.

(** [new URL(url, base).toString()] of the runtime; it throws a [TypeError]
    on what it cannot parse. *)
Variable newURL : string → string → Outcome string.

(** [imageFileUrl ? new URL(imageFileUrl, this._serviceUrl).toString() : ""] *)
Definition imagePath (imageFileUrl : option string) : Async string :=
  if truthy imageFileUrl then
    let* base := read serviceUrl in lift (newURL (default "" imageFileUrl) base)
  else ret "".

Definition getSettings : Async (Reply Settings) :=
  try_catch
    (let* data := httpGet_configs in
     ret (ReplySuccess data))
    (λ _, ret repository_service_not_found).

Definition compressNoteImage (testResultId : string) (noteId : NoteRef)
  : Async (Reply (option string)) :=
  try_catch
    (let* imageFileUrl := httpPost_note_compressedImage testResultId noteId in
     ret (ReplySuccess imageFileUrl))
    (λ _, ret (ReplyFailure "error.operation_history.compress_note_screenshot_failed"
                 "Compression error.")).

Definition compressTestStepImage (testResultId : string) (sequence : nat)
  : Async (Reply string) :=
  try_catch
    (let* imageFileUrl := httpPost_testStep_compressedImage testResultId sequence in
     if truthy imageFileUrl then ret (ReplySuccess (default "" imageFileUrl))
     else throw (ErrorMessage ""))
    (λ _, ret (ReplyFailure
                 "error.operation_history.compress_operation_screenshot_failed"
                 "Compression error.")).

Definition registerOperation (testResultId : string)
  (capturedOperation : CapturedOperation) : Async (Reply Registered) :=
  try_catch
    (let* response := httpPost_testSteps testResultId capturedOperation in
     let operation := rr_operation response in
     let* imageFilePath :=
       if truthy (so_imageFileUrl operation) then
         let* base := read serviceUrl in
         lift (Some <$> newURL (default "" (so_imageFileUrl operation)) base)
       else ret (so_imageFileUrl operation) in
     ret (ReplySuccess
            (mkRegistered
               (createFromOtherOperation operation imageFilePath
                  (list_to_set (so_keywordTexts operation)))
               (rr_coverageSource response) (rr_inputElementInfo response))))
    (λ _, ret repository_service_not_found).

Definition addBug (testResultId : string) (sequence : nat)
  (summary details : string) (imageData : option string) : Async (Reply Recorded) :=
  try_catch
    ((* New registration of note. *)
     let* savedNote :=
       httpPost_notes testResultId (mkNoteBody "bug" summary details None imageData) in
     (* Linking with testStep. *)
     let* savedTestStep :=
       (let* step := httpGet_testStep testResultId sequence in
        httpPatch_testStep testResultId sequence
          (PatchBugs (ts_bugs step ++ [Some (sn_id savedNote)]))) in
     let* imageFilePath := imagePath (sn_imageFileUrl savedNote) in
     ret (ReplySuccess
            (mkRecorded
               (mkNote (Some (sn_id savedNote)) sequence (sn_value savedNote)
                  (sn_details savedNote) imageFilePath (sn_tags savedNote))
               (Z.of_nat (length (ts_bugs savedTestStep)) - 1))))
    (λ _, ret repository_service_not_found).

Definition editBug (testResultId : string) (sequence index : nat)
  (summary details : string) : Async (Reply Recorded) :=
  try_catch
    (let* step := httpGet_testStep testResultId sequence in
     let noteId := item (ts_bugs step) index in
     (* note update *)
     let* savedNote :=
       httpPut_note testResultId noteId (mkNoteBody "bug" summary details None None) in
     let* imageFilePath := imagePath (sn_imageFileUrl savedNote) in
     ret (ReplySuccess
            (mkRecorded
               (mkNote None sequence (sn_value savedNote) (sn_details savedNote)
                  imageFilePath (sn_tags savedNote))
               (Z.of_nat index))))
    (λ _, ret repository_service_not_found).

Definition moveBug (testResultId : string) (from_sequence from_index : nat)
  (dest_sequence : nat) : Async (Reply Recorded) :=
  try_catch
    ((* Break the link of the move source. *)
     let* fromStep := httpGet_testStep testResultId from_sequence in
     let fromBugs := ts_bugs fromStep in
     httpPatch_testStep testResultId from_sequence
       (PatchBugs (js_filter (λ _ index _, negb (index =? from_index)%nat) fromBugs));;
     (* Link to the destination. *)
     let* destStep := httpGet_testStep testResultId dest_sequence in
     let destBugs := ts_bugs destStep in
     httpPatch_testStep testResultId dest_sequence
       (PatchBugs (destBugs ++ [item fromBugs from_index]));;
     let* note := httpGet_note testResultId (item fromBugs from_index) in
     let* imageFilePath := imagePath (sn_imageFileUrl note) in
     ret (ReplySuccess
            (mkRecorded
               (mkNote None dest_sequence (sn_value note) (sn_details note)
                  imageFilePath (sn_tags note))
               (Z.of_nat (length destBugs)))))
    (λ _, ret repository_service_not_found).

Definition addNotice (testResultId : string) (sequence : nat)
  (summary details : string) (tags : list string) (imageData : option string)
  : Async (Reply Recorded) :=
  try_catch
    ((* New registration of note. *)
     let* savedNote :=
       httpPost_notes testResultId
         (mkNoteBody "notice" summary details (Some tags) imageData) in
     (* Linking with testStep. *)
     let* savedTestStep :=
       (let* step := httpGet_testStep testResultId sequence in
        httpPatch_testStep testResultId sequence
          (PatchNotices (ts_notices step ++ [Some (sn_id savedNote)]))) in
     let* imageFilePath := imagePath (sn_imageFileUrl savedNote) in
     ret (ReplySuccess
            (mkRecorded
               (mkNote (Some (sn_id savedNote)) sequence (sn_value savedNote)
                  (sn_details savedNote) imageFilePath (sn_tags savedNote))
               (Z.of_nat (length (ts_notices savedTestStep)) - 1))))
    (λ _, ret repository_service_not_found).

Definition editNotice (testResultId : string) (sequence index : nat)
  (summary details : string) (tags : list string) : Async (Reply Recorded) :=
  try_catch
    (let* step := httpGet_testStep testResultId sequence in
     let noteId := item (ts_notices step) index in
     (* Note update *)
     let* savedNote :=
       httpPut_note testResultId noteId
         (mkNoteBody "notice" summary details (Some tags) None) in
     let* imageFilePath := imagePath (sn_imageFileUrl savedNote) in
     ret (ReplySuccess
            (mkRecorded
               (mkNote None sequence (sn_value savedNote) (sn_details savedNote)
                  imageFilePath (sn_tags savedNote))
               (Z.of_nat index))))
    (λ _, ret repository_service_not_found).

Definition moveNotice (testResultId : string) (from_sequence from_index : nat)
  (dest_sequence : nat) : Async (Reply Recorded) :=
  try_catch
    ((* Break the link of the move source. *)
     let* fromStep := httpGet_testStep testResultId from_sequence in
     let fromNotices := ts_notices fromStep in
     httpPatch_testStep testResultId from_sequence
       (PatchNotices
          (js_filter (λ _ index _, negb (index =? from_index)%nat) fromNotices));;
     (* Link to the destination. *)
     let* destStep := httpGet_testStep testResultId dest_sequence in
     let destNotices := ts_notices destStep in
     httpPatch_testStep testResultId dest_sequence
       (PatchNotices (destNotices ++ [item fromNotices from_index]));;
     let* note := httpGet_note testResultId (item fromNotices from_index) in
     let* imageFilePath := imagePath (sn_imageFileUrl note) in
     ret (ReplySuccess
            (mkRecorded
               (mkNote None dest_sequence (sn_value note) (sn_details note)
                  imageFilePath (sn_tags note))
               (Z.of_nat (length destNotices)))))
    (λ _, ret repository_service_not_found).

Definition moveIntention (testResultId : string) (fromSequence destSequence : nat)
  : Async (Reply Note) :=
  try_catch
    (let* step := httpGet_testStep testResultId fromSequence in
     let noteId := ts_intention step in
     (* Break the link of the move source. *)
     httpPatch_testStep testResultId fromSequence (PatchIntention None);;
     (* Link to the destination. *)
     httpPatch_testStep testResultId destSequence (PatchIntention noteId);;
     let* note := httpGet_note testResultId noteId in
     let* imageFilePath := imagePath (sn_imageFileUrl note) in
     ret (ReplySuccess
            (mkNote None destSequence (sn_value note) (sn_details note)
               imageFilePath (sn_tags note))))
    (λ _, ret repository_service_not_found).

(** The callback of [testResult.testSteps.map] in [resume]. *)
Definition resumeItem (base : string) (testStep : ResultStep) (index : nat)
  : Outcome OperationHistoryItem :=
  let sequence := index + 1 in
  let path (imageFileUrl : option string) : Outcome string :=
    if truthy imageFileUrl then newURL (default "" imageFileUrl) base
    else Returns "" in
  operation ←
    match rs_operation testStep with
    | Some other =>
        imageFilePath ← path (so_imageFileUrl other);
        Returns (Some (createFromOtherOperation other (Some imageFilePath)
                         (list_to_set (so_keywordTexts other))))
    | None => Returns None
    end;
  let intention :=
    (λ other, createFromOtherNote other sequence None) <$> rs_intention testStep in
  let note (other : SavedNote) (_ : nat) : Outcome Note :=
    imageFilePath ← path (sn_imageFileUrl other);
    Returns (createFromOtherNote other sequence (Some imageFilePath)) in
  bugs ←
    match rs_bugs testStep with
    | Some l => Some <$> js_map note l
    | None => Returns None
    end;
  notices ←
    match rs_notices testStep with
    | Some l => Some <$> js_map note l
    | None => Returns None
    end;
  Returns (mkHistoryItem operation intention bugs notices).

Definition resume (testResultId : string) : Async (Reply Resumed) :=
  try_catch
    (let* testResult := httpGet_testResult testResultId in
     let* base := read serviceUrl in
     let* items := lift (js_map (resumeItem base) (tr_testSteps testResult)) in
     ret (ReplySuccess
            (mkResumed (tr_id testResult) (tr_name testResult) items
               (tr_coverageSources testResult) (tr_inputElementInfos testResult)
               (tr_initialUrl testResult))))
    (λ _, ret repository_service_not_found).

Definition readProject (projectId : string) : Async (Reply Project) :=
  try_catch
    (let* projects := httpGet_projects in
     let* targetProjectId :=
       if bool_decide (projectId ∈ map project_id projects) then ret projectId
       else (let* created := httpPost_projects "" in
             ret (project_id created)) in
     let* response := httpGet_project targetProjectId in
     ret (ReplySuccess response))
    (λ _, ret (ReplyFailure "code" "error")).

(** The generated bundle travels opaquely; only where it goes matters. *)
Definition postTestscriptsWithProjectId (projectId : string) : Async (Reply string) :=
  try_catch
    (let* response := httpPost_project_testScripts projectId in
     ret (ReplySuccess response))
    (λ _, ret (ReplyFailure "code" "message")).

Definition postTestscriptsWithTestResultId (testResultId : string)
  : Async (Reply string) :=
  try_catch
    (let* response := httpPost_testResult_testScripts testResultId in
     ret (ReplySuccess response))
    (λ _, ret (ReplyFailure "code" "message")).

Definition saveSettings (settings : Settings) : Async (Reply Settings) :=
  try_catch
    (let* data := httpPut_configs settings in
     ret (ReplySuccess data))
    (λ _, ret repository_service_not_found).

Definition changeLocale (locale : string) : Async (Reply unit) :=
  try_catch
    (let* settings := httpGet_configs in
     let settings := mkSettings locale (config_imageCompression_isEnabled settings) in
     httpPut_configs settings;;
     ret (ReplySuccess ()))
    (λ _, ret repository_service_not_found).

Definition deleteBug (testResultId : string) (sequence index : nat)
  : Async (Reply (nat * nat)) :=
  try_catch
    ((* Get noteId. *)
     let* step := httpGet_testStep testResultId sequence in
     let bugs := ts_bugs step in
     let noteId := item bugs index in
     (* Delete note. *)
     httpDelete_note testResultId noteId;;
     (* Break the link. *)
     httpPatch_testStep testResultId sequence
       (PatchBugs (js_filter (λ _ i _, negb (i =? index)%nat) bugs));;
     ret (ReplySuccess (sequence, index)))
    (λ _, ret repository_service_not_found).

Definition deleteNotice (testResultId : string) (sequence index : nat)
  : Async (Reply (nat * nat)) :=
  try_catch
    ((* Get noteId. *)
     let* step := httpGet_testStep testResultId sequence in
     let notices := ts_notices step in
     let noteId := item notices index in
     (* Delete note. *)
     httpDelete_note testResultId noteId;;
     (* Break the link. *)
     httpPatch_testStep testResultId sequence
       (PatchNotices (js_filter (λ _ i _, negb (i =? index)%nat) notices));;
     ret (ReplySuccess (sequence, index)))
    (λ _, ret repository_service_not_found).

Definition addIntention (testResultId : string) (sequence : nat)
  (summary details : string) : Async (Reply Note) :=
  try_catch
    ((* New note registration *)
     let* savedNote :=
       httpPost_notes testResultId (mkNoteBody "intention" summary details None None) in
     (* Linking with test steps. *)
     httpPatch_testStep testResultId sequence
       (PatchIntention (Some (sn_id savedNote)));;
     let* imageFilePath := imagePath (sn_imageFileUrl savedNote) in
     ret (ReplySuccess
            (mkNote None sequence (sn_value savedNote) (sn_details savedNote)
               imageFilePath (sn_tags savedNote))))
    (λ _, ret repository_service_not_found).

Definition editIntention (testResultId : string) (sequence : nat)
  (summary details : string) : Async (Reply Note) :=
  try_catch
    ((* Get noteId. *)
     let* step := httpGet_testStep testResultId sequence in
     let noteId := ts_intention step in
     (* Note update. *)
     let* savedNote :=
       httpPut_note testResultId noteId
         (mkNoteBody "intention" summary details None None) in
     let* imageFilePath := imagePath (sn_imageFileUrl savedNote) in
     ret (ReplySuccess
            (mkNote None sequence (sn_value savedNote) (sn_details savedNote)
               imageFilePath (sn_tags savedNote))))
    (λ _, ret repository_service_not_found).

Definition deleteIntention (testResultId : string) (sequence : nat)
  : Async (Reply nat) :=
  try_catch
    ((* Get noteId. *)
     let* step := httpGet_testStep testResultId sequence in
     let intention := ts_intention step in
     (* Delete note. *)
     httpDelete_note testResultId intention;;
     (* Break the link. *)
     httpPatch_testStep testResultId sequence (PatchIntention None);;
     ret (ReplySuccess sequence))
    (λ _, ret repository_service_not_found).

End Runtime.
End RepositoryServiceDispatcher.

(** ** The Vuex store *)

(** Modelled from the spec: the mutations (store/operationHistory/mutations
    is not among the sources).  [addHistory] appends the entry to the
    history; [replaceTestStepsImageFileUrl] is "a narrow side-channel update
    keyed by sequence number" that replaces the image reference of the
    operation carrying that sequence number.  The note mutations act on the
    notes inside the history items, which no action below reads; they are
    logged and leave the tracked state as it is.  A note mutation reads its
    payload's fields, so an [undefined] payload is a [TypeError]. *)
Definition mutate (c : Commit) (st : State) : Outcome State :=
  match c with
  | addHistory entry =>
      Returns (mkState (history st ++ [entry]) (config_imageCompression st)
                 (debug_saveItems_keywordSet st) (testResultInfo_id st))
  | replaceTestStepsImageFileUrl seq imageFileUrl =>
      Returns
        (mkState
           (map (λ entry,
                   if (sequence (operation entry) =? seq)%nat then
                     let o := operation entry in
                     mkItem
                       (mkOperation (sequence o) (windowHandle o) (screenDef o)
                          (op_type o) (op_input o) (Some imageFileUrl)
                          (keywordSet o) (inputElements o))
                       (intention entry) (bugs entry) (notices entry)
                   else entry)
              (history st))
           (config_imageCompression st) (debug_saveItems_keywordSet st)
           (testResultInfo_id st))
  | setBug None | setNotice None => Throws TypeError
  | _ => Returns st
  end.

(** [context.commit(...)]: synchronous, logged in order. *)
Definition commit (c : Commit) : Async unit :=
  λ w, match mutate c (state w) with
       | Returns st => (Returns (), logged (Committed c) (with_state st w))
       | Throws e => (Throws e, w)
       end.

(** [setTimeout(callback, 1)]: the callback is queued, nothing runs yet. *)
Definition setTimeout (t : TimerTask) : Async unit :=
  λ w, (Returns (), logged (TimerSet t) (with_timers (timers w ++ [t]) w)).

(** [NoteEditInfo] of lib/captureControl/types. *)
Record NoteEditInfo : Type := mkNoteEditInfo {
  oldSequence : option nat;
  oldIndex : option nat;
  newSequence : option nat;
  note : string;
  noteDetails : string;
  shouldTakeScreenshot : bool;
  tags : list string
}.

Record WindowHandle : Type := mkWindowHandle {
  text : string;
  value : string;
  available : bool
}.

Record Source : Type := mkSource {
  source_initialUrl : string;
  source_history : list Operation
}.

Record TestScript : Type := mkTestScript {
  pageObjects : list string;
  testSuite : option string
}.

Record GeneratorOption : Type := mkGeneratorOption {
  optimize : bool;
  testData_useDataDriven : bool;
  testData_maxGeneration : Z
}.

(** [error.message] of a caught value. *)
Definition message_of (e : Thrown) : option string :=
  match e with
  | ErrorMessage m => Some m
  | ErrorObject _ m => Some m
  | _ => None
  end.

(** [s.replace(pattern, replacement)] with a string pattern: the first
    occurrence only. *)
Fixpoint replace (pattern replacement s : string) : string :=
  if String.prefix pattern s then
    replacement +:+ String.substring (String.length pattern)
                      (String.length s - String.length pattern) s
  else match s with
       | EmptyString => EmptyString
       | String c s' => String c (replace pattern replacement s')
       end.

(** ** store/operationHistory/actions.ts *)

Module actions.
Section Runtime.

Variable newURL : string → string → Outcome string.

(** The keywords that [collectKeyword] of lib/common/util gathers from the
    parsed page source, as [Array.from] lists them. *)
Variable collectKeyword : string → list string.

(** [context.rootGetters.message]: the text of a message key. *)
Variable message : string → string.

(** What the script generator makes of sources that do have operations. *)
Variable scriptsFor : (string → string) → GeneratorOption → list Source → TestScript.

(** Modelled from the spec: [TestScriptGeneratorImpl.generate]
    (lib/operationHistory/scriptGenerator is not among the sources) — with no
    operation in any source nothing can be generated, in either mode ("no
    section" under optimization, "no operation" otherwise); what comes out of
    sources that have operations is left to [scriptsFor]. *)
Definition TestScriptGeneratorImpl_generate (imageUrlResolver : string → string)
  (option : GeneratorOption) (sources : list Source) : TestScript :=
  if bool_decide (Forall (λ source, source_history source = []) sources)
  then mkTestScript [] None
  else scriptsFor imageUrlResolver option sources.

(** Modelled from the spec: [GenerateTestScriptsAction.generate]
    (lib/operationHistory/actions is not among the sources) — generate, fail
    with [generate_test_suite_failed] when no test suite came out, otherwise
    persist through the repository and return the bundle's URL; a repository
    failure is passed on with its code, and nothing is persisted on a failed
    generation. *)
Definition GenerateTestScriptsAction_generate (testScript : TestScript)
  (testResultId projectId : option string) : Async string :=
  match testSuite testScript with
  | None => throw (ErrorMessage "generate_test_suite_failed")
  | Some _ =>
      let* reply :=
        match projectId, testResultId with
        | Some projectId, _ =>
            RepositoryServiceDispatcher.postTestscriptsWithProjectId projectId
        | None, Some testResultId =>
            RepositoryServiceDispatcher.postTestscriptsWithTestResultId testResultId
        | None, None => ret (ReplyFailure "save_test_scripts_failed" "")
        end in
      match reply with
      | ReplySuccess url => ret url
      | ReplyFailure code _ => throw (ErrorMessage code)
      end
  end.

(** The body of [generateTestScripts], with its local constant [optimize]
    as an argument. *)
Definition generateTestScripts_in_mode (optimize : bool)
  (testResultId projectId : option string) (sources : list Source)
  (useDataDriven : bool) (maxGeneration : Z) : Async string :=
  try_catch
    (let* serviceUrl := read serviceUrl in
     let imageUrlResolver (url : string) :=
       replace (serviceUrl +:+ "/test-results/") "" url in
     let testScript :=
       TestScriptGeneratorImpl_generate imageUrlResolver
         (mkGeneratorOption optimize useDataDriven maxGeneration) sources in
     GenerateTestScriptsAction_generate testScript testResultId projectId)
    (λ error,
       if bool_decide (message_of error = Some "generate_test_suite_failed") then
         let errorCode :=
           if optimize then "save_test_scripts_no_section_error"
           else "save_test_scripts_no_operation_error" in
         throw (ErrorMessage (message ("error.operation_history." +:+ errorCode)))
       else
         throw (ErrorMessage
                  (message ("error.operation_history."
                            +:+ default "undefined" (message_of error))))).

(** [generateTestScripts]: [const optimize = true]. *)
Definition generateTestScripts :=
  generateTestScripts_in_mode true.

(** The [windowHandles] of [updateScreenHistory]. *)
Definition windowHandles (history : list OperationWithNotes) : list WindowHandle :=
  imap (λ index windowHandle,
          mkWindowHandle ("window" +:+ pretty (index + 1)) windowHandle false)
    (js_filter (λ windowHandle index array,
                  bool_decide (indexOf array windowHandle = Some index))
       (map (λ operationWithNotes, windowHandle (operation operationWithNotes))
          history)).

Definition testResultId_now : Async string :=
  read (λ w, testResultInfo_id (state w)).

Definition imageCompression_isEnabled : Async bool :=
  read (λ w, config_imageCompression (state w)).

Definition recordBug (summary details : string) (sequence : nat)
  (index : option nat) (shouldTakeScreenshot : bool) : Async unit :=
  (* Take a screenshot. *)
  let* imageData :=
    if shouldTakeScreenshot then (let* shot := read screenshot in ret (Some shot))
    else ret None in
  let* testResultId := testResultId_now in
  let* recordedNote :=
    match index with
    | Some index =>
        (* update *)
        let* reply :=
          RepositoryServiceDispatcher.editBug newURL testResultId sequence index
            summary details in
        ret (data reply)
    | None =>
        (* add *)
        let* reply :=
          RepositoryServiceDispatcher.addBug newURL testResultId sequence
            summary details imageData in
        ret (data reply)
    end in
  commit (setBug recordedNote);;
  commit (setCanUpdateModels true);;
  let* enabled := imageCompression_isEnabled in
  if enabled then
    match recordedNote with
    | Some r =>
        setTimeout (compressNoteImage_task "bug" (note_id (recorded_note r))
                      sequence (recorded_index r))
    | None => throw TypeError
    end
  else ret ().

Definition moveBug (from_sequence from_index dest_sequence : nat) : Async unit :=
  let* testResultId := testResultId_now in
  let* reply :=
    RepositoryServiceDispatcher.moveBug newURL testResultId from_sequence from_index
      dest_sequence in
  let movedNote := data reply in
  commit (deleteBug from_sequence from_index);;
  commit (setBug movedNote);;
  commit (setCanUpdateModels true).

(** [history[history.length - 1]?.operation.sequence ?? 1] *)
Definition lastSequence : Async nat :=
  read (λ w, default 1 ((λ entry, sequence (operation entry)) <$>
                         last (history (state w)))).

Definition saveBug (noteEditInfo : NoteEditInfo) : Async unit :=
  let* seq :=
    match oldSequence noteEditInfo with
    | Some oldSequence => ret oldSequence
    | None => lastSequence
    end in
  recordBug (note noteEditInfo) (noteDetails noteEditInfo) seq
    (oldIndex noteEditInfo) (shouldTakeScreenshot noteEditInfo);;
  match oldSequence noteEditInfo, oldIndex noteEditInfo, newSequence noteEditInfo with
  | Some oldSequence, Some oldIndex, Some newSequence =>
      moveBug oldSequence oldIndex newSequence
  | _, _, _ => ret ()
  end.

Definition recordNotice (summary details : string) (tags : list string)
  (sequence : nat) (index : option nat) (shouldTakeScreenshot : bool) : Async unit :=
  (* Take a screenshot. *)
  let* imageData :=
    if shouldTakeScreenshot then (let* shot := read screenshot in ret (Some shot))
    else ret None in
  let* testResultId := testResultId_now in
  let* recordedNote :=
    match index with
    | Some index =>
        (* update *)
        let* reply :=
          RepositoryServiceDispatcher.editNotice newURL testResultId sequence index
            summary details tags in
        ret (data reply)
    | None =>
        (* add *)
        let* reply :=
          RepositoryServiceDispatcher.addNotice newURL testResultId sequence
            summary details tags imageData in
        ret (data reply)
    end in
  commit (setNotice recordedNote);;
  commit (setCanUpdateModels true);;
  let* enabled := imageCompression_isEnabled in
  if shouldTakeScreenshot && enabled then
    match recordedNote with
    | Some r =>
        setTimeout (compressNoteImage_task "notice" (note_id (recorded_note r))
                      sequence (recorded_index r))
    | None => throw TypeError
    end
  else ret ().

Definition moveNotice (from_sequence from_index dest_sequence : nat) : Async unit :=
  let* testResultId := testResultId_now in
  let* reply :=
    RepositoryServiceDispatcher.moveNotice newURL testResultId from_sequence
      from_index dest_sequence in
  let movedNote := data reply in
  commit (deleteNotice from_sequence from_index);;
  commit (setNotice movedNote);;
  commit (setCanUpdateModels true).

Definition saveNotice (noteEditInfo : NoteEditInfo) : Async unit :=
  let* seq :=
    match oldSequence noteEditInfo with
    | Some oldSequence => ret oldSequence
    | None => lastSequence
    end in
  recordNotice (note noteEditInfo) (noteDetails noteEditInfo) (tags noteEditInfo) seq
    (oldIndex noteEditInfo) (shouldTakeScreenshot noteEditInfo);;
  match oldSequence noteEditInfo, oldIndex noteEditInfo, newSequence noteEditInfo with
  | Some oldSequence, Some oldIndex, Some newSequence =>
      if bool_decide (oldSequence ≠ newSequence) then
        moveNotice oldSequence oldIndex newSequence
      else ret ()
  | _, _, _ => ret ()
  end.

Definition registerOperation (captured : CapturedOperation) : Async unit :=
  let* debug := read (λ w, debug_saveItems_keywordSet (state w)) in
  let capturedOperation :=
    if debug then
      mkCapturedOperation (co_windowHandle captured) (co_screenDef captured)
        (co_type captured) (co_input captured) (co_imageData captured)
        (co_pageSource captured) (Some (collectKeyword (co_pageSource captured)))
    else captured in
  let* testResultId := testResultId_now in
  let* reply :=
    RepositoryServiceDispatcher.registerOperation newURL testResultId
      capturedOperation in
  match data reply with
  | None => throw TypeError
  | Some registered =>
      let inputElementInfo := reg_inputElementInfo registered in
      let o := reg_operation registered in
      let operation :=
        mkOperation (sequence o) (windowHandle o) (screenDef o) (op_type o)
          (op_input o) (imageFilePath o) (keywordSet o)
          (default [] (inputElementInfo ≫= iei_inputElements)) in
      commit (addHistory (mkItem operation None None None));;
      commit (registerCoverageSource (reg_coverageSource registered));;
      match inputElementInfo with
      | Some info =>
          match iei_inputElements info with
          | Some (_ :: _) => commit (registerInputElementInfo info)
          | _ => ret ()
          end
      | None => ret ()
      end;;
      commit (setCanUpdateModels true);;
      let* enabled := imageCompression_isEnabled in
      if enabled && truthy (imageFilePath operation) then
        setTimeout (compressOperationImage (sequence operation))
      else ret ()
  end.

(** The callbacks given to [setTimeout] by [registerOperation], [recordBug]
    and [recordNotice]. *)
Definition runTimerTask (t : TimerTask) : Async unit :=
  match t with
  | compressOperationImage seq =>
      let* testResultId := testResultId_now in
      let* reply2 :=
        RepositoryServiceDispatcher.compressTestStepImage testResultId seq in
      match reply2 with
      | ReplySuccess imageFileUrl =>
          let* serviceUrl := read serviceUrl in
          commit (replaceTestStepsImageFileUrl seq
                    (serviceUrl +:+ "/" +:+ imageFileUrl))
      | ReplyFailure code message => throw (ErrorObject code message)
      end
  | compressNoteImage_task type noteId seq index =>
      let* testResultId := testResultId_now in
      let* reply2 :=
        RepositoryServiceDispatcher.compressNoteImage testResultId noteId in
      match reply2 with
      | ReplySuccess imageFileUrl =>
          commit (replaceNoteImageFileUrl type seq index imageFileUrl)
      | ReplyFailure code message => throw (ErrorObject code message)
      end
  end.

(** One turn of the event loop: the oldest pending timer fires.  Nobody
    awaits the callback, so what it throws is an unhandled rejection and
    reaches no caller. *)
Definition fireTimer (w : World) : World :=
  match timers w with
  | [] => w
  | t :: rest => snd (runTimerTask t (with_timers rest w))
  end.

Definition deleteBug (sequence index : nat) : Async unit :=
  let* testResultId := testResultId_now in
  let* reply :=
    RepositoryServiceDispatcher.deleteBug testResultId sequence index in
  match data reply with
  | None => throw TypeError
  | Some (sequence, index) =>
      commit (deleteBug sequence index);;
      commit (setCanUpdateModels true)
  end.

Definition deleteNotice (sequence index : nat) : Async unit :=
  let* testResultId := testResultId_now in
  let* reply :=
    RepositoryServiceDispatcher.deleteNotice testResultId sequence index in
  match data reply with
  | None => throw TypeError
  | Some (sequence, index) =>
      commit (deleteNotice sequence index);;
      commit (setCanUpdateModels true)
  end.

End Runtime.
End actions.

(** ** TestTargetRepository and ProjectRepository *)

(** What the status-reporting [RESTClient] resolves with. *)
Record RESTResponse (Json : Type) : Type := mkResponse {
  status : nat;
  response_data : Json
}.
Arguments mkResponse {Json} status response_data.
Arguments status {Json} r.
Arguments response_data {Json} r.

(** The [RESTClient] these repositories are constructed with: a request
    resolves with the response, whatever its status, or rejects when the
    service cannot be reached. *)
Class RESTClient (Json : Type) : Type := {
  httpGet : string → Outcome (RESTResponse Json);
  httpPost : string → Json → Outcome (RESTResponse Json);
  httpPut : string → Json → Outcome (RESTResponse Json);
  httpPatch : string → Json → Outcome (RESTResponse Json);
  httpDelete : string → Outcome (RESTResponse Json)
}.

(** Modelled from the spec: the results of lib/captureControl/Reply, which
    is not among the sources — [RepositoryAccessSuccess],
    [createRepositoryAccessFailure(response)] ("BackendRejected": a
    non-success status from a well-formed request, carrying the response) and
    [createConnectionRefusedFailure()] ("BackendUnavailable": transport or
    connection failure). *)
Inductive RepositoryAccessResult (Json A : Type) : Type :=
| RepositoryAccessSuccess (data : A)
| RepositoryAccessFailure (response : RESTResponse Json)
| ConnectionRefusedFailure.
Arguments RepositoryAccessSuccess {Json A} data.
Arguments RepositoryAccessFailure {Json A} response.
Arguments ConnectionRefusedFailure {Json A}.

Definition createRepositoryAccessFailure {Json A} (response : RESTResponse Json)
  : RepositoryAccessResult Json A := RepositoryAccessFailure response.
Definition createConnectionRefusedFailure {Json A} : RepositoryAccessResult Json A :=
  ConnectionRefusedFailure.

Module TestTargetRepository.
Section Client.
Context {Json : Type} (restClient : RESTClient Json).

Definition getTestTarget (id : string) : RepositoryAccessResult Json Json :=
  match httpGet ("/test-targets/" +:+ id) with
  | Returns response =>
      if bool_decide (status response ≠ 200) then createRepositoryAccessFailure response
      else RepositoryAccessSuccess (response_data response)
  | Throws error => createConnectionRefusedFailure
  end.

Definition postTestTarget (body : Json) : RepositoryAccessResult Json Json :=
  match httpPost "/test-targets" body with
  | Returns response =>
      if bool_decide (status response ≠ 200) then createRepositoryAccessFailure response
      else RepositoryAccessSuccess (response_data response)
  | Throws error => createConnectionRefusedFailure
  end.

Definition patchTestTarget (id : string) (body : Json)
  : RepositoryAccessResult Json Json :=
  match httpPatch ("/test-targets/" +:+ id) body with
  | Returns response =>
      if bool_decide (status response ≠ 200) then createRepositoryAccessFailure response
      else RepositoryAccessSuccess (response_data response)
  | Throws error => createConnectionRefusedFailure
  end.

(** The payload of a 204 is [void]. *)
Definition deleteTestTarget (id : string) : RepositoryAccessResult Json unit :=
  match httpDelete ("/test-targets/" +:+ id) with
  | Returns response =>
      if bool_decide (status response ≠ 204) then createRepositoryAccessFailure response
      else RepositoryAccessSuccess ()
  | Throws error => createConnectionRefusedFailure
  end.

End Client.
End TestTargetRepository.

Module ProjectRepository.
Section Client.
Context {Json : Type} (restClient : RESTClient Json).

Definition postProjectForExport (projectId : string) (selectOption : Json)
  : RepositoryAccessResult Json Json :=
  match httpPost ("/projects/" +:+ projectId +:+ "/export") selectOption with
  | Returns response =>
      if bool_decide (status response ≠ 200) then createRepositoryAccessFailure response
      else RepositoryAccessSuccess (response_data response)
  | Throws error => createConnectionRefusedFailure
  end.

Definition getProjects : RepositoryAccessResult Json Json :=
  match httpGet "/projects" with
  | Returns response =>
      if bool_decide (status response ≠ 200) then createRepositoryAccessFailure response
      else RepositoryAccessSuccess (response_data response)
  | Throws error => createConnectionRefusedFailure
  end.

Definition getProject (projectId : string) : RepositoryAccessResult Json Json :=
  match httpGet ("/projects/" +:+ projectId) with
  | Returns response =>
      if bool_decide (status response ≠ 200) then createRepositoryAccessFailure response
      else RepositoryAccessSuccess (response_data response)
  | Throws error => createConnectionRefusedFailure
  end.

(** [emptyName] is the JSON body [{ name: "" }]. *)
Definition postProject (emptyName : Json) : RepositoryAccessResult Json Json :=
  match httpPost "/projects" emptyName with
  | Returns response =>
      if bool_decide (status response ≠ 200) then createRepositoryAccessFailure response
      else RepositoryAccessSuccess (response_data response)
  | Throws error => createConnectionRefusedFailure
  end.

Definition putProject (projectId : string) (body : Json)
  : RepositoryAccessResult Json Json :=
  match httpPut ("/projects/" +:+ projectId) body with
  | Returns response =>
      if bool_decide (status response ≠ 200) then createRepositoryAccessFailure response
      else RepositoryAccessSuccess (response_data response)
  | Throws error => createConnectionRefusedFailure
  end.

End Client.
End ProjectRepository.

(** ** JSDocReadmeGenerator *)

Module JSDocReadmeGenerator.

(** A JavaScript string is a sequence of UTF-16 code units; [encodeURI]
    works on them. *)
Abbreviation JSString := (list N).

(** An ASCII literal as a JavaScript string. *)
Definition js (s : string) : JSString :=
  (λ c, Ascii.N_of_ascii c) <$> String.list_ascii_of_string s.

Definition newline : JSString := [10%N].
Definition quote : JSString := [34%N].

(** [`${n}`] for a non-negative integer. *)
Definition decimal (n : nat) : JSString := js (pretty n).

(** [array.join(separator)]. *)
Fixpoint join (separator : JSString) (l : list JSString) : JSString :=
  match l with
  | [] => []
  | x :: l' =>
      match l' with
      | [] => x
      | _ :: _ => x ++ separator ++ join separator l'
      end
  end.

(** *** encodeURI (ECMAScript, Encode with the reserved and unescaped sets
    and the number sign) *)

Definition uriUnescapedOrReserved (C : N) : bool :=
  bool_decide (65 ≤ C ≤ 90)%N || bool_decide (97 ≤ C ≤ 122)%N
  || bool_decide (48 ≤ C ≤ 57)%N
  || bool_decide (C ∈ js ";/?:@&=+$,-_.!~*'()#").

Definition isLeadSurrogate (C : N) : bool := bool_decide (55296 ≤ C ≤ 56319)%N.
Definition isTrailSurrogate (C : N) : bool := bool_decide (56320 ≤ C ≤ 57343)%N.

Definition utf8 (V : N) : list N :=
  (if bool_decide (V < 128) then [V]
   else if bool_decide (V < 2048) then [192 + V / 64; 128 + V mod 64]
   else if bool_decide (V < 65536) then
     [224 + V / 4096; 128 + (V / 64) mod 64; 128 + V mod 64]
   else [240 + V / 262144; 128 + (V / 4096) mod 64; 128 + (V / 64) mod 64;
         128 + V mod 64])%N.

Definition hexDigit (d : N) : N := nth (N.to_nat d) (js "0123456789ABCDEF") 48%N.

Definition percent (octets : list N) : JSString :=
  octets ≫= (λ octet, 37%N :: hexDigit (octet / 16) :: [hexDigit (octet mod 16)]).

Fixpoint encodeURI (s : JSString) : Outcome JSString :=
  match s with
  | [] => Returns []
  | C :: rest =>
      if uriUnescapedOrReserved C then
        R ← encodeURI rest; Returns (C :: R)
      else if isLeadSurrogate C then
        match rest with
        | D :: rest' =>
            if isTrailSurrogate D then
              R ← encodeURI rest';
              Returns (percent (utf8 ((C - 55296) * 1024 + (D - 56320) + 65536)%N)
                       ++ R)
            else Throws URIError
        | [] => Throws URIError
        end
      else if isTrailSurrogate C then Throws URIError
      else R ← encodeURI rest; Returns (percent (utf8 C) ++ R)
  end.

(** *** The generator.  A [Map] is given by its entries in insertion order. *)

Definition buildTestSuiteTable (testSuiteNameToTopPageUrl : list (JSString * JSString))
  : Outcome JSString :=
  let header :=
    newline ++ newline ++ js "|#|name|top page url|" ++ newline
    ++ js "|:--|:--|:--|" ++ newline in
  rowList ←
    js_map (λ '(name, topPageUrl) index,
              inner ← encodeURI (js "./" ++ name ++ js ".html");
              href ← encodeURI inner;
              Returns (js "|" ++ decimal (index + 1) ++ js "|<a href=" ++ quote ++ href
                       ++ quote ++ js ">" ++ name ++ js "</a>|" ++ topPageUrl
                       ++ js "|"))
      testSuiteNameToTopPageUrl;
  let rows := join newline rowList in
  Returns (js "## Test suites"
           ++ (if bool_decide (0 < length rows) then header else []) ++ rows).

Definition buildPageObjectTable (pageObjectNameToAlias : list (JSString * JSString))
  : Outcome JSString :=
  let header :=
    newline ++ newline ++ js "|#|name|source|" ++ newline
    ++ js "|:--|:--|:--|" ++ newline in
  rowList ←
    js_map (λ '(name, alias) index,
              inner ← encodeURI (js "./" ++ alias ++ js ".html");
              href ← encodeURI inner;
              Returns (js "|" ++ decimal (index + 1) ++ js "|<a href=" ++ quote ++ href
                       ++ quote ++ js ">" ++ alias ++ js "</a>|" ++ name ++ js "|"))
      pageObjectNameToAlias;
  let rows := join newline rowList in
  Returns (js "## Page objects"
           ++ (if bool_decide (0 < length rows) then header else []) ++ rows).

Definition generate (testSuiteNameToTopPageUrl pageObjectNameToAlias
                       : list (JSString * JSString)) : Outcome JSString :=
  suites ← buildTestSuiteTable testSuiteNameToTopPageUrl;
  objects ← buildPageObjectTable pageObjectNameToAlias;
  Returns (suites ++ newline ++ newline ++ objects ++ newline).

End JSDocReadmeGenerator.

(** * Vocabulary of the properties *)

(** The world right after request [r] left the client. *)
Definition sent (r : Request) (w : World) : World :=
  with_faults (tail (faults w)) (logged (Requested r) w).

(** The three ways a note is linked to a test step. *)
Inductive NoteKind : Type := Bug | Notice | Intention.

Fixpoint occurrences (n : nat) (l : list NoteRef) : nat :=
  match l with
  | [] => 0
  | r :: l' => (if decide (r = Some n) then 1 else 0) + occurrences n l'
  end.

(** How often test step [step] links note [n] as a [kind]. *)
Definition links (kind : NoteKind) (n : nat) (step : TestStep) : nat :=
  match kind with
  | Bug => occurrences n (ts_bugs step)
  | Notice => occurrences n (ts_notices step)
  | Intention => if decide (ts_intention step = Some n) then 1 else 0
  end.

(** What one stored test step adds to the attachments of note [n] within
    test result [tid]. *)
Definition contribution (kind : NoteKind) (tid : string) (n : nat)
  (entry : string * nat * TestStep) : nat :=
  if decide (entry.1.1 = tid) then links kind n entry.2 else 0.

(** The number of attachments of note [n] over all the test steps of test
    result [tid]. *)
Definition attachments (kind : NoteKind) (tid : string) (n : nat) (s : Service)
  : nat :=
  sum_list_with (contribution kind tid n) (map_to_list (steps s)).

(** The store after the service persisted [step] under [key]. *)
Definition patched (key : string * nat) (step : TestStep) (s : Service) : Service :=
  with_steps (<[key := step]> (steps s)) s.

(** The common shape of [moveBug] and [moveNotice]: [get] reads the list and
    [patch] builds the request body for it. *)
Definition moveList (newURL : string → string → Outcome string)
  (get : TestStep → list NoteRef) (patch : list NoteRef → StepPatch)
  (testResultId : string) (from_sequence from_index dest_sequence : nat)
  : Async (Reply Recorded) :=
  try_catch
    (let* fromStep := httpGet_testStep testResultId from_sequence in
     let fromList := get fromStep in
     httpPatch_testStep testResultId from_sequence
       (patch (js_filter (λ _ index _, negb (index =? from_index)%nat) fromList));;
     let* destStep := httpGet_testStep testResultId dest_sequence in
     let destList := get destStep in
     httpPatch_testStep testResultId dest_sequence
       (patch (destList ++ [item fromList from_index]));;
     let* note := httpGet_note testResultId (item fromList from_index) in
     let* imageFilePath :=
       RepositoryServiceDispatcher.imagePath newURL (sn_imageFileUrl note) in
     ret (ReplySuccess
            (mkRecorded
               (mkNote None dest_sequence (sn_value note) (sn_details note)
                  imageFilePath (sn_tags note))
               (Z.of_nat (length destList)))))
    (λ _, ret repository_service_not_found).

(** The note ids that a test step links as [kind]; the intention has one
    slot. *)
Definition noteList (kind : NoteKind) (step : TestStep) : list NoteRef :=
  match kind with
  | Bug => ts_bugs step
  | Notice => ts_notices step
  | Intention => [ts_intention step]
  end.

(** The two kinds of note that a test step keeps in a list. *)
Inductive Listed : Type := Bugs | Notices.

Definition listOf (kind : Listed) (step : TestStep) : list NoteRef :=
  match kind with
  | Bugs => ts_bugs step
  | Notices => ts_notices step
  end.

(** [addBug] and [addNotice] under one name. *)
Definition add (newURL : string → string → Outcome string) (kind : Listed)
  (tid : string) (seq : nat) (summary details : string) (tags : list string)
  (imageData : option string) : Async (Reply Recorded) :=
  match kind with
  | Bugs => RepositoryServiceDispatcher.addBug newURL tid seq summary details imageData
  | Notices => RepositoryServiceDispatcher.addNotice newURL tid seq summary details tags
                 imageData
  end.

(** [moveBug], [moveNotice] and [moveIntention] under one name; the result
    is whether the reply succeeded. *)
Definition move (newURL : string → string → Outcome string) (kind : NoteKind)
  (tid : string) (from index dest : nat) (w : World) : Outcome bool * World :=
  match kind with
  | Bug =>
      let '(o, w') := RepositoryServiceDispatcher.moveBug newURL tid from index dest w
      in (succeeded <$> o, w')
  | Notice =>
      let '(o, w') :=
        RepositoryServiceDispatcher.moveNotice newURL tid from index dest w
      in (succeeded <$> o, w')
  | Intention =>
      let '(o, w') := RepositoryServiceDispatcher.moveIntention newURL tid from dest w
      in (succeeded <$> o, w')
  end.

(** Note [n] sits in [step] where the move expects it. *)
Definition holds (kind : NoteKind) (n : nat) (index : nat) (step : TestStep) : Prop :=
  match kind with
  | Intention => ts_intention step = Some n
  | _ => noteList kind step !! index = Some (Some n)
  end.

(** What the two [PATCH]es of a move send: the source without the note, the
    destination with the carried id. *)
Definition detach (kind : NoteKind) (index : nat) (step : TestStep) : TestStep :=
  match kind with
  | Bug => applyPatch (PatchBugs (delete index (ts_bugs step))) step
  | Notice => applyPatch (PatchNotices (delete index (ts_notices step))) step
  | Intention => applyPatch (PatchIntention None) step
  end.

Definition carried (kind : NoteKind) (index : nat) (step : TestStep) : NoteRef :=
  match kind with
  | Bug => item (ts_bugs step) index
  | Notice => item (ts_notices step) index
  | Intention => ts_intention step
  end.

Definition attach (kind : NoteKind) (ref : NoteRef) (step : TestStep) : TestStep :=
  match kind with
  | Bug => applyPatch (PatchBugs (ts_bugs step ++ [ref])) step
  | Notice => applyPatch (PatchNotices (ts_notices step ++ [ref])) step
  | Intention => applyPatch (PatchIntention ref) step
  end.

(** One of the first [k] requests of [w] is thrown by the transport. *)
Definition faulty (k : nat) (w : World) : Prop :=
  ∃ e, Some e ∈ take k (faults w).

(** The id the service gives to the next project it creates. *)
Definition nextProject (s : Service) : string := pretty (nextProjectId s).

Definition projectIds (s : Service) : list string := map project_id (projects s).

(** A repository result sorts the outcome of its one request [call] three
    ways, by what the client did and by the status it reported. *)
Definition classifies {Json A : Type} (expected : nat)
  (call : Outcome (RESTResponse Json)) (payload : Json → A)
  (result : RepositoryAccessResult Json A) : Prop :=
  (result = ConnectionRefusedFailure ↔ ∃ e, call = Throws e) ∧
  (∀ response, result = RepositoryAccessFailure response
               ↔ call = Returns response ∧ status response ≠ expected) ∧
  (∀ d, result = RepositoryAccessSuccess d
        ↔ ∃ response, call = Returns response ∧ status response = expected ∧
                      d = payload (response_data response)).

(** The layout of the generated README, in the words of its description. *)
Module ReadmeLayout.
Import JSDocReadmeGenerator.

(** [String.prototype.isWellFormed]: no lone surrogate. *)
Fixpoint isWellFormed (s : JSString) : bool :=
  match s with
  | [] => true
  | C :: rest =>
      if isLeadSurrogate C then
        match rest with
        | D :: rest' => isTrailSurrogate D && isWellFormed rest'
        | [] => false
        end
      else negb (isTrailSurrogate C) && isWellFormed rest
  end.

(** Every code unit is below 128. *)
Definition ascii7 (s : JSString) : Prop := Forall (λ c, (c < 128)%N) s.

Definition suiteHeader : JSString :=
  newline ++ newline ++ js "|#|name|top page url|" ++ newline
  ++ js "|:--|:--|:--|" ++ newline.

Definition objectHeader : JSString :=
  newline ++ newline ++ js "|#|name|source|" ++ newline
  ++ js "|:--|:--|:--|" ++ newline.

(** A table: nothing for no rows, otherwise the header and the rows, one
    per line. *)
Definition table (header : JSString) (rows : list JSString) : JSString :=
  match rows with
  | [] => []
  | _ :: _ => header ++ join newline rows
  end.

(** The link target of a row. *)
Definition href (label : JSString) : Outcome JSString :=
  inner ← encodeURI (js "./" ++ label ++ js ".html"); encodeURI inner.

(** Row number [number], linking [label] under [target], with [last] in the
    third column. *)
Definition row (number : nat) (target label last : JSString) : JSString :=
  js "|" ++ decimal number ++ js "|<a href=" ++ quote ++ target ++ quote ++ js ">"
  ++ label ++ js "</a>|" ++ last ++ js "|".

(** [rows] are the rows of [entries], numbered from 1 in their order;
    [label] and [last] pick the linked and the third column of an entry. *)
Definition rowsOf (label last : JSString * JSString → JSString)
  (entries : list (JSString * JSString)) (rows : list JSString) : Prop :=
  length rows = length entries ∧
  ∀ i entry, entries !! i = Some entry →
    ∃ target, href (label entry) = Returns target ∧
              rows !! i = Some (row (i + 1) target (label entry) (last entry)).

End ReadmeLayout.

(** *** Recording and image compression *)

(** The three actions that commit a record and then have its image
    compressed. *)
Inductive Recording : Type :=
| registering (captured : CapturedOperation)
| recordingBug (summary details : string) (sequence : nat) (index : option nat)
    (shouldTakeScreenshot : bool)
| recordingNotice (summary details : string) (tags : list string) (sequence : nat)
    (index : option nat) (shouldTakeScreenshot : bool).

Definition record (newURL : string → string → Outcome string)
  (collectKeyword : string → list string) (a : Recording) : Async unit :=
  match a with
  | registering captured => actions.registerOperation newURL collectKeyword captured
  | recordingBug summary details seq index shot =>
      actions.recordBug newURL summary details seq index shot
  | recordingNotice summary details tags seq index shot =>
      actions.recordNotice newURL summary details tags seq index shot
  end.


(** The requests that ask the service to compress an image. *)
Definition isCompression (e : Event) : bool :=
  match e with
  | Requested (POST_testStep_compressedImage _ _)
  | Requested (POST_note_compressedImage _ _) => true
  | _ => false
  end.




(** Between [w] and [w'] the client sent requests, none of them for a
    compression, and touched neither the store of the GUI nor the timers. *)
Definition requests_only (w w' : World) : Prop :=
  state w' = state w ∧ timers w' = timers w ∧ serviceUrl w' = serviceUrl w ∧
  screenshot w' = screenshot w ∧
  ∃ events, log w' = log w ++ events ∧ Forall (λ e, isCompression e = false) events.

Definition quiet {A} (m : Async A) : Prop :=
  ∀ w o w', m w = (o, w') → requests_only w w'.



(** *** A small world to run the code in *)

Definition exampleNewURL (url base : string) : Outcome string :=
  Returns (base +:+ "/" +:+ url).

Definition exampleNote (id : nat) (type : string) : SavedNote :=
  mkSavedNote id type "summary" "details" None None.

Definition exampleService : Service :=
  mkService
    {[ ("r1", 1) := mkTestStep (Some 7) [Some 10; Some 11] [Some 20; Some 21]
                      (Some "s1.png");
       ("r1", 2) := mkTestStep None [Some 12] [] None ]}
    {[ ("r1", 7) := exampleNote 7 "intention";
       ("r1", 10) := exampleNote 10 "bug";
       ("r1", 11) := exampleNote 11 "bug";
       ("r1", 12) := exampleNote 12 "bug";
       ("r1", 20) := exampleNote 20 "notice";
       ("r1", 21) := exampleNote 21 "notice" ]}
    30
    {[ "r1" := mkTestResult "r1" "first" [] [] [] "http://localhost";
       "r2" := mkTestResult "r2" "second"
                 [mkResultStep
                    (Some (mkServiceOperation 5 "w1" "Login" "click" "" None []))
                    (Some (exampleNote 7 "intention"))
                    (Some [exampleNote 10 "bug"]) None]
                 [] [] "http://localhost" ]}
    [mkProject "1" "demo"]
    2
    (mkSettings "en" true)
    (λ _ captured,
       mkRegisterResponse
         (mkServiceOperation 3 (co_windowHandle captured) (co_screenDef captured)
            (co_type captured) (co_input captured) (Some "s3.png") [])
         (mkCoverageSource (co_screenDef captured) []) None)
    (λ imageData, "stored.png")
    (λ url, url +:+ ".webp")
    (λ id, "test-scripts/" +:+ id).

Definition exampleState : State := mkState [] true false "r1".

Definition exampleWorld (faults : list (option Thrown)) : World :=
  mkWorld exampleService faults "http://127.0.0.1:3002" exampleState "shot" [] [].

(** A client that cannot reach the service for [/projects], gets a 500 for
    every other read, post and patch, and succeeds with puts and deletes. *)
Definition exampleClient : RESTClient string := {|
  httpGet url :=
    if String.eqb url "/projects" then Throws ConnectionRefused
    else Returns (mkResponse 500 "internal error");
  httpPost url body := Returns (mkResponse 500 "internal error");
  httpPut url body := Returns (mkResponse 200 body);
  httpPatch url body := Returns (mkResponse 500 "internal error");
  httpDelete url := Returns (mkResponse 204 "")
|}.

(** *** Notes kept in a list: one name for the bug and the notice variant *)

Definition patchOf (kind : Listed) (l : list NoteRef) : StepPatch :=
  match kind with
  | Bugs => PatchBugs l
  | Notices => PatchNotices l
  end.

(** The [type] under which the service files a note of the list. *)
Definition typeOf (kind : Listed) : string :=
  match kind with
  | Bugs => "bug"
  | Notices => "notice"
  end.

Definition moveListed (newURL : string → string → Outcome string) (kind : Listed)
  : string → nat → nat → nat → Async (Reply Recorded) :=
  match kind with
  | Bugs => RepositoryServiceDispatcher.moveBug newURL
  | Notices => RepositoryServiceDispatcher.moveNotice newURL
  end.

Definition edit (newURL : string → string → Outcome string) (kind : Listed)
  (tid : string) (seq index : nat) (summary details : string) (tags : list string)
  : Async (Reply Recorded) :=
  match kind with
  | Bugs => RepositoryServiceDispatcher.editBug newURL tid seq index summary details
  | Notices =>
      RepositoryServiceDispatcher.editNotice newURL tid seq index summary details tags
  end.

(** The body that [editBug] and [editNotice] put to the service. *)
Definition editBody (kind : Listed) (summary details : string) (tags : list string)
  : NoteBody :=
  match kind with
  | Bugs => mkNoteBody "bug" summary details None None
  | Notices => mkNoteBody "notice" summary details (Some tags) None
  end.

Definition deleteListed (kind : Listed)
  : string → nat → nat → Async (Reply (nat * nat)) :=
  match kind with
  | Bugs => RepositoryServiceDispatcher.deleteBug
  | Notices => RepositoryServiceDispatcher.deleteNotice
  end.

(** The store after the service dropped note [id] of test result [tid]. *)
Definition forgotten (tid : string) (id : nat) (s : Service) : Service :=
  with_notes (delete (tid, id) (notes s)) (nextNoteId s) s.

(** *** Replies *)

(** [m] always ends with a reply, and its only failure reply is [failure]. *)
Definition replies_with {A} (failure : Reply A) (m : Async (Reply A)) : Prop :=
  ∀ w, ∃ reply w', m w = (Returns reply, w') ∧
                   (succeeded reply = false → reply = failure).

(** What [body] returns is a success. *)
Definition returns_success {A} (body : Async (Reply A)) : Prop :=
  ∀ w reply w', body w = (Returns reply, w') → succeeded reply = true.

(** A resumed item has what its test step has: an operation, an intention,
    a list of bugs and of notices each where the step has one, the lists as
    long as the step's. *)
Definition sameShape (step : ResultStep) (item : OperationHistoryItem) : Prop :=
  (item_operation item = None ↔ rs_operation step = None) ∧
  (item_intention item = None ↔ rs_intention step = None) ∧
  length <$> item_bugs item = length <$> rs_bugs step ∧
  length <$> item_notices item = length <$> rs_notices step.

(** *** Actions on listed notes *)

(** Between [w] and [w'] the client only talked to the service: the store
    of the GUI and the timers are as before, and what the log gained are
    requests. *)
Definition dispatched (w w' : World) : Prop :=
  state w' = state w ∧ timers w' = timers w ∧
  ∃ events, log w' = log w ++ events ∧ Forall (λ e, ∃ r, e = Requested r) events.

Definition dispatching {A} (m : Async A) : Prop :=
  ∀ w o w', m w = (o, w') → dispatched w w'.

Definition moveAction (newURL : string → string → Outcome string) (kind : Listed)
  : nat → nat → nat → Async unit :=
  match kind with
  | Bugs => actions.moveBug newURL
  | Notices => actions.moveNotice newURL
  end.

Definition deleteAction (kind : Listed) : nat → nat → Async unit :=
  match kind with
  | Bugs => actions.deleteBug
  | Notices => actions.deleteNotice
  end.

(** The commit that takes a note out of the store of the GUI. *)
Definition deleteCommit (kind : Listed) (sequence index : nat) : Commit :=
  match kind with
  | Bugs => deleteBug sequence index
  | Notices => deleteNotice sequence index
  end.

Definition recordAction (newURL : string → string → Outcome string) (kind : Listed)
  (summary details : string) (tags : list string) (sequence : nat) (index : option nat)
  (shouldTakeScreenshot : bool) : Async unit :=
  match kind with
  | Bugs => actions.recordBug newURL summary details sequence index shouldTakeScreenshot
  | Notices =>
      actions.recordNotice newURL summary details tags sequence index
        shouldTakeScreenshot
  end.

(** The [imageUrlResolver] that [generateTestScripts] hands to the script
    generator. *)
Definition imageUrlResolver (serviceUrl url : string) : string :=
  replace (serviceUrl +:+ "/test-results/") "" url.

(** A URL constructor that rejects one string, and a world whose test
    result [r3] has an operation with that string as its screenshot. *)
Definition strictNewURL (url base : string) : Outcome string :=
  if String.eqb url "::" then Throws TypeError else Returns (base +:+ "/" +:+ url).

Definition brokenResult : TestResult :=
  mkTestResult "r3" "third"
    [mkResultStep (Some (mkServiceOperation 1 "w1" "Top" "click" "" (Some "a.png") []))
       None None None;
     mkResultStep (Some (mkServiceOperation 2 "w1" "Top" "click" "" (Some "::") []))
       None None None]
    [] [] "http://localhost".

Definition brokenWorld : World :=
  with_service
    (mkService ∅ ∅ 0 {[ "r3" := brokenResult ]} [] 1 (mkSettings "en" true)
       (capture exampleService) (storeImage exampleService)
       (compress exampleService) (archive exampleService))
    (exampleWorld []).

(** A code unit that [encodeURI] can put out: one it leaves alone, or the
    percent sign of an escape. *)
Definition uriCharacter (c : N) : bool :=
  JSDocReadmeGenerator.uriUnescapedOrReserved c || (c =? 37)%N.

(** * Properties *)

(** ** Running requests *)

Lemma http_cases {A} (r : Request) (serve : Service → option (A * Service)) w :
  (∃ e, http r serve w = (Throws e, sent r w)) ∨
  (∃ a s', serve (service w) = Some (a, s') ∧
           http r serve w = (Returns a, with_service s' (sent r w))).
Proof.
  unfold http, sent.
  destruct (head (faults w)) as [[e|]|]; eauto;
    destruct (serve (service w)) as [[a s']|]; eauto.
Qed.

Lemma bind_returns {A B} (m : Async A) (k : A → Async B) w b w' :
  bind m k w = (Returns b, w') →
  ∃ a w1, m w = (Returns a, w1) ∧ k a w1 = (Returns b, w').
Proof.
  unfold bind. destruct (m w) as [[a|e] w1]; [eauto | discriminate].
Qed.

Lemma try_catch_success {A} (body : Async (Reply A)) code msg w d w' :
  try_catch body (λ _, ret (ReplyFailure code msg)) w
  = (Returns (ReplySuccess d), w') →
  body w = (Returns (ReplySuccess d), w').
Proof.
  unfold try_catch, ret. destruct (body w) as [[a|e] w1]; [done | discriminate].
Qed.

(** Inversion of an answered request in hypothesis [H]. *)
Ltac answered H :=
  match type of H with
  | http ?r ?f ?w = _ =>
      let e := fresh "e" in
      let He := fresh "He" in
      let Hs := fresh "Hs" in
      destruct (http_cases r f w) as [[e He] | (? & ? & Hs & He)];
      rewrite He in H; [discriminate|]
  end.

(** What the endpoints do to the store when they answer. *)
Lemma httpGet_testStep_returns tid seq w step w' :
  httpGet_testStep tid seq w = (Returns step, w') →
  steps (service w) !! (tid, seq) = Some step ∧ service w' = service w.
Proof.
  unfold httpGet_testStep. intros H. answered H.
  destruct (steps (service w) !! (tid, seq)) as [st|] eqn:Hl; simplify_eq/=.
  done.
Qed.

Lemma httpPatch_testStep_returns tid seq body w step' w' :
  httpPatch_testStep tid seq body w = (Returns step', w') →
  ∃ step, steps (service w) !! (tid, seq) = Some step ∧
          step' = applyPatch body step ∧
          service w' = with_steps (<[(tid, seq) := step']> (steps (service w)))
                         (service w).
Proof.
  unfold httpPatch_testStep. intros H. answered H.
  destruct (steps (service w) !! (tid, seq)) as [st|] eqn:Hl; simplify_eq/=.
  eauto.
Qed.

Lemma httpPost_notes_returns tid body w saved w' :
  httpPost_notes tid body w = (Returns saved, w') →
  sn_id saved = nextNoteId (service w) ∧ steps (service w') = steps (service w).
Proof.
  unfold httpPost_notes. intros H.
  answered H.
  simplify_eq/=. done.
Qed.

Lemma imagePath_returns newURL url w p w' :
  RepositoryServiceDispatcher.imagePath newURL url w = (Returns p, w') → w' = w.
Proof.
  unfold RepositoryServiceDispatcher.imagePath, read, lift, ret, bind.
  destruct (truthy url); [|by intros [= _ ->]].
  destruct (newURL _ _); by intros [= <-].
Qed.

(** ** Adding a note *)

(** C8 — every successful [addBug] / [addNotice] appends the new note's id
    at the end of the test step's list, keeps the ids that were there in
    their order, and returns as index the number of notes that were attached
    before. *)
Theorem add_appends_and_indexes newURL kind tid seq summary details tags imageData
  w r w' :
  add newURL kind tid seq summary details tags imageData w
  = (Returns (ReplySuccess r), w') →
  ∃ step id,
    steps (service w) !! (tid, seq) = Some step ∧
    note_id (recorded_note r) = Some id ∧
    listOf kind <$> steps (service w') !! (tid, seq)
    = Some (listOf kind step ++ [Some id]) ∧
    recorded_index r = Z.of_nat (length (listOf kind step)).
Proof.
  intros H.
  destruct kind; cbn [add] in H;
    [unfold RepositoryServiceDispatcher.addBug in H
    |unfold RepositoryServiceDispatcher.addNotice in H];
    apply try_catch_success in H;
    apply bind_returns in H as (saved & w1 & Hpost & H);
    apply bind_returns in H as (patched & w2 & Hlink & H);
    apply bind_returns in Hlink as (step & w3 & Hget & Hpatch);
    apply bind_returns in H as (path & w4 & Hpath & H);
    apply httpPost_notes_returns in Hpost as [Hid Hsteps];
    apply httpGet_testStep_returns in Hget as [Hstep Hsame];
    apply httpPatch_testStep_returns in Hpatch as (step' & Hstep' & -> & Hw2);
    apply imagePath_returns in Hpath as ->;
    unfold ret in H; simplify_eq/=;
    rewrite Hsame, Hstep in Hstep'; simplify_eq;
    exists step', (sn_id saved); rewrite <- Hsteps;
    (split; [done|]); (split; [done|]);
    rewrite Hw2; cbn; rewrite lookup_insert_eq; cbn;
    (split; [done|]); rewrite length_app; cbn; lia.
Qed.

Lemma add_appends_and_indexes_witness :
  ∃ step id,
    steps exampleService !! ("r1", 1) = Some step ∧
    id = 30 ∧
    listOf Notices <$>
      steps (service (add exampleNewURL Notices "r1" 1 "s" "d" ["tag"] None
                        (exampleWorld [])).2) !! ("r1", 1)
    = Some (listOf Notices step ++ [Some id]) ∧
    listOf Notices step = [Some 20; Some 21].
Proof.
  destruct (add exampleNewURL Notices "r1" 1 "s" "d" ["tag"] None (exampleWorld []))
    as [o w'] eqn:Hrun.
  assert (Hr : ∃ r, o = Returns (ReplySuccess r) ∧ note_id (recorded_note r) = Some 30).
  { vm_compute in Hrun. injection Hrun as <- _. eauto. }
  destruct Hr as (r & -> & Hid).
  destruct (add_appends_and_indexes exampleNewURL Notices "r1" 1 "s" "d" ["tag"] None
              (exampleWorld []) r w' Hrun)
    as (step & id & Hstep & Hid' & Hlist & Hindex).
  exists step, id. rewrite Hid in Hid'. injection Hid' as <-.
  cbn [snd]. split; [exact Hstep|]. split; [done|]. split; [exact Hlist|].
  vm_compute in Hstep. injection Hstep as <-. done.
Defined.

(** ** Moving a note *)

Lemma moveBug_moveList newURL :
  RepositoryServiceDispatcher.moveBug newURL = moveList newURL ts_bugs PatchBugs.
Proof. reflexivity. Qed.

Lemma moveNotice_moveList newURL :
  RepositoryServiceDispatcher.moveNotice newURL = moveList newURL ts_notices PatchNotices.
Proof. reflexivity. Qed.

(** [filter((_, index) => index !== i)] drops position [i]. *)
Lemma filter_from_other {A} (array l : list A) (j k : nat) :
  j < k → filter_from (λ _ index _, negb (index =? j)%nat) array k l = l.
Proof.
  revert k. induction l as [|x l IH]; intros k Hjk; [done|].
  cbn. destruct (Nat.eqb_spec k j); [lia|]. cbn. by rewrite IH by lia.
Qed.

Lemma filter_from_delete {A} (array l : list A) (k i : nat) :
  filter_from (λ _ index _, negb (index =? k + i)%nat) array k l = delete i l.
Proof.
  revert k i. induction l as [|x l IH]; intros k i; [done|].
  cbn. destruct i as [|i].
  - rewrite Nat.add_0_r, Nat.eqb_refl. cbn.
    apply filter_from_other. lia.
  - destruct (Nat.eqb_spec k (k + S i)); [lia|]. cbn.
    f_equal. replace (k + S i) with (S k + i) by lia. apply IH.
Qed.

Lemma js_filter_delete {A} (l : list A) (i : nat) :
  js_filter (λ _ index _, negb (index =? i)%nat) l = delete i l.
Proof. apply (filter_from_delete l l 0 i). Qed.

Lemma occurrences_app n l r :
  occurrences n (l ++ [r]) = occurrences n l + (if decide (r = Some n) then 1 else 0).
Proof.
  induction l as [|x l IH]; cbn; [lia|]. rewrite IH. lia.
Qed.

Lemma occurrences_delete n l i :
  l !! i = Some (Some n) → occurrences n (delete i l) + 1 = occurrences n l.
Proof.
  revert i. induction l as [|x l IH]; intros i Hi; [done|].
  destruct i as [|i]; cbn in Hi.
  - simplify_eq. change (delete 0 (Some n :: l)) with l. cbn.
    rewrite decide_True by done. lia.
  - change (delete (S i) (x :: l)) with (x :: delete i l). cbn.
    rewrite <- (IH i Hi). lia.
Qed.

(** Attachments are counted step by step. *)
Lemma attachments_lookup kind tid n s key step :
  steps s !! key = Some step →
  attachments kind tid n s
  = contribution kind tid n (key, step)
    + sum_list_with (contribution kind tid n) (map_to_list (delete key (steps s))).
Proof.
  intros H. unfold attachments.
  by rewrite <- (map_to_list_delete _ _ _ H).
Qed.

Lemma attachments_patched kind tid n s key step :
  attachments kind tid n (patched key step s)
  = contribution kind tid n (key, step)
    + sum_list_with (contribution kind tid n) (map_to_list (delete key (steps s))).
Proof.
  unfold attachments, patched. cbn.
  rewrite <- insert_delete_eq.
  by rewrite map_to_list_insert by apply lookup_delete_eq.
Qed.

Lemma attachments_replace kind tid n s seq old new :
  steps s !! (tid, seq) = Some old →
  attachments kind tid n (patched (tid, seq) new s) + links kind n old
  = attachments kind tid n s + links kind n new.
Proof.
  intros H. rewrite attachments_patched, (attachments_lookup _ _ _ _ _ _ H).
  unfold contribution. cbn. rewrite !decide_True by done. lia.
Qed.

(** Each request either throws and leaves the store alone, or is served. *)
Lemma httpGet_testStep_cases tid seq w :
  (∃ e w', httpGet_testStep tid seq w = (Throws e, w') ∧ service w' = service w) ∨
  (∃ step w', httpGet_testStep tid seq w = (Returns step, w') ∧
              steps (service w) !! (tid, seq) = Some step ∧ service w' = service w).
Proof.
  unfold httpGet_testStep.
  match goal with |- context [http ?r ?f w] =>
    destruct (http_cases r f w) as [[e He] | (a & s' & Hs & He)] end;
    rewrite He; [left; eauto|right].
  destruct (steps (service w) !! (tid, seq)) as [st|] eqn:Hl; simplify_eq/=.
  eauto.
Qed.

Lemma httpPatch_testStep_cases tid seq body w :
  (∃ e w', httpPatch_testStep tid seq body w = (Throws e, w') ∧
           service w' = service w) ∨
  (∃ step w', httpPatch_testStep tid seq body w = (Returns (applyPatch body step), w') ∧
              steps (service w) !! (tid, seq) = Some step ∧
              service w' = patched (tid, seq) (applyPatch body step) (service w)).
Proof.
  unfold httpPatch_testStep.
  match goal with |- context [http ?r ?f w] =>
    destruct (http_cases r f w) as [[e He] | (a & s' & Hs & He)] end;
    rewrite He; [left; eauto|right].
  destruct (steps (service w) !! (tid, seq)) as [st|] eqn:Hl; simplify_eq/=.
  eauto.
Qed.

Lemma httpGet_note_cases tid ref w :
  (∃ e w', httpGet_note tid ref w = (Throws e, w') ∧ service w' = service w) ∨
  (∃ saved w', httpGet_note tid ref w = (Returns saved, w') ∧ service w' = service w).
Proof.
  unfold httpGet_note.
  match goal with |- context [http ?r ?f w] =>
    destruct (http_cases r f w) as [[e He] | (a & s' & Hs & He)] end;
    rewrite He; [left; eauto|right].
  destruct ref as [id|]; simplify_eq/=.
  destruct (notes (service w) !! (tid, id)); simplify_eq/=. eauto.
Qed.

Lemma imagePath_cases newURL url w :
  (∃ e, RepositoryServiceDispatcher.imagePath newURL url w = (Throws e, w)) ∨
  (∃ p, RepositoryServiceDispatcher.imagePath newURL url w = (Returns p, w)).
Proof.
  unfold RepositoryServiceDispatcher.imagePath, read, lift, ret, bind.
  destruct (truthy url); [|eauto]. destruct (newURL _ _); eauto.
Qed.

(** Where a move of a bug or a notice can end: before any [PATCH], after
    the source's [PATCH] only, or after both. *)
Lemma moveList_outcomes newURL get patch tid from idx dest w :
  ∃ reply w',
    moveList newURL get patch tid from idx dest w = (Returns reply, w') ∧
    ((succeeded reply = false ∧ service w' = service w) ∨
     ∃ fromStep,
       steps (service w) !! (tid, from) = Some fromStep ∧
       let s1 := patched (tid, from)
                   (applyPatch (patch (delete idx (get fromStep))) fromStep)
                   (service w) in
       ((succeeded reply = false ∧ service w' = s1) ∨
        ∃ destStep,
          steps s1 !! (tid, dest) = Some destStep ∧
          service w' = patched (tid, dest)
                         (applyPatch (patch (get destStep ++ [item (get fromStep) idx]))
                            destStep) s1)).
Proof.
  unfold moveList, try_catch, bind.
  destruct (httpGet_testStep_cases tid from w)
    as [(e & w1 & -> & Hs1) | (fromStep & w1 & -> & Hfrom & Hs1)].
  { eexists _, _. split; [reflexivity|]. left. by rewrite Hs1. }
  rewrite js_filter_delete.
  destruct (httpPatch_testStep_cases tid from (patch (delete idx (get fromStep))) w1)
    as [(e & w2 & -> & Hs2) | (fromStep' & w2 & -> & Hfrom' & Hs2)].
  { eexists _, _. split; [reflexivity|]. left. by rewrite Hs2, Hs1. }
  rewrite Hs1, Hfrom in Hfrom'. injection Hfrom' as <-. rewrite Hs1 in Hs2.
  destruct (httpGet_testStep_cases tid dest w2)
    as [(e & w3 & -> & Hs3) | (destStep & w3 & -> & Hdest & Hs3)].
  { eexists _, _. split; [reflexivity|]. right. exists fromStep.
    split; [done|]. left. by rewrite Hs3, Hs2. }
  destruct (httpPatch_testStep_cases tid dest
              (patch (get destStep ++ [item (get fromStep) idx])) w3)
    as [(e & w4 & -> & Hs4) | (destStep' & w4 & -> & Hdest' & Hs4)].
  { eexists _, _. split; [reflexivity|]. right. exists fromStep.
    split; [done|]. left. by rewrite Hs4, Hs3, Hs2. }
  rewrite Hs3, Hdest in Hdest'. injection Hdest' as <-. rewrite Hs3 in Hs4.
  rewrite Hs2 in Hdest, Hs4.
  assert (Hend : ∀ (reply : Reply Recorded) w',
    service w' = service w4 →
    (succeeded reply = false ∧ service w' = service w) ∨
     ∃ fromStep0,
       steps (service w) !! (tid, from) = Some fromStep0 ∧
       let s1 := patched (tid, from)
                   (applyPatch (patch (delete idx (get fromStep0))) fromStep0)
                   (service w) in
       ((succeeded reply = false ∧ service w' = s1) ∨
        ∃ destStep0,
          steps s1 !! (tid, dest) = Some destStep0 ∧
          service w' = patched (tid, dest)
                         (applyPatch
                            (patch (get destStep0 ++ [item (get fromStep0) idx]))
                            destStep0) s1)).
  { intros reply w' Hw'. right. exists fromStep. split; [done|]. right.
    exists destStep. split; [done|]. by rewrite Hw'. }
  destruct (httpGet_note_cases tid (item (get fromStep) idx) w4)
    as [(e & w5 & -> & Hs5) | (saved & w5 & -> & Hs5)].
  { eexists _, _. split; [reflexivity|]. by apply Hend. }
  destruct (imagePath_cases newURL (sn_imageFileUrl saved) w5) as [[e ->] | [p ->]].
  { eexists _, _. split; [reflexivity|]. by apply Hend. }
  eexists _, _. split; [reflexivity|]. by apply Hend.
Qed.

Lemma moveIntention_outcomes newURL tid from dest w :
  ∃ reply w',
    RepositoryServiceDispatcher.moveIntention newURL tid from dest w
    = (Returns reply, w') ∧
    ((succeeded reply = false ∧ service w' = service w) ∨
     ∃ fromStep,
       steps (service w) !! (tid, from) = Some fromStep ∧
       let s1 := patched (tid, from) (applyPatch (PatchIntention None) fromStep)
                   (service w) in
       ((succeeded reply = false ∧ service w' = s1) ∨
        ∃ destStep,
          steps s1 !! (tid, dest) = Some destStep ∧
          service w' = patched (tid, dest)
                         (applyPatch (PatchIntention (ts_intention fromStep)) destStep)
                         s1)).
Proof.
  unfold RepositoryServiceDispatcher.moveIntention, try_catch, bind.
  destruct (httpGet_testStep_cases tid from w)
    as [(e & w1 & -> & Hs1) | (fromStep & w1 & -> & Hfrom & Hs1)].
  { eexists _, _. split; [reflexivity|]. left. by rewrite Hs1. }
  destruct (httpPatch_testStep_cases tid from (PatchIntention None) w1)
    as [(e & w2 & -> & Hs2) | (fromStep' & w2 & -> & Hfrom' & Hs2)].
  { eexists _, _. split; [reflexivity|]. left. by rewrite Hs2, Hs1. }
  rewrite Hs1, Hfrom in Hfrom'. injection Hfrom' as <-. rewrite Hs1 in Hs2.
  destruct (httpPatch_testStep_cases tid dest
              (PatchIntention (ts_intention fromStep)) w2)
    as [(e & w4 & -> & Hs4) | (destStep & w4 & -> & Hdest & Hs4)].
  { eexists _, _. split; [reflexivity|]. right. exists fromStep.
    split; [done|]. left. by rewrite Hs4, Hs2. }
  rewrite Hs2 in Hdest, Hs4.
  assert (Hend : ∀ (reply : Reply Note) w',
    service w' = service w4 →
    (succeeded reply = false ∧ service w' = service w) ∨
     ∃ fromStep0,
       steps (service w) !! (tid, from) = Some fromStep0 ∧
       let s1 := patched (tid, from) (applyPatch (PatchIntention None) fromStep0)
                   (service w) in
       ((succeeded reply = false ∧ service w' = s1) ∨
        ∃ destStep0,
          steps s1 !! (tid, dest) = Some destStep0 ∧
          service w' = patched (tid, dest)
                         (applyPatch (PatchIntention (ts_intention fromStep0))
                            destStep0) s1)).
  { intros reply w' Hw'. right. exists fromStep. split; [done|]. right.
    exists destStep. split; [done|]. by rewrite Hw'. }
  destruct (httpGet_note_cases tid (ts_intention fromStep) w4)
    as [(e & w5 & -> & Hs5) | (saved & w5 & -> & Hs5)].
  { eexists _, _. split; [reflexivity|]. by apply Hend. }
  destruct (imagePath_cases newURL (sn_imageFileUrl saved) w5) as [[e ->] | [p ->]].
  { eexists _, _. split; [reflexivity|]. by apply Hend. }
  eexists _, _. split; [reflexivity|]. by apply Hend.
Qed.

(** The three moves end in one of three stores. *)
Lemma move_outcomes newURL kind tid from idx dest w :
  ∃ ok w',
    move newURL kind tid from idx dest w = (Returns ok, w') ∧
    ((ok = false ∧ service w' = service w) ∨
     ∃ fromStep,
       steps (service w) !! (tid, from) = Some fromStep ∧
       let s1 := patched (tid, from) (detach kind idx fromStep) (service w) in
       ((ok = false ∧ service w' = s1) ∨
        ∃ destStep,
          steps s1 !! (tid, dest) = Some destStep ∧
          service w' = patched (tid, dest)
                         (attach kind (carried kind idx fromStep) destStep) s1)).
Proof.
  destruct kind; cbn [move detach attach carried].
  - rewrite moveBug_moveList.
    destruct (moveList_outcomes newURL ts_bugs PatchBugs tid from idx dest w)
      as (reply & w' & -> & H).
    by exists (succeeded reply), w'.
  - rewrite moveNotice_moveList.
    destruct (moveList_outcomes newURL ts_notices PatchNotices tid from idx dest w)
      as (reply & w' & -> & H).
    by exists (succeeded reply), w'.
  - destruct (moveIntention_outcomes newURL tid from dest w) as (reply & w' & -> & H).
    by exists (succeeded reply), w'.
Qed.

Lemma carried_holds kind n idx step : holds kind n idx step → carried kind idx step = Some n.
Proof.
  destruct kind; cbn; unfold item; [intros ->; done | intros ->; done | done].
Qed.

Lemma links_detach kind n idx step :
  holds kind n idx step → links kind n (detach kind idx step) + 1 = links kind n step.
Proof.
  destruct kind; cbn.
  - apply occurrences_delete.
  - apply occurrences_delete.
  - intros H. rewrite H. repeat case_decide; simplify_eq; lia.
Qed.

Lemma links_attach kind n step :
  1 ≤ links kind n (attach kind (Some n) step) ≤ links kind n step + 1.
Proof.
  destruct kind; cbn.
  - rewrite occurrences_app, decide_True by done. lia.
  - rewrite occurrences_app, decide_True by done. lia.
  - rewrite decide_True by done. lia.
Qed.

Lemma last_attach kind n step :
  last (noteList kind (attach kind (Some n) step)) = Some (Some n).
Proof.
  destruct kind; cbn [attach noteList applyPatch ts_bugs ts_notices ts_intention];
    [apply last_snoc | apply last_snoc | done].
Qed.

Lemma links_le_attachments kind tid n s seq step :
  steps s !! (tid, seq) = Some step → links kind n step ≤ attachments kind tid n s.
Proof.
  intros H. rewrite (attachments_lookup _ _ _ _ _ _ H).
  unfold contribution. cbn. rewrite decide_True by done. lia.
Qed.

(** C1 (as amended) — a valid move of a bug, a notice or an intention always
    ends with a reply.  When the reply succeeded, the note is attached to
    exactly one test step, the destination, where it comes last, and a
    source different from the destination no longer links it.  When the
    reply failed, the note is attached to at most one test step: nothing is
    rolled back. *)
Theorem move_keeps_at_most_one_attachment newURL kind tid from idx dest n w fromStep :
  steps (service w) !! (tid, from) = Some fromStep →
  holds kind n idx fromStep →
  attachments kind tid n (service w) = 1 →
  ∃ ok w',
    move newURL kind tid from idx dest w = (Returns ok, w') ∧
    if ok then
      attachments kind tid n (service w') = 1 ∧
      (∃ destStep, steps (service w') !! (tid, dest) = Some destStep ∧
                   last (noteList kind destStep) = Some (Some n)) ∧
      (from ≠ dest →
       ∃ fromStep', steps (service w') !! (tid, from) = Some fromStep' ∧
                    links kind n fromStep' = 0)
    else attachments kind tid n (service w') ≤ 1.
Proof.
  intros Hfrom Hholds Hone.
  destruct (move_outcomes newURL kind tid from idx dest w) as (ok & w' & Hrun & Hcases).
  exists ok, w'. split; [done|].
  destruct Hcases as [[-> Hs] | (fromStep0 & Hfrom0 & Hcases)].
  { rewrite Hs. lia. }
  rewrite Hfrom in Hfrom0. injection Hfrom0 as <-.
  pose proof (attachments_replace kind tid n (service w) from fromStep
                (detach kind idx fromStep) Hfrom) as Hs1.
  pose proof (links_detach kind n idx fromStep Hholds) as Hdetach.
  pose proof (links_le_attachments kind tid n (service w) from fromStep Hfrom) as Hle.
  cbn zeta in Hcases.
  set (s1 := patched (tid, from) (detach kind idx fromStep) (service w)) in *.
  assert (Hzero : attachments kind tid n s1 = 0) by lia.
  destruct Hcases as [[-> Hs] | (destStep & Hdest & Hs)].
  { rewrite Hs. lia. }
  rewrite (carried_holds kind n idx fromStep Hholds) in Hs.
  pose proof (attachments_replace kind tid n s1 dest destStep
                (attach kind (Some n) destStep) Hdest) as Hs2.
  pose proof (links_le_attachments kind tid n s1 dest destStep Hdest) as Hle2.
  pose proof (links_attach kind n destStep) as Hattach.
  assert (Hfinal : attachments kind tid n (service w') = 1) by (rewrite Hs; lia).
  destruct ok; [|lia].
  split; [done|]. split.
  - exists (attach kind (Some n) destStep). split; [|apply last_attach].
    rewrite Hs. cbn. apply lookup_insert_eq.
  - intros Hne. exists (detach kind idx fromStep). split; [|lia].
    rewrite Hs. cbn. rewrite lookup_insert_ne by congruence. apply lookup_insert_eq.
Qed.

Lemma move_keeps_at_most_one_attachment_witness :
  ∃ ok w',
    move exampleNewURL Bug "r1" 1 0 2 (exampleWorld []) = (Returns ok, w') ∧
    if ok then
      attachments Bug "r1" 10 (service w') = 1 ∧
      (∃ destStep, steps (service w') !! ("r1", 2) = Some destStep ∧
                   last (noteList Bug destStep) = Some (Some 10)) ∧
      (1 ≠ 2 →
       ∃ fromStep', steps (service w') !! ("r1", 1) = Some fromStep' ∧
                    links Bug 10 fromStep' = 0)
    else attachments Bug "r1" 10 (service w') ≤ 1.
Proof.
  apply (move_keeps_at_most_one_attachment exampleNewURL Bug "r1" 1 0 2 10
           (exampleWorld [])
           (mkTestStep (Some 7) [Some 10; Some 11] [Some 20; Some 21] (Some "s1.png"))).
  - reflexivity.
  - reflexivity.
  - vm_compute. reflexivity.
Defined.

(** C1, as stated, fails: when the transport drops the request that follows
    the source's [PATCH], bug 10 ends up attached to no test step at all. *)
Lemma move_interrupted_detaches_note :
  attachments Bug "r1" 10 exampleService = 1 ∧
  (move exampleNewURL Bug "r1" 1 0 2
     (exampleWorld [None; None; Some ConnectionRefused])).1 = Returns false ∧
  attachments Bug "r1" 10
    (service (move exampleNewURL Bug "r1" 1 0 2
                (exampleWorld [None; None; Some ConnectionRefused])).2) = 0.
Proof. vm_compute. done. Qed.

(** ** Reading a project *)

(** A request throws because the transport failed it or because the service
    does not have the resource. *)
Lemma http_cases3 {A} (r : Request) (serve : Service → option (A * Service)) w :
  (∃ e, head (faults w) = Some (Some e) ∧ http r serve w = (Throws e, sent r w)) ∨
  (serve (service w) = None ∧ http r serve w = (Throws (StatusError 404), sent r w)) ∨
  (∃ a s', serve (service w) = Some (a, s') ∧
           http r serve w = (Returns a, with_service s' (sent r w))).
Proof.
  unfold http, sent.
  destruct (head (faults w)) as [[e|]|]; eauto;
    destruct (serve (service w)) as [[a s']|]; eauto 8.
Qed.

Lemma faulty_head k w e : head (faults w) = Some (Some e) → faulty (S k) w.
Proof.
  unfold faulty. destruct (faults w) as [|f fs]; intros [= ->].
  exists e. cbn. apply list_elem_of_here.
Qed.

Lemma faulty_sent k r s w : faulty k (with_service s (sent r w)) → faulty (S k) w.
Proof.
  unfold faulty, sent. cbn. intros [e He]. exists e.
  destruct (faults w) as [|f fs]; cbn in *.
  - by rewrite take_nil in He.
  - by apply list_elem_of_further.
Qed.

Lemma list_find_project_fresh (l : list Project) p :
  project_id p ∉ map project_id l →
  list_find (λ q, project_id q = project_id p) (l ++ [p]) = Some (length l, p).
Proof.
  intros Hfresh. rewrite list_find_app_r.
  - cbn. by rewrite decide_True.
  - apply list_find_None, Forall_forall. intros q Hq Heq.
    apply Hfresh. rewrite <- Heq. apply list_elem_of_fmap. eauto.
Qed.

Lemma list_find_project_known (l : list Project) id :
  id ∈ map project_id l →
  ∃ i p, list_find (λ q, project_id q = id) l = Some (i, p) ∧ project_id p = id ∧ p ∈ l.
Proof.
  intros (p & -> & Hp)%list_elem_of_fmap.
  destruct (list_find_elem_of (λ q, project_id q = project_id p) l p Hp eq_refl)
    as [[i q] Hfind].
  exists i, q. split; [done|].
  apply list_find_Some in Hfind as (Hq & Hid & _).
  split; [done|]. by eapply list_elem_of_lookup_2.
Qed.

(** C9 — [readProject] always ends with a reply; unless the transport
    failed one of its (at most three) requests the reply is a success,
    whatever the id: a known id yields that project, an unknown id makes
    [readProject] post a new project with the empty name and yield the
    project just created. *)
Theorem readProject_creates_unknown_project projectId w :
  nextProject (service w) ∉ projectIds (service w) →
  ∃ reply w',
    RepositoryServiceDispatcher.readProject projectId w = (Returns reply, w') ∧
    (succeeded reply = false → faulty 3 w) ∧
    (∀ project, reply = ReplySuccess project →
       if decide (projectId ∈ projectIds (service w)) then
         project_id project = projectId ∧ project ∈ projects (service w) ∧
         projects (service w') = projects (service w)
       else
         project = mkProject (nextProject (service w)) "" ∧
         projects (service w') = projects (service w) ++ [project] ∧
         Requested (POST_projects "") ∈ log w').
Proof.
  intros Hfresh.
  unfold RepositoryServiceDispatcher.readProject, try_catch, bind.
  unfold httpGet_projects at 1.
  match goal with |- context [http ?r ?f w] =>
    destruct (http_cases3 r f w)
      as [(e & Hf & ->) | [(Hs & ->) | (l & s1 & Hs & ->)]] end.
  { eexists _, _. split; [reflexivity|]. split; [|done].
    intros _. by eapply faulty_head. }
  { discriminate. }
  injection Hs as <- <-.
  set (w1 := with_service (service w) (sent GET_projects w)).
  fold (projectIds (service w)).
  case_bool_decide as Hknown.
  - (* the id is known *)
    unfold ret at 1. unfold httpGet_project.
    match goal with |- context [http ?r ?f w1] =>
      destruct (http_cases3 r f w1)
        as [(e & Hf & ->) | [(Hs & ->) | (p & s2 & Hs & ->)]] end.
    { eexists _, _. split; [reflexivity|]. split; [|done].
      intros _. eapply faulty_sent. by eapply (faulty_head 1). }
    { destruct (list_find_project_known _ _ Hknown) as (i & p & Hfind & _).
      cbn in Hs. by rewrite Hfind in Hs. }
    destruct (list_find_project_known _ _ Hknown) as (i & q & Hfind & Hid & Hin).
    cbn in Hs. rewrite Hfind in Hs. cbn in Hs. injection Hs as <- <-.
    eexists _, _. split; [reflexivity|]. split; [done|].
    intros project [= <-]. rewrite decide_True by done. done.
  - (* the id is unknown: a project is created *)
    unfold httpPost_projects.
    match goal with |- context [http ?r ?f w1] =>
      destruct (http_cases3 r f w1)
        as [(e & Hf & ->) | [(Hs & ->) | (p & s2 & Hs & ->)]] end.
    { eexists _, _. split; [reflexivity|]. split; [|done].
      intros _. eapply faulty_sent. by eapply (faulty_head 1). }
    { discriminate. }
    cbn in Hs. injection Hs as <- <-.
    set (created := mkProject (pretty (nextProjectId (service w))) "").
    set (w2 := with_service _ (sent (POST_projects "") w1)).
    unfold ret at 1. unfold httpGet_project.
    assert (Hfind : list_find (λ q, project_id q = project_id created)
                      (projects (service w2))
                    = Some (length (projects (service w)), created)).
    { subst w2. cbn -[created]. by apply list_find_project_fresh. }
    match goal with |- context [http ?r ?f w2] =>
      destruct (http_cases3 r f w2)
        as [(e & Hf & ->) | [(Hs & ->) | (p & s3 & Hs & ->)]] end.
    { eexists _, _. split; [reflexivity|]. split; [|done].
      intros _. eapply faulty_sent. eapply (faulty_sent 1). by eapply (faulty_head 0). }
    { by rewrite Hfind in Hs. }
    rewrite Hfind in Hs. cbn in Hs. injection Hs as <- <-.
    eexists _, _. split; [reflexivity|]. split; [done|].
    intros project [= <-]. rewrite decide_False by done.
    split; [done|]. split; [done|].
    cbn. set_solver.
Qed.

Lemma readProject_creates_unknown_project_witness :
  ∃ reply w',
    RepositoryServiceDispatcher.readProject "9" (exampleWorld []) = (Returns reply, w') ∧
    (succeeded reply = false → faulty 3 (exampleWorld [])) ∧
    (∀ project, reply = ReplySuccess project →
       if decide ("9" ∈ projectIds exampleService) then
         project_id project = "9" ∧ project ∈ projects exampleService ∧
         projects (service w') = projects exampleService
       else
         project = mkProject (nextProject exampleService) "" ∧
         projects (service w') = projects exampleService ++ [project] ∧
         Requested (POST_projects "") ∈ log w').
Proof.
  apply (readProject_creates_unknown_project "9" (exampleWorld [])).
  refine (bool_decide_unpack _ _). vm_compute. exact I.
Defined.

(** ** Saving a bug onto the step it already belongs to *)

(** An edit that keeps the note on its step: [saveNotice] stops after
    [recordNotice], [saveBug] goes on to [moveBug]. *)
Lemma saveNotice_same_step_skips_move newURL info seq index w :
  oldSequence info = Some seq → oldIndex info = Some index →
  newSequence info = Some seq →
  actions.saveNotice newURL info w
  = (actions.recordNotice newURL (note info) (noteDetails info) (tags info) seq
       (Some index) (shouldTakeScreenshot info);;
     ret ()) w.
Proof.
  intros Hold Hindex Hnew. unfold actions.saveNotice.
  rewrite Hold, Hindex, Hnew. by rewrite bool_decide_eq_false_2 by (by intros ?).
Qed.

Lemma saveBug_same_step_moves newURL info seq index w :
  oldSequence info = Some seq → oldIndex info = Some index →
  newSequence info = Some seq →
  actions.saveBug newURL info w
  = (actions.recordBug newURL (note info) (noteDetails info) seq (Some index)
       (shouldTakeScreenshot info);;
     actions.moveBug newURL seq index seq) w.
Proof.
  intros Hold Hindex Hnew. unfold actions.saveBug.
  by rewrite Hold, Hindex, Hnew.
Qed.

(** C4 — the code at the failing input: editing bug 10 of step 1 without
    changing its step sends it through [moveBug], which takes it out of
    position 0 and appends it, so the step's bugs change order; the same edit
    of a notice is stopped by the guard of [saveNotice] and leaves the
    notices as they were. *)
Theorem saveBug_same_step_reorders :
  ts_bugs <$> steps exampleService !! ("r1", 1) = Some [Some 10; Some 11] ∧
  ts_bugs <$>
    steps (service (actions.saveBug exampleNewURL
                      (mkNoteEditInfo (Some 1) (Some 0) (Some 1) "s" "d" false [])
                      (exampleWorld [])).2) !! ("r1", 1)
  = Some [Some 11; Some 10] ∧
  ts_notices <$> steps exampleService !! ("r1", 1) = Some [Some 20; Some 21] ∧
  ts_notices <$>
    steps (service (actions.saveNotice exampleNewURL
                      (mkNoteEditInfo (Some 1) (Some 0) (Some 1) "s" "d" false [])
                      (exampleWorld [])).2) !! ("r1", 1)
  = Some [Some 20; Some 21].
Proof. vm_compute. done. Qed.

(** ** Resuming a test result *)

Lemma map_from_lookup {A B} (f : A → nat → Outcome B) i l res :
  map_from f i l = Returns res →
  length res = length l ∧
  ∀ k y, res !! k = Some y → ∃ x, l !! k = Some x ∧ f x (i + k) = Returns y.
Proof.
  revert i res. induction l as [|x l IH]; intros i res; cbn.
  - intros [= <-]. split; [done|]. intros k y Hk. by rewrite lookup_nil in Hk.
  - destruct (f x i) as [y0|e] eqn:Hx; [|discriminate]. cbn.
    destruct (map_from f (S i) l) as [ys|e] eqn:Hl; [|discriminate]. cbn.
    intros [= <-]. destruct (IH _ _ Hl) as [Hlen Hall].
    split; [cbn; by rewrite Hlen|].
    intros [|k] y Hk; cbn in Hk.
    + injection Hk as <-. exists x. by rewrite Nat.add_0_r.
    + destruct (Hall k y Hk) as (x' & Hx' & Hf). exists x'.
      split; [done|]. by replace (i + S k) with (S i + k) by lia.
Qed.

Lemma outcome_bind_returns {A B} (m : Outcome A) (k : A → Outcome B) b :
  m ≫= k = Returns b → ∃ a, m = Returns a ∧ k a = Returns b.
Proof. destruct m as [a|e]; [eauto | discriminate]. Qed.

Lemma outcome_fmap_returns {A B} (f : A → B) (m : Outcome A) b :
  f <$> m = Returns b → ∃ a, m = Returns a ∧ b = f a.
Proof. destruct m as [a|e]; [|discriminate]. intros [= <-]. eauto. Qed.

Lemma resumed_notes_sequence (path : option string → Outcome string) seq
  (l : list SavedNote) res n :
  js_map (λ other (_ : nat),
            path (sn_imageFileUrl other)
            ≫= λ imageFilePath,
                 Returns (createFromOtherNote other seq (Some imageFilePath))) l
  = Returns res →
  n ∈ res → note_sequence n = seq.
Proof.
  intros Hmap (k & Hk)%list_elem_of_lookup_1.
  destruct (map_from_lookup _ _ _ _ Hmap) as [_ Hall].
  destruct (Hall k n Hk) as (other & _ & Hf).
  apply outcome_bind_returns in Hf as (p & _ & Hf).
  by injection Hf as <-.
Qed.

Lemma resumed_optional_notes_sequence (path : option string → Outcome string) seq
  (raw : option (list SavedNote)) (res : option (list Note)) l n :
  match raw with
  | Some l =>
      Some <$> js_map (λ other (_ : nat),
                         path (sn_imageFileUrl other)
                         ≫= λ imageFilePath,
                              Returns (createFromOtherNote other seq
                                         (Some imageFilePath))) l
  | None => Returns None
  end = Returns res →
  res = Some l → n ∈ l → note_sequence n = seq.
Proof.
  intros H -> Hn. destruct raw as [raw|]; [|discriminate].
  apply outcome_fmap_returns in H as (l' & Hmap & [= ->]).
  by eapply (resumed_notes_sequence path).
Qed.

Lemma resumeItem_sequences newURL base step index item :
  RepositoryServiceDispatcher.resumeItem newURL base step index = Returns item →
  (∀ n, item_intention item = Some n → note_sequence n = index + 1) ∧
  (∀ l n, item_bugs item = Some l → n ∈ l → note_sequence n = index + 1) ∧
  (∀ l n, item_notices item = Some l → n ∈ l → note_sequence n = index + 1) ∧
  sequence <$> item_operation item = so_sequence <$> rs_operation step.
Proof.
  unfold RepositoryServiceDispatcher.resumeItem. intros H.
  apply outcome_bind_returns in H as (operation & Hop & H).
  apply outcome_bind_returns in H as (bugs & Hbugs & H).
  apply outcome_bind_returns in H as (notices & Hnotices & H).
  injection H as <-. cbn [item_operation item_intention item_bugs item_notices].
  split; [|split; [|split]].
  - intros n. destruct (rs_intention step); cbn; [|done]. by intros [= <-].
  - intros l n Hl Hn.
    by eapply (resumed_optional_notes_sequence
                 (λ imageFileUrl,
                    if truthy imageFileUrl then newURL (default "" imageFileUrl) base
                    else Returns "") (index + 1) (rs_bugs step) bugs l n).
  - intros l n Hl Hn.
    by eapply (resumed_optional_notes_sequence
                 (λ imageFileUrl,
                    if truthy imageFileUrl then newURL (default "" imageFileUrl) base
                    else Returns "") (index + 1) (rs_notices step) notices l n).
  - destruct (rs_operation step) as [other|]; [|by injection Hop as <-].
    apply outcome_bind_returns in Hop as (p & _ & Hop).
    by injection Hop as <-.
Qed.

(** C7 (as amended) — in a resumed test result the item made from the test
    step at position [i] carries sequence number [i + 1] in its intention,
    in each of its bugs and in each of its notices; its operation keeps the
    sequence number the service stored in it. *)
Theorem resume_numbers_notes_by_position newURL tid w r w' :
  RepositoryServiceDispatcher.resume newURL tid w = (Returns (ReplySuccess r), w') →
  ∃ testResult,
    testResults (service w) !! tid = Some testResult ∧
    length (operationHistoryItems r) = length (tr_testSteps testResult) ∧
    ∀ i item,
      operationHistoryItems r !! i = Some item →
      ∃ step,
        tr_testSteps testResult !! i = Some step ∧
        (∀ n, item_intention item = Some n → note_sequence n = i + 1) ∧
        (∀ l n, item_bugs item = Some l → n ∈ l → note_sequence n = i + 1) ∧
        (∀ l n, item_notices item = Some l → n ∈ l → note_sequence n = i + 1) ∧
        sequence <$> item_operation item = so_sequence <$> rs_operation step.
Proof.
  unfold RepositoryServiceDispatcher.resume. intros H.
  apply try_catch_success in H.
  apply bind_returns in H as (testResult & w1 & Hget & H).
  apply bind_returns in H as (base & w2 & Hbase & H).
  apply bind_returns in H as (items & w3 & Hitems & H).
  unfold ret in H. injection H as <- <-. cbn.
  unfold httpGet_testResult in Hget. answered Hget.
  destruct (testResults (service w) !! tid) as [tr|] eqn:Hlookup; simplify_eq/=.
  exists testResult. split; [done|].
  unfold lift in Hitems.
  destruct (js_map _ _) as [res|e] eqn:Hmap; simplify_eq.
  destruct (map_from_lookup _ _ _ _ Hmap) as [Hlen Hall].
  split; [done|]. intros i item Hi.
  destruct (Hall i item Hi) as (step & Hstep & Hitem).
  exists step. split; [done|]. by eapply resumeItem_sequences.
Qed.

Lemma resume_numbers_notes_by_position_witness :
  ∃ r testResult,
    (returned (RepositoryServiceDispatcher.resume exampleNewURL "r2" (exampleWorld [])).1
       ≫= data) = Some r ∧
    testResults exampleService !! "r2" = Some testResult ∧
    length (operationHistoryItems r) = length (tr_testSteps testResult) ∧
    ∀ i item,
      operationHistoryItems r !! i = Some item →
      ∃ step,
        tr_testSteps testResult !! i = Some step ∧
        (∀ n, item_intention item = Some n → note_sequence n = i + 1) ∧
        (∀ l n, item_bugs item = Some l → n ∈ l → note_sequence n = i + 1) ∧
        (∀ l n, item_notices item = Some l → n ∈ l → note_sequence n = i + 1) ∧
        sequence <$> item_operation item = so_sequence <$> rs_operation step.
Proof.
  destruct (RepositoryServiceDispatcher.resume exampleNewURL "r2" (exampleWorld []))
    as [o w'] eqn:Hrun.
  assert (Hr : ∃ r, o = Returns (ReplySuccess r)).
  { vm_compute in Hrun. injection Hrun as <- _. eauto. }
  destruct Hr as [r ->].
  destruct (resume_numbers_notes_by_position exampleNewURL "r2" (exampleWorld []) r w'
              Hrun) as (testResult & Hlookup & Hrest).
  by exists r, testResult.
Defined.

(** C7, as stated, fails for the operation: the only test step of "r2"
    holds an operation that the service stored with sequence number 5, and
    the resumed item at position 0 still carries 5, while its intention is
    numbered 1. *)
Lemma resume_keeps_operation_sequence :
  (r ← returned (RepositoryServiceDispatcher.resume exampleNewURL "r2"
                   (exampleWorld [])).1 ≫= data;
   item ← operationHistoryItems r !! 0;
   op ← item_operation item;
   n ← item_intention item;
   Some (sequence op, note_sequence n)) = Some (5, 1).
Proof. vm_compute. done. Qed.

(** ** Window handles *)

Section JsFilter.
Context {A : Type} (p : A → nat → list A → bool) (array : list A).

Lemma filter_from_lookup l i a y :
  filter_from p array i l !! a = Some y →
  ∃ k, l !! k = Some y ∧ p y (i + k) array = true.
Proof.
  revert i a. induction l as [|x l IH]; intros i a; cbn; [by rewrite lookup_nil|].
  destruct (p x i array) eqn:Hp.
  - destruct a as [|a]; cbn.
    + intros [= <-]. exists 0. by rewrite Nat.add_0_r.
    + intros (k & Hk & Hpk)%IH. exists (S k).
      split; [done|]. by replace (i + S k) with (S i + k) by lia.
  - intros (k & Hk & Hpk)%IH. exists (S k).
    split; [done|]. by replace (i + S k) with (S i + k) by lia.
Qed.

Lemma filter_from_lookup_lt l i a b x y :
  a < b →
  filter_from p array i l !! a = Some x →
  filter_from p array i l !! b = Some y →
  ∃ ka kb, ka < kb ∧ l !! ka = Some x ∧ l !! kb = Some y ∧
           p x (i + ka) array = true ∧ p y (i + kb) array = true.
Proof.
  revert i a b. induction l as [|x0 l IH]; intros i a b Hab; cbn;
    [by rewrite lookup_nil|].
  assert (Hshift : ∀ a b,
    a < b →
    filter_from p array (S i) l !! a = Some x →
    filter_from p array (S i) l !! b = Some y →
    ∃ ka kb, ka < kb ∧ (x0 :: l) !! ka = Some x ∧ (x0 :: l) !! kb = Some y ∧
             p x (i + ka) array = true ∧ p y (i + kb) array = true).
  { intros a' b' Hab' Ha Hb.
    destruct (IH (S i) a' b' Hab' Ha Hb) as (ka & kb & Hlt & Hka & Hkb & Hpa & Hpb).
    exists (S ka), (S kb). rewrite <- !Nat.add_succ_comm.
    repeat split; [lia|done..]. }
  destruct (p x0 i array) eqn:Hp; [|by apply Hshift].
  destruct a as [|a], b as [|b]; try lia; cbn.
  - intros [= <-] (k & Hk & Hpk)%filter_from_lookup.
    exists 0, (S k). rewrite Nat.add_0_r, <- Nat.add_succ_comm.
    repeat split; [lia|done..].
  - apply Hshift. lia.
Qed.

Lemma filter_from_elem l i k y :
  l !! k = Some y → p y (i + k) array = true → y ∈ filter_from p array i l.
Proof.
  revert i k. induction l as [|x l IH]; intros i k; cbn; [by rewrite lookup_nil|].
  destruct k as [|k]; cbn.
  - intros [= <-]. rewrite Nat.add_0_r. intros ->. apply list_elem_of_here.
  - intros Hk Hp. rewrite <- Nat.add_succ_comm in Hp.
    pose proof (IH (S i) k Hk Hp) as Hin.
    destruct (p x i array); [by apply list_elem_of_further | done].
Qed.

End JsFilter.

Lemma indexOf_Some array x k : indexOf array x = Some k → array !! k = Some x.
Proof.
  unfold indexOf. destruct (list_find _ array) as [[i y]|] eqn:Hfind; [|done].
  cbn. intros [= <-]. by apply list_find_Some in Hfind as (Hy & -> & _).
Qed.

Lemma indexOf_elem array x : x ∈ array → ∃ k, indexOf array x = Some k.
Proof.
  intros Hx. unfold indexOf.
  destruct (list_find_elem_of (λ y, y = x) array x Hx eq_refl) as [[i y] ->].
  by exists i.
Qed.

Lemma value_windowHandles (l : list string) :
  map value (imap (λ index windowHandle,
                     mkWindowHandle ("window" +:+ pretty (index + 1)) windowHandle false)
               l) = l.
Proof.
  apply list_eq. intros i.
  change (map value) with (fmap (M := list) value).
  rewrite list_lookup_fmap, list_lookup_imap.
  by destruct (l !! i).
Qed.

(** C3 — the window handles of [updateScreenHistory] are the distinct raw
    handles of the history, each kept as [value]; the one at position [i]
    is labelled [window(i+1)], and positions follow the first appearances in
    the history, however the operations of the windows are interleaved. *)
Theorem windowHandles_first_seen_order (history : list OperationWithNotes) :
  let handles := map (λ o, windowHandle (operation o)) history in
  let ws := actions.windowHandles history in
  (∀ h, h ∈ handles ↔ h ∈ map value ws) ∧
  NoDup (map value ws) ∧
  (∀ i w, ws !! i = Some w →
          text w = "window" +:+ pretty (i + 1) ∧ available w = false) ∧
  (∀ i j wi wj,
     i < j → ws !! i = Some wi → ws !! j = Some wj →
     ∃ pi pj, indexOf handles (value wi) = Some pi ∧
              indexOf handles (value wj) = Some pj ∧ pi < pj).
Proof.
  intros handles ws.
  set (p := λ (windowHandle : string) (index : nat) (array : list string),
              bool_decide (indexOf array windowHandle = Some index)).
  assert (Hws : ws = imap (λ index windowHandle,
                             mkWindowHandle ("window" +:+ pretty (index + 1))
                               windowHandle false)
                       (filter_from p handles 0 handles)) by done.
  assert (Hvalues : map value ws = filter_from p handles 0 handles)
    by (rewrite Hws; apply value_windowHandles).
  assert (Horder : ∀ a b x y,
    a < b →
    filter_from p handles 0 handles !! a = Some x →
    filter_from p handles 0 handles !! b = Some y →
    ∃ pa pb, indexOf handles x = Some pa ∧ indexOf handles y = Some pb ∧ pa < pb).
  { intros a b x y Hab Ha Hb.
    destruct (filter_from_lookup_lt p handles handles 0 a b x y Hab Ha Hb)
      as (ka & kb & Hlt & _ & _ & Hpa & Hpb).
    exists ka, kb. unfold p in Hpa, Hpb.
    apply bool_decide_eq_true_1 in Hpa, Hpb. done. }
  split; [|split; [|split]].
  - intros h. rewrite Hvalues. split.
    + intros Hh. destruct (indexOf_elem handles h Hh) as [k Hk].
      apply (filter_from_elem p handles handles 0 k h).
      * by apply indexOf_Some.
      * unfold p. by apply bool_decide_eq_true_2.
    + intros (a & Ha)%list_elem_of_lookup_1.
      apply filter_from_lookup in Ha as (k & Hk & _).
      by eapply list_elem_of_lookup_2.
  - rewrite Hvalues. apply NoDup_alt. intros a b x Ha Hb.
    destruct (Nat.lt_trichotomy a b) as [Hab | [-> | Hab]]; [|done|].
    + destruct (Horder a b x x Hab Ha Hb) as (pa & pb & Hpa & Hpb & Hlt).
      rewrite Hpa in Hpb. injection Hpb as ->. lia.
    + destruct (Horder b a x x Hab Hb Ha) as (pa & pb & Hpa & Hpb & Hlt).
      rewrite Hpa in Hpb. injection Hpb as ->. lia.
  - intros i w. rewrite Hws, list_lookup_imap.
    destruct (filter_from p handles 0 handles !! i); cbn; [|done].
    by intros [= <-].
  - intros i j wi wj Hij Hi Hj.
    apply (Horder i j); [done| |].
    + rewrite <- Hvalues. change (map value) with (fmap (M := list) value).
      by rewrite list_lookup_fmap, Hi.
    + rewrite <- Hvalues. change (map value) with (fmap (M := list) value).
      by rewrite list_lookup_fmap, Hj.
Qed.

Example windowHandles_interleaved :
  actions.windowHandles
    ((λ h, mkItem (mkOperation 0 h "" "" "" None ∅ []) None None None)
       <$> ["b"; "a"; "b"; "c"; "a"])
  = [mkWindowHandle "window1" "b" false; mkWindowHandle "window2" "a" false;
     mkWindowHandle "window3" "c" false].
Proof. vm_compute. reflexivity. Qed.

(** ** Generating test scripts from nothing *)

(** C2 — with no operation in any source, the body of [generateTestScripts]
    throws the message of [save_test_scripts_no_section_error] when
    [optimize] is true and that of [save_test_scripts_no_operation_error]
    when it is false; the two codes differ, nothing is requested or changed,
    and [generateTestScripts] itself, whose [optimize] is the constant
    [true], throws the former. *)
Theorem generateTestScripts_empty_sources_by_mode
  (message : string → string)
  (scriptsFor : (string → string) → GeneratorOption → list Source → TestScript)
  (optimize : bool) (testResultId projectId : option string) (sources : list Source)
  (useDataDriven : bool) (maxGeneration : Z) (w : World) :
  Forall (λ source, source_history source = []) sources →
  actions.generateTestScripts_in_mode message scriptsFor optimize testResultId
    projectId sources useDataDriven maxGeneration w
  = (Throws (ErrorMessage
               (message ("error.operation_history." +:+
                         (if optimize then "save_test_scripts_no_section_error"
                          else "save_test_scripts_no_operation_error")))), w)
  ∧ "save_test_scripts_no_section_error" ≠ "save_test_scripts_no_operation_error"
  ∧ actions.generateTestScripts message scriptsFor testResultId projectId sources
      useDataDriven maxGeneration w
    = (Throws (ErrorMessage
                 (message "error.operation_history.save_test_scripts_no_section_error")),
       w).
Proof.
  intros Hempty.
  assert (Hmode : ∀ mode,
    actions.generateTestScripts_in_mode message scriptsFor mode testResultId
      projectId sources useDataDriven maxGeneration w
    = (Throws (ErrorMessage
                 (message ("error.operation_history." +:+
                           (if mode then "save_test_scripts_no_section_error"
                            else "save_test_scripts_no_operation_error")))), w)).
  { intros mode.
    unfold actions.generateTestScripts_in_mode, try_catch, bind, read.
    unfold actions.TestScriptGeneratorImpl_generate.
    rewrite bool_decide_eq_true_2 by done.
    unfold actions.GenerateTestScriptsAction_generate. cbn [testSuite].
    unfold throw. cbn [message_of].
    rewrite bool_decide_eq_true_2 by done. by destruct mode. }
  split; [apply Hmode|]. split; [done|].
  apply (Hmode true).
Qed.

Lemma generateTestScripts_empty_sources_by_mode_witness :
  actions.generateTestScripts_in_mode id
    (λ _ _ _, mkTestScript [] (Some "suite")) false (Some "r1") None
    [mkSource "http://localhost" []] false 5 (exampleWorld [])
  = (Throws (ErrorMessage
               "error.operation_history.save_test_scripts_no_operation_error"),
     exampleWorld [])
  ∧ "save_test_scripts_no_section_error" ≠ "save_test_scripts_no_operation_error"
  ∧ actions.generateTestScripts id
      (λ _ _ _, mkTestScript [] (Some "suite")) (Some "r1") None
      [mkSource "http://localhost" []] false 5 (exampleWorld [])
    = (Throws (ErrorMessage
                 "error.operation_history.save_test_scripts_no_section_error"),
       exampleWorld []).
Proof.
  apply (generateTestScripts_empty_sources_by_mode id
           (λ _ _ _, mkTestScript [] (Some "suite")) false (Some "r1") None
           [mkSource "http://localhost" []] false 5 (exampleWorld [])).
  repeat constructor.
Defined.

(** ** Failures of repository access *)

Lemma classifies_status {Json A : Type} (expected : nat)
  (call : Outcome (RESTResponse Json)) (payload : Json → A) :
  classifies expected call payload
    match call with
    | Returns response =>
        if bool_decide (status response ≠ expected)
        then createRepositoryAccessFailure response
        else RepositoryAccessSuccess (payload (response_data response))
    | Throws error => createConnectionRefusedFailure
    end.
Proof.
  unfold classifies, createRepositoryAccessFailure, createConnectionRefusedFailure.
  destruct call as [response|e].
  - case_bool_decide as Hstatus.
    + split; [split; [done|by intros [? ?]]|]. split.
      * intros r. split; [by intros [= <-]|]. by intros [[= <-] _].
      * intros d. split; [done|]. intros (r & [= <-] & Hr & _). done.
    + split; [split; [done|by intros [? ?]]|]. split.
      * intros r. split; [done|]. by intros [[= <-] Hr].
      * intros d. split; [intros [= <-]; eauto|].
        by intros (r & [= <-] & _ & ->).
  - split; [split; eauto|]. split.
    + intros r. split; [done|]. by intros [? _].
    + intros d. split; [done|]. by intros (r & ? & _).
Qed.

Lemma getSettings_replies w :
  ∃ reply w',
    RepositoryServiceDispatcher.getSettings w = (Returns reply, w') ∧
    (succeeded reply = false → reply = repository_service_not_found) ∧
    (∀ e, head (faults w) = Some (Some e) → reply = repository_service_not_found).
Proof.
  unfold RepositoryServiceDispatcher.getSettings, try_catch, bind, httpGet_configs.
  match goal with |- context [http ?r ?f w] =>
    destruct (http_cases3 r f w)
      as [(e & Hf & ->) | [(Hs & ->) | (a & s' & Hs & Hrun)]] end.
  - eexists _, _. split; [reflexivity|]. done.
  - discriminate.
  - rewrite Hrun. eexists _, _. split; [reflexivity|]. split; [done|].
    intros e He. unfold http in Hrun. rewrite He in Hrun. discriminate.
Qed.

(** C5 (as amended) — every method of [TestTargetRepository] and
    [ProjectRepository] returns a result for whatever its request does, and
    sorts failures in two kinds that never meet: the connection-refused
    failure exactly when the client threw, the access failure carrying the
    response exactly when the client answered with another status than the
    expected one.  [getSettings] of [RepositoryServiceDispatcher] always
    replies too, but knows one failure only: whatever the client throws, the
    reply is [repository_service_not_found], without any response in it. *)
Theorem repositories_classify_failures {Json : Type} (restClient : RESTClient Json) :
  (∀ target,
     classifies 200 (httpGet ("/test-targets/" +:+ target)) (λ d, d)
       (TestTargetRepository.getTestTarget restClient target)) ∧
  (∀ body,
     classifies 200 (httpPost "/test-targets" body) (λ d, d)
       (TestTargetRepository.postTestTarget restClient body)) ∧
  (∀ target body,
     classifies 200 (httpPatch ("/test-targets/" +:+ target) body) (λ d, d)
       (TestTargetRepository.patchTestTarget restClient target body)) ∧
  (∀ target,
     classifies 204 (httpDelete ("/test-targets/" +:+ target)) (λ _, ())
       (TestTargetRepository.deleteTestTarget restClient target)) ∧
  (∀ projectId selectOption,
     classifies 200 (httpPost ("/projects/" +:+ projectId +:+ "/export") selectOption)
       (λ d, d) (ProjectRepository.postProjectForExport restClient projectId
                   selectOption)) ∧
  classifies 200 (httpGet "/projects") (λ d, d)
    (ProjectRepository.getProjects restClient) ∧
  (∀ projectId,
     classifies 200 (httpGet ("/projects/" +:+ projectId)) (λ d, d)
       (ProjectRepository.getProject restClient projectId)) ∧
  (∀ emptyName,
     classifies 200 (httpPost "/projects" emptyName) (λ d, d)
       (ProjectRepository.postProject restClient emptyName)) ∧
  (∀ projectId body,
     classifies 200 (httpPut ("/projects/" +:+ projectId) body) (λ d, d)
       (ProjectRepository.putProject restClient projectId body)) ∧
  (∀ w, ∃ reply w',
     RepositoryServiceDispatcher.getSettings w = (Returns reply, w') ∧
     (succeeded reply = false → reply = repository_service_not_found) ∧
     (∀ e, head (faults w) = Some (Some e) → reply = repository_service_not_found)).
Proof.
  apply conj; [intros target;
    exact (classifies_status 200 (httpGet ("/test-targets/" +:+ target)) (λ d, d))|].
  apply conj; [intros body;
    exact (classifies_status 200 (httpPost "/test-targets" body) (λ d, d))|].
  apply conj; [intros target body;
    exact (classifies_status 200 (httpPatch ("/test-targets/" +:+ target) body)
             (λ d, d))|].
  apply conj; [intros target;
    exact (classifies_status 204 (httpDelete ("/test-targets/" +:+ target))
             (λ _, ()))|].
  apply conj; [intros projectId selectOption;
    exact (classifies_status 200
             (httpPost ("/projects/" +:+ projectId +:+ "/export") selectOption)
             (λ d, d))|].
  apply conj; [exact (classifies_status 200 (httpGet "/projects") (λ d, d))|].
  apply conj; [intros projectId;
    exact (classifies_status 200 (httpGet ("/projects/" +:+ projectId)) (λ d, d))|].
  apply conj; [intros emptyName;
    exact (classifies_status 200 (httpPost "/projects" emptyName) (λ d, d))|].
  apply conj; [intros projectId body;
    exact (classifies_status 200 (httpPut ("/projects/" +:+ projectId) body)
             (λ d, d))|].
  apply getSettings_replies.
Qed.

Lemma repositories_classify_failures_witness :
  classifies 200 (Throws ConnectionRefused) (λ d : string, d)
    (ProjectRepository.getProjects exampleClient) ∧
  classifies 200 (Returns (mkResponse 500 "internal error")) (λ d : string, d)
    (ProjectRepository.getProject exampleClient "7") ∧
  ProjectRepository.getProjects exampleClient = ConnectionRefusedFailure ∧
  ProjectRepository.getProject exampleClient "7"
  = RepositoryAccessFailure (mkResponse 500 "internal error").
Proof.
  pose proof (repositories_classify_failures exampleClient)
    as (_ & _ & _ & _ & _ & Hlist & Hone & _).
  split; [exact Hlist|]. split; [exact (Hone "7")|]. done.
Defined.

(** C5, as stated, fails for the dispatcher: a refused connection and a
    request that the service answered with status 500 give the very same
    reply. *)
Lemma getSettings_conflates_failures :
  (RepositoryServiceDispatcher.getSettings (exampleWorld [Some ConnectionRefused])).1
  = Returns repository_service_not_found ∧
  (RepositoryServiceDispatcher.getSettings (exampleWorld [Some (StatusError 500)])).1
  = Returns repository_service_not_found.
Proof. vm_compute. done. Qed.

(** ** The generated README *)

Module ReadmeFacts.
Import JSDocReadmeGenerator ReadmeLayout.

Lemma list_pair_ind {A} (P : list A → Prop) :
  P [] → (∀ x, P [x]) → (∀ x y l, P l → P (y :: l) → P (x :: y :: l)) →
  ∀ l, P l.
Proof.
  intros Hnil Hone Hstep l.
  assert (H : P l ∧ ∀ x, P (x :: l)); [|by destruct H].
  induction l as [|y l [IH1 IH2]]; [by split|].
  split; [apply IH2|]. intros x. apply Hstep; [done|apply IH2].
Qed.

Lemma ascii7_app s t : ascii7 s → ascii7 t → ascii7 (s ++ t).
Proof. apply Forall_app_2. Qed.

Lemma unescaped_ascii7 C : uriUnescapedOrReserved C = true → (C < 128)%N.
Proof.
  unfold uriUnescapedOrReserved. rewrite !orb_true_iff, !bool_decide_eq_true.
  intros [[[H|H]|H]|H]; [lia..|].
  vm_compute js in H.
  repeat (apply elem_of_cons in H as [->|H]; [done|]).
  by apply elem_of_nil in H.
Qed.

Lemma hexDigit_ascii7 d : (hexDigit d < 128)%N.
Proof.
  unfold hexDigit. generalize (N.to_nat d). intros n.
  do 16 (destruct n as [|n]; [by vm_compute|]). by destruct n.
Qed.

Lemma percent_ascii7 octets : ascii7 (percent octets).
Proof.
  unfold percent. induction octets as [|o l IH]; [constructor|].
  rewrite bind_cons. apply ascii7_app; [|exact IH].
  apply Forall_cons_2; [done|].
  apply Forall_cons_2; [apply hexDigit_ascii7|].
  apply Forall_cons_2; [apply hexDigit_ascii7|]. apply Forall_nil_2.
Qed.

(** On a well-formed string [encodeURI] returns, and what it returns is
    ASCII. *)
Lemma encodeURI_wellFormed s :
  isWellFormed s = true → ∃ r, encodeURI s = Returns r ∧ ascii7 r.
Proof.
  induction s as [| C | C D rest IH0 IH1] using list_pair_ind.
  - eexists. split; [done|constructor].
  - cbn. destruct (uriUnescapedOrReserved C) eqn:Hu.
    { intros _. eexists. split; [done|].
      apply Forall_cons_2; [by apply unescaped_ascii7|apply Forall_nil_2]. }
    destruct (isLeadSurrogate C); [done|].
    destruct (isTrailSurrogate C); [done|]. intros _.
    eexists. split; [done|]. rewrite app_nil_r. apply percent_ascii7.
  - intros Hwf.
    change (isWellFormed (C :: D :: rest))
      with (if isLeadSurrogate C then isTrailSurrogate D && isWellFormed rest
            else negb (isTrailSurrogate C) && isWellFormed (D :: rest)) in Hwf.
    change (encodeURI (C :: D :: rest)) with
      (if uriUnescapedOrReserved C then
         R ← encodeURI (D :: rest); Returns (C :: R)
       else if isLeadSurrogate C then
         if isTrailSurrogate D then
           R ← encodeURI rest;
           Returns (percent (utf8 ((C - 55296) * 1024 + (D - 56320) + 65536)%N) ++ R)
         else Throws URIError
       else if isTrailSurrogate C then Throws URIError
       else R ← encodeURI (D :: rest); Returns (percent (utf8 C) ++ R)).
    destruct (uriUnescapedOrReserved C) eqn:Hu.
    { assert (Hlead : isLeadSurrogate C = false).
      { apply unescaped_ascii7 in Hu. unfold isLeadSurrogate.
        apply bool_decide_eq_false_2. lia. }
      rewrite Hlead in Hwf. apply andb_true_iff in Hwf as [_ Hwf].
      destruct (IH1 Hwf) as (r & -> & Hr). eexists. split; [done|].
      constructor; [by apply unescaped_ascii7|done]. }
    destruct (isLeadSurrogate C).
    + apply andb_true_iff in Hwf as [-> Hwf].
      destruct (IH0 Hwf) as (r & -> & Hr). eexists. split; [done|].
      apply ascii7_app; [apply percent_ascii7|done].
    + apply andb_true_iff in Hwf as [Htrail Hwf].
      apply negb_true_iff in Htrail. rewrite Htrail.
      destruct (IH1 Hwf) as (r & -> & Hr). eexists. split; [done|].
      apply ascii7_app; [apply percent_ascii7|done].
Qed.

Lemma ascii7_wellFormed s : ascii7 s → isWellFormed s = true.
Proof.
  induction 1 as [|C rest HC _ IH]; [done|].
  cbn. unfold isLeadSurrogate, isTrailSurrogate.
  rewrite !bool_decide_eq_false_2 by lia. done.
Qed.

Lemma wellFormed_ascii7_app s t :
  ascii7 s → isWellFormed t = true → isWellFormed (s ++ t) = true.
Proof.
  induction 1 as [|C rest HC _ IH]; [done|]. intros Ht.
  cbn. unfold isLeadSurrogate, isTrailSurrogate.
  rewrite !bool_decide_eq_false_2 by lia. by apply IH.
Qed.

Lemma wellFormed_app_ascii7 s t :
  isWellFormed s = true → ascii7 t → isWellFormed (s ++ t) = true.
Proof.
  intros Hs Ht. induction s as [| C | C D rest IH0 IH1] using list_pair_ind.
  - by apply ascii7_wellFormed.
  - cbn in *. destruct (isLeadSurrogate C); [done|].
    apply andb_true_iff in Hs as [-> _]. cbn.
    destruct t as [|D t]; [done|]. by apply ascii7_wellFormed.
  - change (isWellFormed (C :: D :: rest))
      with (if isLeadSurrogate C then isTrailSurrogate D && isWellFormed rest
            else negb (isTrailSurrogate C) && isWellFormed (D :: rest)) in Hs.
    change (isWellFormed ((C :: D :: rest) ++ t))
      with (if isLeadSurrogate C then isTrailSurrogate D && isWellFormed (rest ++ t)
            else negb (isTrailSurrogate C) && isWellFormed ((D :: rest) ++ t)).
    destruct (isLeadSurrogate C); apply andb_true_iff in Hs as [-> Hs]; cbn [andb negb];
      [by apply IH0 | by apply IH1].
Qed.

Lemma js_ascii7_dot_slash : ascii7 (js "./").
Proof. repeat (apply Forall_cons_2; [done|]). apply Forall_nil_2. Qed.

Lemma js_ascii7_html : ascii7 (js ".html").
Proof. repeat (apply Forall_cons_2; [done|]). apply Forall_nil_2. Qed.

Lemma href_wellFormed label :
  isWellFormed label = true → ∃ target, href label = Returns target.
Proof.
  intros Hwf. unfold href.
  destruct (encodeURI_wellFormed (js "./" ++ label ++ js ".html")) as (inner & -> & Hin).
  { apply wellFormed_ascii7_app; [apply js_ascii7_dot_slash|].
    apply wellFormed_app_ascii7; [done|apply js_ascii7_html]. }
  cbn [mbind outcome_bind].
  destruct (encodeURI_wellFormed inner (ascii7_wellFormed _ Hin)) as (target & -> & _).
  by exists target.
Qed.

Lemma map_from_ext {A B} (f g : A → nat → Outcome B) i l :
  (∀ x k, f x k = g x k) → map_from f i l = map_from g i l.
Proof.
  intros Hfg. revert i. induction l as [|x l IH]; intros i; [done|].
  cbn. by rewrite Hfg, IH.
Qed.

Lemma map_from_total {A B} (f : A → nat → Outcome B) i l :
  (∀ x k, x ∈ l → ∃ y, f x k = Returns y) → ∃ res, map_from f i l = Returns res.
Proof.
  revert i. induction l as [|x l IH]; intros i Hall; [by eexists|].
  cbn. destruct (Hall x i) as [y ->]; [apply list_elem_of_here|].
  destruct (IH (S i)) as [res ->]; [|by eexists].
  intros x' k Hx'. apply Hall. by apply list_elem_of_further.
Qed.

(** The rows that the two table builders make. *)
Lemma rows_built (label last : JSString * JSString → JSString) entries :
  Forall (λ entry, isWellFormed (label entry) = true) entries →
  ∃ rows,
    js_map (λ entry index,
              inner ← encodeURI (js "./" ++ label entry ++ js ".html");
              target ← encodeURI inner;
              Returns (row (index + 1) target (label entry) (last entry))) entries
    = Returns rows ∧
    rowsOf label last entries rows.
Proof.
  intros Hwf. unfold js_map.
  match goal with |- ∃ rows, map_from ?f 0 entries = _ ∧ _ =>
    destruct (map_from_total f 0 entries) as [rows Hrows] end.
  { intros entry k Hentry.
    rewrite Forall_forall in Hwf.
    destruct (href_wellFormed _ (Hwf entry Hentry)) as [target Htarget].
    unfold href in Htarget.
    destruct (encodeURI (js "./" ++ label entry ++ js ".html")) as [inner|];
      [|discriminate].
    cbn in Htarget |- *. rewrite Htarget. by eexists. }
  exists rows. split; [done|].
  destruct (map_from_lookup _ _ _ _ Hrows) as [Hlen Hall].
  split; [done|]. intros i entry Hi.
  destruct (lookup_lt_is_Some_2 rows i) as [r Hr];
    [rewrite Hlen; by eapply lookup_lt_Some|].
  destruct (Hall i r Hr) as (entry' & Hentry' & Hf).
  rewrite Hi in Hentry'. injection Hentry' as <-.
  apply outcome_bind_returns in Hf as (inner & Hinner & Hf).
  apply outcome_bind_returns in Hf as (target & Htarget & Hf).
  injection Hf as <-. exists target. split; [|done].
  unfold href. by rewrite Hinner.
Qed.

Lemma join_nonempty (r : JSString) rs : 0 < length r → 0 < length (join newline (r :: rs)).
Proof.
  intros Hr. cbn [join]. destruct rs; [done|]. rewrite length_app. lia.
Qed.

Lemma row_nonempty number target label last : 0 < length (row number target label last).
Proof. unfold row. cbn. lia. Qed.

(** The test [rows.length > 0] of the builders is a test on the entries. *)
Lemma table_built label last entries rows (header : JSString) :
  rowsOf label last entries rows →
  (if bool_decide (0 < length (join newline rows)) then header else [])
  ++ join newline rows
  = table header rows.
Proof.
  intros [Hlen Hrows]. destruct rows as [|r rs]; [done|].
  destruct entries as [|entry entries]; [done|].
  destruct (Hrows 0 entry eq_refl) as (target & _ & [= ->]).
  rewrite bool_decide_eq_true_2; [done|].
  apply join_nonempty, row_nonempty.
Qed.

Lemma buildTestSuiteTable_layout entries :
  Forall (λ entry, isWellFormed entry.1 = true) entries →
  ∃ rows,
    rowsOf fst snd entries rows ∧
    buildTestSuiteTable entries
    = Returns (js "## Test suites" ++ table suiteHeader rows).
Proof.
  intros Hwf. destruct (rows_built fst snd entries Hwf) as (rows & Hmap & Hrows).
  exists rows. split; [done|]. unfold buildTestSuiteTable, js_map.
  rewrite (map_from_ext _
             (λ entry index,
                inner ← encodeURI (js "./" ++ entry.1 ++ js ".html");
                target ← encodeURI inner;
                Returns (row (index + 1) target entry.1 entry.2)))
    by (by intros [name topPageUrl] k).
  unfold js_map in Hmap. rewrite Hmap. cbn [mbind outcome_bind].
  do 2 f_equal. by apply (table_built fst snd entries).
Qed.

Lemma buildPageObjectTable_layout entries :
  Forall (λ entry, isWellFormed entry.2 = true) entries →
  ∃ rows,
    rowsOf snd fst entries rows ∧
    buildPageObjectTable entries
    = Returns (js "## Page objects" ++ table objectHeader rows).
Proof.
  intros Hwf. destruct (rows_built snd fst entries Hwf) as (rows & Hmap & Hrows).
  exists rows. split; [done|]. unfold buildPageObjectTable, js_map.
  rewrite (map_from_ext _
             (λ entry index,
                inner ← encodeURI (js "./" ++ entry.2 ++ js ".html");
                target ← encodeURI inner;
                Returns (row (index + 1) target entry.2 entry.1)))
    by (by intros [name alias] k).
  unfold js_map in Hmap. rewrite Hmap. cbn [mbind outcome_bind].
  do 2 f_equal. by apply (table_built snd fst entries).
Qed.

(** C10 (as amended) — for maps whose linked names (the test suite names,
    the page object aliases) have no lone surrogate, [generate] returns the
    heading of the test suites, then the heading of the page objects, each
    followed by nothing when its map is empty and otherwise by the table
    header and one row per entry, numbered from 1 in insertion order. *)
Theorem generate_layout (testSuiteNameToTopPageUrl pageObjectNameToAlias
                           : list (JSString * JSString)) :
  Forall (λ entry, isWellFormed entry.1 = true) testSuiteNameToTopPageUrl →
  Forall (λ entry, isWellFormed entry.2 = true) pageObjectNameToAlias →
  ∃ suiteRows objectRows,
    rowsOf fst snd testSuiteNameToTopPageUrl suiteRows ∧
    rowsOf snd fst pageObjectNameToAlias objectRows ∧
    generate testSuiteNameToTopPageUrl pageObjectNameToAlias
    = Returns (js "## Test suites" ++ table suiteHeader suiteRows
               ++ newline ++ newline
               ++ js "## Page objects" ++ table objectHeader objectRows
               ++ newline).
Proof.
  intros Hsuites Hobjects.
  destruct (buildTestSuiteTable_layout _ Hsuites) as (suiteRows & Hs & Hsuite).
  destruct (buildPageObjectTable_layout _ Hobjects) as (objectRows & Ho & Hobject).
  exists suiteRows, objectRows. split; [done|]. split; [done|].
  unfold generate. rewrite Hsuite, Hobject. cbn [mbind outcome_bind].
  f_equal; by rewrite <- !app_assoc.
Qed.

Lemma generate_layout_witness :
  ∃ suiteRows objectRows,
    rowsOf fst snd [(js "login", js "http://localhost/")] suiteRows ∧
    rowsOf snd fst [] objectRows ∧
    generate [(js "login", js "http://localhost/")] []
    = Returns (js "## Test suites" ++ table suiteHeader suiteRows
               ++ newline ++ newline
               ++ js "## Page objects" ++ table objectHeader objectRows
               ++ newline).
Proof.
  apply (generate_layout [(js "login", js "http://localhost/")] []).
  - apply Forall_cons_2; [by vm_compute|apply Forall_nil_2].
  - apply Forall_nil_2.
Defined.

(** C10, as stated, fails on a name that is a lone surrogate: [encodeURI]
    throws a [URIError] and no README comes out. *)
Lemma generate_throws_on_lone_surrogate :
  generate [([55296%N], js "http://localhost/")] [] = Throws URIError.
Proof. vm_compute. reflexivity. Qed.

End ReadmeFacts.

(** ** Recording, then compressing *)

Lemma requests_only_refl w : requests_only w w.
Proof.
  repeat split. exists []. split; [by rewrite app_nil_r|constructor].
Qed.

Lemma requests_only_trans w1 w2 w3 :
  requests_only w1 w2 → requests_only w2 w3 → requests_only w1 w3.
Proof.
  intros (Hs & Ht & Hu & Hc & l1 & Hl1 & Hf1) (Hs' & Ht' & Hu' & Hc' & l2 & Hl2 & Hf2).
  repeat split; [congruence..|].
  exists (l1 ++ l2). split; [by rewrite Hl2, Hl1, app_assoc|by apply Forall_app_2].
Qed.

Lemma quiet_ret {A} (a : A) : quiet (ret a).
Proof. intros w o w' [= _ <-]. apply requests_only_refl. Qed.

Lemma quiet_throw {A} e : quiet (@throw A e).
Proof. intros w o w' [= _ <-]. apply requests_only_refl. Qed.

Lemma quiet_read {A} (f : World → A) : quiet (read f).
Proof. intros w o w' [= _ <-]. apply requests_only_refl. Qed.

Lemma quiet_lift {A} (o : Outcome A) : quiet (lift o).
Proof. intros w o' w' [= _ <-]. apply requests_only_refl. Qed.

Lemma quiet_bind {A B} (m : Async A) (k : A → Async B) :
  quiet m → (∀ a, quiet (k a)) → quiet (bind m k).
Proof.
  intros Hm Hk w o w'. unfold bind.
  destruct (m w) as [[a|e] w1] eqn:Hrun.
  - intros Hrun'. eapply requests_only_trans; [by eapply Hm|by eapply Hk].
  - intros [= _ <-]. by eapply Hm.
Qed.

Lemma quiet_try_catch {A} (body : Async A) (handler : Thrown → Async A) :
  quiet body → (∀ e, quiet (handler e)) → quiet (try_catch body handler).
Proof.
  intros Hm Hk w o w'. unfold try_catch.
  destruct (body w) as [[a|e] w1] eqn:Hrun.
  - intros [= _ <-]. by eapply Hm.
  - intros Hrun'. eapply requests_only_trans; [by eapply Hm|by eapply Hk].
Qed.

Lemma quiet_http {A} r (serve : Service → option (A * Service)) :
  isCompression (Requested r) = false → quiet (http r serve).
Proof.
  intros Hr w o w' Hrun.
  assert (Hw' : ∃ s, w' = with_service s (sent r w)).
  { destruct (http_cases r serve w) as [[e He] | (a & s' & _ & He)];
      rewrite He in Hrun; injection Hrun as _ <-; [by exists (service w)|by exists s']. }
  destruct Hw' as [s ->]. repeat split.
  exists [Requested r]. split; [done|]. by constructor.
Qed.

Ltac quietly :=
  repeat first
    [ apply quiet_ret | apply quiet_throw | apply quiet_read | apply quiet_lift
    | apply quiet_http; reflexivity
    | apply quiet_try_catch; [|intros ?]
    | apply quiet_bind; [|intros ?]
    | match goal with |- quiet (if ?b then _ else _) => destruct b end
    | match goal with |- quiet (match ?x with _ => _ end) => destruct x end ].

Lemma quiet_imagePath newURL url : quiet (RepositoryServiceDispatcher.imagePath newURL url).
Proof. unfold RepositoryServiceDispatcher.imagePath. quietly. Qed.


Lemma quiet_editBug newURL tid seq index summary details :
  quiet (RepositoryServiceDispatcher.editBug newURL tid seq index summary details).
Proof.
  unfold RepositoryServiceDispatcher.editBug, httpGet_testStep, httpPut_note.
  quietly. apply quiet_imagePath.
Qed.


Lemma quiet_editNotice newURL tid seq index summary details tags :
  quiet (RepositoryServiceDispatcher.editNotice newURL tid seq index summary details
           tags).
Proof.
  unfold RepositoryServiceDispatcher.editNotice, httpGet_testStep, httpPut_note.
  quietly. apply quiet_imagePath.
Qed.







Lemma commit_returns c w w' :
  commit c w = (Returns (), w') →
  ∃ st, mutate c (state w) = Returns st ∧ state w' = st ∧
        log w' = log w ++ [Committed c] ∧ timers w' = timers w.
Proof.
  unfold commit. destruct (mutate c (state w)) as [st|e]; [|discriminate].
  intros [= <-]. by exists st.
Qed.








(** The two ways a compression can end, run on the example: registering an
    operation and letting the timer fire replaces the image reference of
    operation 3; when the transport fails the compression request, the
    history stays as committed. *)
Example compression_outcomes :
  let captured := mkCapturedOperation "w1" "Login" "click" "" "png" "<html/>" None in
  let after faults :=
    actions.fireTimer
      (record exampleNewURL (λ _, []) (registering captured) (exampleWorld faults)).2 in
  ((λ entry, (sequence (operation entry), imageFilePath (operation entry)))
     <$> history (state (after []))
   = [(3, Some "http://127.0.0.1:3002/s3.png.webp")]) ∧
  ((λ entry, (sequence (operation entry), imageFilePath (operation entry)))
     <$> history (state (after [None; Some ConnectionRefused]))
   = [(3, Some "http://127.0.0.1:3002/s3.png")]).
Proof. vm_compute. done. Qed.

(** ** Notes in a list: edge cases of move, edit and delete *)

Lemma listOf_patchOf kind l step : listOf kind (applyPatch (patchOf kind l) step) = l.
Proof. by destruct kind. Qed.

Lemma patchOf_listOf kind step : applyPatch (patchOf kind (listOf kind step)) step = step.
Proof. by destruct kind, step. Qed.

Lemma patchOf_patchOf kind l l' step :
  applyPatch (patchOf kind l) (applyPatch (patchOf kind l') step)
  = applyPatch (patchOf kind l) step.
Proof. by destruct kind. Qed.

Lemma moveListed_moveList newURL kind :
  moveListed newURL kind = moveList newURL (listOf kind) (patchOf kind).
Proof. by destruct kind. Qed.

Lemma item_Some l index n : item l index = Some n → l !! index = Some (Some n).
Proof. unfold item. by destruct (l !! index) as [[m|]|]; intros [= ->]. Qed.

Lemma item_out_of_range l index : length l ≤ index → item l index = None.
Proof. intros H. unfold item. by rewrite lookup_ge_None_2. Qed.

Lemma delete_out_of_range {A} (l : list A) index : length l ≤ index → delete index l = l.
Proof.
  intros H. rewrite delete_take_drop, take_ge, drop_ge by lia. apply app_nil_r.
Qed.

Lemma httpGet_note_returns tid ref w saved w' :
  httpGet_note tid ref w = (Returns saved, w') →
  ∃ id, ref = Some id ∧ notes (service w) !! (tid, id) = Some saved ∧
        service w' = service w.
Proof.
  unfold httpGet_note. intros H. answered H.
  destruct ref as [id|]; simplify_eq/=.
  destruct (notes (service w) !! (tid, id)) eqn:Hl; simplify_eq/=. eauto.
Qed.

(** A successful move read the note at the given place and left it last in
    the destination's list. *)
(** A successful move found a note id at the index it was given. *)
Lemma moveList_reads_source newURL kind tid from idx dest w r w' :
  moveList newURL (listOf kind) (patchOf kind) tid from idx dest w
  = (Returns (ReplySuccess r), w') →
  ∃ fromStep n,
    steps (service w) !! (tid, from) = Some fromStep ∧
    listOf kind fromStep !! idx = Some (Some n).
Proof.
  unfold moveList. intros H.
  apply try_catch_success in H.
  apply bind_returns in H as (fromStep & w1 & Hget1 & H).
  apply bind_returns in H as (fromStep' & w2 & _ & H).
  apply bind_returns in H as (destStep & w3 & _ & H).
  apply bind_returns in H as (destStep' & w4 & _ & H).
  apply bind_returns in H as (saved & w5 & Hnote & _).
  apply httpGet_testStep_returns in Hget1 as [Hfrom _].
  apply httpGet_note_returns in Hnote as (n & Hitem & _).
  exists fromStep, n. split; [done|]. by apply item_Some.
Qed.

(** X1 — the reply of a successful [moveBug] / [moveNotice] says where the
    note now is: its sequence number is the destination's and its index is
    the last position of the destination's list, which holds the id that was
    read at the source; the returned note carries no id. *)
Theorem move_reply_locates_note newURL kind tid from idx dest w r w' :
  moveListed newURL kind tid from idx dest w = (Returns (ReplySuccess r), w') →
  ∃ fromStep destStep n,
    steps (service w) !! (tid, from) = Some fromStep ∧
    listOf kind fromStep !! idx = Some (Some n) ∧
    steps (service w') !! (tid, dest) = Some destStep ∧
    listOf kind destStep !! Z.to_nat (recorded_index r) = Some (Some n) ∧
    recorded_index r = (Z.of_nat (length (listOf kind destStep)) - 1)%Z ∧
    note_sequence (recorded_note r) = dest ∧
    note_id (recorded_note r) = None.
Proof.
  rewrite moveListed_moveList. unfold moveList. intros H.
  apply try_catch_success in H.
  apply bind_returns in H as (fromStep & w1 & Hget1 & H).
  apply bind_returns in H as (fromStep' & w2 & Hpatch1 & H).
  apply bind_returns in H as (destStep & w3 & Hget2 & H).
  apply bind_returns in H as (destStep' & w4 & Hpatch2 & H).
  apply bind_returns in H as (saved & w5 & Hnote & H).
  apply bind_returns in H as (path & w6 & Hpath & H).
  apply httpGet_testStep_returns in Hget1 as [Hfrom Hs1].
  apply httpGet_testStep_returns in Hget2 as [Hdest Hs3].
  apply httpPatch_testStep_returns in Hpatch2 as (destStep0 & Hdest0 & -> & Hs4).
  apply httpGet_note_returns in Hnote as (n & Hitem & _ & Hs5).
  apply imagePath_returns in Hpath as ->.
  unfold ret in H. simplify_eq/=.
  rewrite Hs3, Hdest in Hdest0. injection Hdest0 as <-.
  exists fromStep,
    (applyPatch (patchOf kind (listOf kind destStep ++ [item (listOf kind fromStep) idx]))
       destStep), n.
  split; [done|]. split; [by apply item_Some|].
  rewrite Hs5, Hs4. cbn. rewrite lookup_insert_eq.
  split; [done|]. rewrite listOf_patchOf, Nat2Z.id, Hitem.
  split; [by apply list_lookup_middle|].
  rewrite length_app. cbn. split; [lia|done].
Qed.

Lemma move_reply_locates_note_witness :
  ∃ w' fromStep destStep,
    steps (service (exampleWorld [])) !! ("r1", 1) = Some fromStep ∧
    listOf Bugs fromStep !! 0 = Some (Some 10) ∧
    steps (service w') !! ("r1", 2) = Some destStep ∧
    listOf Bugs destStep !! 1 = Some (Some 10).
Proof.
  destruct (moveListed exampleNewURL Bugs "r1" 1 0 2 (exampleWorld []))
    as [o w'] eqn:Hrun.
  assert (Hr : ∃ r, o = Returns (ReplySuccess r) ∧ recorded_index r = 1%Z).
  { vm_compute in Hrun. injection Hrun as <- _. eauto. }
  destruct Hr as (r & -> & Hindex).
  destruct (move_reply_locates_note exampleNewURL Bugs "r1" 1 0 2 (exampleWorld [])
              r w' Hrun)
    as (fromStep & destStep & n & Hfrom & Hn & Hdest & Hat & _).
  exists w', fromStep, destStep. rewrite Hindex in Hat.
  assert (n = 10) as ->.
  { vm_compute in Hfrom. injection Hfrom as <-. vm_compute in Hn. congruence. }
  done.
Defined.

(** X2 — a move from an index beyond the source's list never succeeds and
    removes nothing; the only change it can leave behind is a null entry
    appended to the destination's list. *)
Theorem move_out_of_range_appends_null newURL kind tid from idx dest w fromStep :
  steps (service w) !! (tid, from) = Some fromStep →
  length (listOf kind fromStep) ≤ idx →
  ∃ reply w',
    moveListed newURL kind tid from idx dest w = (Returns reply, w') ∧
    succeeded reply = false ∧
    (steps (service w') = steps (service w) ∨
     ∃ destStep,
       steps (service w) !! (tid, dest) = Some destStep ∧
       steps (service w')
       = <[(tid, dest) := applyPatch (patchOf kind (listOf kind destStep ++ [None]))
                            destStep]> (steps (service w))).
Proof.
  intros Hfrom Hidx. rewrite moveListed_moveList.
  destruct (moveList_outcomes newURL (listOf kind) (patchOf kind) tid from idx dest w)
    as (reply & w' & Hrun & Hcases).
  exists reply, w'. split; [done|]. split.
  { destruct reply as [r|]; [|done].
    apply moveList_reads_source in Hrun as (fromStep' & n & Hfrom' & Hn).
    rewrite Hfrom in Hfrom'. injection Hfrom' as <-.
    apply lookup_lt_Some in Hn. unfold NoteRef in *. lia. }
  destruct Hcases as [[_ ->] | (fromStep' & Hfrom' & Hcases)]; [by left|].
  rewrite Hfrom in Hfrom'. injection Hfrom' as <-.
  rewrite delete_out_of_range, patchOf_listOf in Hcases by done.
  unfold patched in Hcases. cbn in Hcases.
  rewrite (insert_id _ _ _ Hfrom) in Hcases.
  destruct Hcases as [[_ ->] | (destStep & Hdest & ->)]; cbn; [by left|].
  right. exists destStep. split; [done|]. by rewrite item_out_of_range.
Qed.

Lemma move_out_of_range_appends_null_witness :
  ∃ reply w',
    moveListed exampleNewURL Bugs "r1" 1 5 2 (exampleWorld []) = (Returns reply, w') ∧
    succeeded reply = false ∧
    ts_bugs <$> steps (service w') !! ("r1", 2) = Some [Some 12; None].
Proof.
  destruct (move_out_of_range_appends_null exampleNewURL Bugs "r1" 1 5 2
              (exampleWorld []) (mkTestStep (Some 7) [Some 10; Some 11]
                                   [Some 20; Some 21] (Some "s1.png")))
    as (reply & w' & Hrun & Hfailed & _).
  - reflexivity.
  - cbn. lia.
  - exists reply, w'. split; [exact Hrun|]. split; [exact Hfailed|].
    vm_compute in Hrun. by injection Hrun as _ <-.
Defined.

Lemma httpPut_note_cases tid ref body w :
  (∃ e w', httpPut_note tid ref body w = (Throws e, w') ∧ service w' = service w) ∨
  (∃ id old w',
     ref = Some id ∧ notes (service w) !! (tid, id) = Some old ∧
     let note := mkSavedNote id (nb_type body) (nb_value body) (nb_details body)
                   (sn_imageFileUrl old) (nb_tags body) in
     httpPut_note tid ref body w = (Returns note, w') ∧
     service w' = with_notes (<[(tid, id) := note]> (notes (service w)))
                    (nextNoteId (service w)) (service w)).
Proof.
  unfold httpPut_note.
  match goal with |- context [http ?r ?f w] =>
    destruct (http_cases r f w) as [[e He] | (a & s' & Hs & He)] end;
    rewrite He; [left; eauto|right].
  destruct ref as [id|]; simplify_eq/=.
  destruct (notes (service w) !! (tid, id)) as [old|] eqn:Hold; simplify_eq/=.
  eexists id, old, _. eauto.
Qed.

Lemma edit_shape newURL kind tid seq index summary details tags :
  edit newURL kind tid seq index summary details tags
  = try_catch
      (let* step := httpGet_testStep tid seq in
       let* savedNote :=
         httpPut_note tid (item (listOf kind step) index)
           (editBody kind summary details tags) in
       let* imageFilePath :=
         RepositoryServiceDispatcher.imagePath newURL (sn_imageFileUrl savedNote) in
       ret (ReplySuccess
              (mkRecorded
                 (mkNote None seq (sn_value savedNote) (sn_details savedNote)
                    imageFilePath (sn_tags savedNote))
                 (Z.of_nat index))))
      (λ _, ret repository_service_not_found).
Proof. by destruct kind. Qed.

(** X3 — [editBug] / [editNotice] never touch the links of any test step.
    Either they fail and leave the notes alone, or they rewrite value,
    details and tags of exactly the note found at the index, keeping its id,
    type and image; a success echoes the index, names the step and carries
    no id.  (The rewrite can come with a failure reply: the image URL is
    built after the [PUT].) *)
Theorem edit_rewrites_only_the_indexed_note newURL kind tid seq index summary details
  tags w :
  ∃ reply w',
    edit newURL kind tid seq index summary details tags w = (Returns reply, w') ∧
    steps (service w') = steps (service w) ∧
    ((succeeded reply = false ∧ notes (service w') = notes (service w)) ∨
     ∃ step id old,
       steps (service w) !! (tid, seq) = Some step ∧
       listOf kind step !! index = Some (Some id) ∧
       notes (service w) !! (tid, id) = Some old ∧
       notes (service w')
       = <[(tid, id) := mkSavedNote id (typeOf kind) summary details
                          (sn_imageFileUrl old)
                          (nb_tags (editBody kind summary details tags))]>
           (notes (service w)) ∧
       ∀ r, reply = ReplySuccess r →
            recorded_index r = Z.of_nat index ∧
            note_sequence (recorded_note r) = seq ∧
            note_value (recorded_note r) = summary ∧
            note_details (recorded_note r) = details ∧
            note_id (recorded_note r) = None).
Proof.
  rewrite edit_shape. unfold try_catch, bind.
  destruct (httpGet_testStep_cases tid seq w)
    as [(e & w1 & -> & Hs1) | (step & w1 & -> & Hstep & Hs1)].
  { eexists _, _. split; [reflexivity|]. rewrite Hs1. split; [done|]. by left. }
  destruct (httpPut_note_cases tid (item (listOf kind step) index)
              (editBody kind summary details tags) w1)
    as [(e & w2 & -> & Hs2) | (id & old & w2 & Hitem & Hold & -> & Hs2)].
  { eexists _, _. split; [reflexivity|]. rewrite Hs2, Hs1. split; [done|]. by left. }
  rewrite Hs1 in Hold, Hs2. cbn [sn_imageFileUrl].
  assert (Hend : ∀ w2' : World, service w2' = service w2 →
    ∃ step0 id0 old0,
      steps (service w) !! (tid, seq) = Some step0 ∧
      listOf kind step0 !! index = Some (Some id0) ∧
      notes (service w) !! (tid, id0) = Some old0 ∧
      notes (service w2')
      = <[(tid, id0) := mkSavedNote id0 (typeOf kind) summary details
                          (sn_imageFileUrl old0)
                          (nb_tags (editBody kind summary details tags))]>
          (notes (service w))).
  { intros w2' ->. exists step, id, old. split; [done|].
    split; [by apply item_Some|]. split; [done|]. rewrite Hs2. by destruct kind. }
  destruct (imagePath_cases newURL (sn_imageFileUrl old) w2) as [[e ->] | [p ->]].
  - eexists _, _. split; [reflexivity|]. split; [by rewrite Hs2|]. right.
    destruct (Hend w2 eq_refl) as (step0 & id0 & old0 & H1 & H2 & H3 & H4).
    exists step0, id0, old0. by repeat split.
  - eexists _, _. split; [reflexivity|]. split; [by rewrite Hs2|]. right.
    destruct (Hend w2 eq_refl) as (step0 & id0 & old0 & H1 & H2 & H3 & H4).
    exists step0, id0, old0. repeat (split; [done|]).
    intros r [= <-]. by destruct kind.
Qed.

Lemma http_unlogged_cases {A} (serve : Service → option (A * Service)) w :
  (∃ e, http_unlogged serve w = (Throws e, with_faults (tail (faults w)) w)) ∨
  (∃ a s', serve (service w) = Some (a, s') ∧
           http_unlogged serve w
           = (Returns a, with_service s' (with_faults (tail (faults w)) w))).
Proof.
  unfold http_unlogged.
  destruct (head (faults w)) as [[e|]|]; eauto;
    destruct (serve (service w)) as [[a s']|]; eauto.
Qed.

Lemma httpDelete_note_cases tid ref w :
  (∃ e w', httpDelete_note tid ref w = (Throws e, w') ∧ service w' = service w) ∨
  (∃ id w', ref = Some id ∧ is_Some (notes (service w) !! (tid, id)) ∧
            httpDelete_note tid ref w = (Returns (), w') ∧
            service w' = forgotten tid id (service w)).
Proof.
  unfold httpDelete_note.
  match goal with |- context [http_unlogged ?f w] =>
    destruct (http_unlogged_cases f w) as [[e He] | (a & s' & Hs & He)] end;
    rewrite He; [left; eauto|right].
  destruct ref as [id|]; simplify_eq/=.
  destruct (notes (service w) !! (tid, id)) as [old|] eqn:Hold; simplify_eq/=.
  eexists id, _. eauto.
Qed.

Lemma deleteListed_shape kind tid seq index :
  deleteListed kind tid seq index
  = try_catch
      (let* step := httpGet_testStep tid seq in
       httpDelete_note tid (item (listOf kind step) index);;
       httpPatch_testStep tid seq
         (patchOf kind (js_filter (λ _ i _, negb (i =? index)%nat) (listOf kind step)));;
       ret (ReplySuccess (seq, index)))
      (λ _, ret repository_service_not_found).
Proof. by destruct kind. Qed.

(** Where a delete can end: before the note is dropped, after the note is
    dropped but before the link is, or after both. *)
Lemma deleteListed_outcomes kind tid seq index w :
  ∃ reply w',
    deleteListed kind tid seq index w = (Returns reply, w') ∧
    ((succeeded reply = false ∧ service w' = service w) ∨
     ∃ step id,
       steps (service w) !! (tid, seq) = Some step ∧
       listOf kind step !! index = Some (Some id) ∧
       is_Some (notes (service w) !! (tid, id)) ∧
       ((succeeded reply = false ∧ service w' = forgotten tid id (service w)) ∨
        (reply = ReplySuccess (seq, index) ∧
         service w' = patched (tid, seq)
                        (applyPatch (patchOf kind (delete index (listOf kind step)))
                           step)
                        (forgotten tid id (service w))))).
Proof.
  rewrite deleteListed_shape. unfold try_catch, bind.
  destruct (httpGet_testStep_cases tid seq w)
    as [(e & w1 & -> & Hs1) | (step & w1 & -> & Hstep & Hs1)].
  { eexists _, _. split; [reflexivity|]. left. by rewrite Hs1. }
  destruct (httpDelete_note_cases tid (item (listOf kind step) index) w1)
    as [(e & w2 & -> & Hs2) | (id & w2 & Hitem & Hnote & -> & Hs2)].
  { eexists _, _. split; [reflexivity|]. left. by rewrite Hs2, Hs1. }
  rewrite Hs1 in Hnote, Hs2. rewrite js_filter_delete.
  destruct (httpPatch_testStep_cases tid seq
              (patchOf kind (delete index (listOf kind step))) w2)
    as [(e & w3 & -> & Hs3) | (step' & w3 & -> & Hstep' & Hs3)].
  { eexists _, _. split; [reflexivity|]. right. exists step, id.
    split; [done|]. split; [by apply item_Some|]. split; [done|].
    left. by rewrite Hs3, Hs2. }
  rewrite Hs2 in Hstep', Hs3. cbn in Hstep'. rewrite Hstep in Hstep'.
  injection Hstep' as <-.
  eexists _, _. split; [reflexivity|]. right. exists step, id.
  split; [done|]. split; [by apply item_Some|]. split; [done|]. by right.
Qed.

(** X4 — a successful [deleteBug] / [deleteNotice] drops from the step's
    list exactly the entry at the index, keeps the other entries in their
    order, removes the note it named from the service and answers with the
    sequence number and index it was given. *)
Theorem delete_removes_note_and_link kind tid seq index w d w' :
  deleteListed kind tid seq index w = (Returns (ReplySuccess d), w') →
  ∃ step id,
    steps (service w) !! (tid, seq) = Some step ∧
    listOf kind step !! index = Some (Some id) ∧
    d = (seq, index) ∧
    steps (service w')
    = <[(tid, seq) := applyPatch (patchOf kind (delete index (listOf kind step))) step]>
        (steps (service w)) ∧
    notes (service w') = delete (tid, id) (notes (service w)).
Proof.
  intros Hrun.
  destruct (deleteListed_outcomes kind tid seq index w) as (reply & w0 & Hrun' & H).
  rewrite Hrun in Hrun'. injection Hrun' as <- <-.
  destruct H as [[? _] | (step & id & Hstep & Hid & _ & [[? _] | [[= <-] ->]])];
    [done..|].
  by exists step, id.
Qed.

Lemma delete_removes_note_and_link_witness :
  ∃ w', ts_notices <$> steps (service w') !! ("r1", 1) = Some [Some 21] ∧
        notes (service w') !! ("r1", 20) = None.
Proof.
  destruct (deleteListed Notices "r1" 1 0 (exampleWorld [])) as [o w'] eqn:Hrun.
  assert (Hd : o = Returns (ReplySuccess (1, 0))).
  { vm_compute in Hrun. by injection Hrun as <- _. }
  subst o.
  destruct (delete_removes_note_and_link Notices "r1" 1 0 (exampleWorld []) (1, 0) w'
              Hrun) as (step & id & Hstep & Hid & _ & Hsteps & Hnotes).
  exists w'. vm_compute in Hstep. injection Hstep as <-.
  vm_compute in Hid. injection Hid as <-.
  rewrite Hsteps, Hnotes. split; [by rewrite lookup_insert_eq|].
  apply lookup_delete_eq.
Defined.


(** X6 — with an index beyond the step's list, [deleteBug] / [deleteNotice]
    fail and change nothing in the service. *)
Theorem delete_out_of_range_changes_nothing kind tid seq index w :
  (∀ step, steps (service w) !! (tid, seq) = Some step →
           length (listOf kind step) ≤ index) →
  ∃ w', deleteListed kind tid seq index w = (Returns repository_service_not_found, w') ∧
        service w' = service w.
Proof.
  intros Hrange. rewrite deleteListed_shape. unfold try_catch, bind.
  destruct (httpGet_testStep_cases tid seq w)
    as [(e & w1 & -> & Hs1) | (step & w1 & -> & Hstep & Hs1)]; [by eexists|].
  destruct (httpDelete_note_cases tid (item (listOf kind step) index) w1)
    as [(e & w2 & -> & Hs2) | (id & w2 & Hitem & _)].
  { eexists. split; [reflexivity|]. by rewrite Hs2. }
  by rewrite (item_out_of_range _ _ (Hrange step Hstep)) in Hitem.
Qed.

Lemma delete_out_of_range_changes_nothing_witness :
  ∃ w', deleteListed Bugs "r1" 2 1 (exampleWorld [])
        = (Returns repository_service_not_found, w') ∧
        service w' = exampleService.
Proof.
  apply (delete_out_of_range_changes_nothing Bugs "r1" 2 1 (exampleWorld [])).
  intros step Hstep. vm_compute in Hstep. injection Hstep as <-. cbn. lia.
Defined.

(** X7 — when the transport serves the [GET] and the [DELETE] of a
    [deleteBug] / [deleteNotice] and fails its [PATCH], the reply is a
    failure, the note is gone and the step still lists its id. *)
Theorem delete_interrupted_leaves_dangling_link kind tid seq index w step id e rest :
  steps (service w) !! (tid, seq) = Some step →
  listOf kind step !! index = Some (Some id) →
  is_Some (notes (service w) !! (tid, id)) →
  faults w = None :: None :: Some e :: rest →
  ∃ w', deleteListed kind tid seq index w = (Returns repository_service_not_found, w') ∧
        steps (service w') !! (tid, seq) = Some step ∧
        notes (service w') !! (tid, id) = None.
Proof.
  intros Hstep Hid [old Hold] Hfaults.
  rewrite deleteListed_shape.
  unfold try_catch, bind, httpGet_testStep, httpDelete_note, httpPatch_testStep,
    http, http_unlogged, item.
  rewrite Hfaults. cbn. rewrite Hstep. cbn. rewrite Hid. cbn. rewrite Hold. cbn.
  eexists. split; [reflexivity|]. cbn. split; [done|]. apply lookup_delete_eq.
Qed.

Lemma delete_interrupted_leaves_dangling_link_witness :
  ∃ w', deleteListed Bugs "r1" 1 1 (exampleWorld [None; None; Some ConnectionRefused])
        = (Returns repository_service_not_found, w') ∧
        ts_bugs <$> steps (service w') !! ("r1", 1) = Some [Some 10; Some 11] ∧
        notes (service w') !! ("r1", 11) = None.
Proof.
  destruct (delete_interrupted_leaves_dangling_link Bugs "r1" 1 1
              (exampleWorld [None; None; Some ConnectionRefused])
              (mkTestStep (Some 7) [Some 10; Some 11] [Some 20; Some 21]
                 (Some "s1.png")) 11 ConnectionRefused [])
    as (w' & Hrun & Hstep & Hnote).
  - reflexivity.
  - reflexivity.
  - exists (exampleNote 11 "bug"). reflexivity.
  - reflexivity.
  - exists w'. split; [exact Hrun|]. by rewrite Hstep.
Defined.

Lemma httpPost_notes_stores tid body w saved w' :
  httpPost_notes tid body w = (Returns saved, w') →
  sn_id saved = nextNoteId (service w) ∧
  service w' = with_notes (<[(tid, nextNoteId (service w)) := saved]> (notes (service w)))
                 (S (nextNoteId (service w))) (service w).
Proof.
  unfold httpPost_notes. intros H. answered H. by simplify_eq/=.
Qed.

Lemma add_success newURL kind tid seq summary details tags imageData w r w' :
  add newURL kind tid seq summary details tags imageData w
  = (Returns (ReplySuccess r), w') →
  ∃ step saved,
    steps (service w) !! (tid, seq) = Some step ∧
    sn_id saved = nextNoteId (service w) ∧
    note_id (recorded_note r) = Some (sn_id saved) ∧
    recorded_index r = Z.of_nat (length (listOf kind step)) ∧
    steps (service w')
    = <[(tid, seq) := applyPatch (patchOf kind (listOf kind step ++ [Some (sn_id saved)]))
                        step]> (steps (service w)) ∧
    notes (service w') = <[(tid, sn_id saved) := saved]> (notes (service w)).
Proof.
  intros H.
  destruct kind; cbn [add] in H;
    [unfold RepositoryServiceDispatcher.addBug in H
    |unfold RepositoryServiceDispatcher.addNotice in H];
    apply try_catch_success in H;
    apply bind_returns in H as (saved & w1 & Hpost & H);
    apply bind_returns in H as (patched & w2 & Hlink & H);
    apply bind_returns in Hlink as (step & w3 & Hget & Hpatch);
    apply bind_returns in H as (path & w4 & Hpath & H);
    apply httpPost_notes_stores in Hpost as [Hid Hs1];
    apply httpGet_testStep_returns in Hget as [Hstep Hs3];
    apply httpPatch_testStep_returns in Hpatch as (step' & Hstep' & -> & Hs2);
    apply imagePath_returns in Hpath as ->;
    unfold ret in H; simplify_eq/=;
    rewrite Hs1 in Hstep; cbn in Hstep;
    rewrite Hs3, Hs1 in Hstep'; cbn in Hstep';
    rewrite Hstep in Hstep'; simplify_eq;
    exists step', saved; rewrite Hs2, Hs3, Hs1, Hid; cbn;
    repeat (split; [done|]); (split; [|done]);
    rewrite length_app; cbn; lia.
Qed.

(** X8 — adding a bug or notice and then deleting it at the index the add
    returned leaves every test step as it was before the add, and the note
    is gone again. *)
Theorem add_then_delete_restores_links newURL kind tid seq summary details tags
  imageData w r w1 d w2 :
  add newURL kind tid seq summary details tags imageData w
  = (Returns (ReplySuccess r), w1) →
  deleteListed kind tid seq (Z.to_nat (recorded_index r)) w1
  = (Returns (ReplySuccess d), w2) →
  steps (service w2) = steps (service w) ∧
  ∃ id, note_id (recorded_note r) = Some id ∧ notes (service w2) !! (tid, id) = None.
Proof.
  intros Hadd Hdelete.
  apply add_success in Hadd
    as (step & saved & Hstep & Hfresh & Hid & Hindex & Hsteps1 & Hnotes1).
  destruct (deleteListed_outcomes kind tid seq (Z.to_nat (recorded_index r)) w1)
    as (reply & w0 & Hrun & H).
  rewrite Hdelete in Hrun. injection Hrun as <- <-.
  destruct H as [[? _] | (step1 & id & Hstep1 & Hat & _ & [[? _] | [_ ->]])];
    [done..|].
  rewrite Hsteps1, lookup_insert_eq in Hstep1. injection Hstep1 as <-.
  rewrite Hindex, Nat2Z.id, listOf_patchOf in Hat |- *.
  rewrite list_lookup_middle in Hat by done. injection Hat as <-.
  rewrite (delete_middle _ []), app_nil_r, patchOf_patchOf, patchOf_listOf.
  cbn. rewrite Hsteps1, insert_insert_eq, Hnotes1. split; [by apply insert_id|].
  exists (sn_id saved). split; [done|]. apply lookup_delete_eq.
Qed.

Lemma add_then_delete_restores_links_witness :
  ∃ w2, steps (service w2) = steps exampleService ∧
        notes (service w2) !! ("r1", 30) = None.
Proof.
  destruct (add exampleNewURL Bugs "r1" 2 "s" "d" [] None (exampleWorld []))
    as [o w1] eqn:Hadd.
  assert (Hr : ∃ r, o = Returns (ReplySuccess r) ∧ recorded_index r = 1%Z
                    ∧ note_id (recorded_note r) = Some 30).
  { vm_compute in Hadd. injection Hadd as <- _. eauto. }
  destruct Hr as (r & -> & Hindex & Hnote).
  destruct (deleteListed Bugs "r1" 2 (Z.to_nat (recorded_index r)) w1)
    as [o w2] eqn:Hdelete.
  assert (Hd : ∃ d, o = Returns (ReplySuccess d)).
  { rewrite Hindex in Hdelete. vm_compute in Hadd. injection Hadd as _ <-.
    vm_compute in Hdelete. injection Hdelete as <- _. eauto. }
  destruct Hd as (d & ->).
  destruct (add_then_delete_restores_links exampleNewURL Bugs "r1" 2 "s" "d" [] None
              (exampleWorld []) r w1 d w2 Hadd Hdelete)
    as (Hsteps & id & Hid & Hgone).
  exists w2. split; [exact Hsteps|].
  rewrite Hnote in Hid. by injection Hid as <-.
Defined.

(** ** Intentions: edge cases *)

Lemma not_faulty_sent k r s w : ¬ faulty (S k) w → ¬ faulty k (with_service s (sent r w)).
Proof. intros H Hk. by apply H, (faulty_sent k r s w). Qed.

Lemma http_served {A} k (r : Request) (serve : Service → option (A * Service)) w a s' :
  ¬ faulty (S k) w → serve (service w) = Some (a, s') →
  http r serve w = (Returns a, with_service s' (sent r w)) ∧
  ¬ faulty k (with_service s' (sent r w)).
Proof.
  intros Hk Hserve.
  destruct (http_cases3 r serve w) as [(e & He & _) | [[Hnone _] | (a' & s'' & Hs & ->)]].
  - destruct Hk. by apply (faulty_head k w e).
  - by rewrite Hserve in Hnone.
  - rewrite Hserve in Hs. injection Hs as <- <-. split; [done|].
    by apply not_faulty_sent.
Qed.

Lemma httpGet_testStep_served k tid seq w step :
  ¬ faulty (S k) w → steps (service w) !! (tid, seq) = Some step →
  ∃ w', httpGet_testStep tid seq w = (Returns step, w') ∧
        service w' = service w ∧ ¬ faulty k w'.
Proof.
  intros Hk Hstep. unfold httpGet_testStep.
  edestruct (http_served k (GET_testStep tid seq)
               (λ s, step ← steps s !! (tid, seq); Some (step, s)) w step (service w) Hk)
    as [Heq Hk']; [by rewrite Hstep|].
  eexists. split; [exact Heq|]. by split.
Qed.

Lemma httpPatch_testStep_served k tid seq body w step :
  ¬ faulty (S k) w → steps (service w) !! (tid, seq) = Some step →
  ∃ w', httpPatch_testStep tid seq body w = (Returns (applyPatch body step), w') ∧
        service w' = patched (tid, seq) (applyPatch body step) (service w) ∧
        ¬ faulty k w'.
Proof.
  intros Hk Hstep. unfold httpPatch_testStep.
  edestruct (http_served k (PATCH_testStep tid seq body)
               (λ s, step ← steps s !! (tid, seq);
                     let step' := applyPatch body step in
                     Some (step', with_steps (<[(tid, seq) := step']> (steps s)) s))
               w (applyPatch body step)
               (patched (tid, seq) (applyPatch body step) (service w)) Hk)
    as [Heq Hk']; [by rewrite Hstep|].
  eexists. split; [exact Heq|]. by split.
Qed.

Lemma httpGet_note_None tid w :
  ∃ e w', httpGet_note tid None w = (Throws e, w') ∧ service w' = service w.
Proof.
  destruct (httpGet_note_cases tid None w) as [H | (saved & w' & H & _)]; [done|].
  by apply httpGet_note_returns in H as (id & ? & _).
Qed.

(** X9 — [moveIntention] from a test step that has no intention never
    succeeds; yet when its first three requests reach the service, the
    destination's own intention has been erased by the time it fails. *)
Theorem moveIntention_without_intention_erases_destination newURL tid from dest w
  fromStep destStep :
  steps (service w) !! (tid, from) = Some fromStep →
  ts_intention fromStep = None →
  steps (service w) !! (tid, dest) = Some destStep →
  ∃ reply w',
    RepositoryServiceDispatcher.moveIntention newURL tid from dest w
    = (Returns reply, w') ∧
    succeeded reply = false ∧
    (¬ faulty 3 w → ts_intention <$> steps (service w') !! (tid, dest) = Some None).
Proof.
  intros Hfrom Hnone Hdest.
  destruct (moveIntention_outcomes newURL tid from dest w) as (reply & w' & Hrun & _).
  exists reply, w'. split; [done|]. split.
  { destruct reply as [r|]; [exfalso|done].
    unfold RepositoryServiceDispatcher.moveIntention in Hrun.
    apply try_catch_success in Hrun.
    apply bind_returns in Hrun as (step & w1 & Hget & H).
    apply bind_returns in H as (? & w2 & _ & H).
    apply bind_returns in H as (? & w3 & _ & H).
    apply bind_returns in H as (saved & w4 & Hnote & _).
    apply httpGet_testStep_returns in Hget as [Hstep _].
    rewrite Hfrom in Hstep. injection Hstep as <-. rewrite Hnone in Hnote.
    by apply httpGet_note_returns in Hnote as (id & ? & _). }
  intros Hserved. revert Hrun.
  unfold RepositoryServiceDispatcher.moveIntention, try_catch, bind.
  destruct (httpGet_testStep_served 2 tid from w fromStep Hserved Hfrom)
    as (w1 & -> & Hs1 & Hserved1).
  rewrite <- Hs1 in Hfrom, Hdest.
  destruct (httpPatch_testStep_served 1 tid from (PatchIntention None) w1 fromStep
              Hserved1 Hfrom) as (w2 & -> & Hs2 & Hserved2).
  assert (Hdest2 : ∃ destStep2, steps (service w2) !! (tid, dest) = Some destStep2).
  { rewrite Hs2. cbn. destruct (decide (from = dest)) as [->|Hne].
    - rewrite lookup_insert_eq. eauto.
    - rewrite lookup_insert_ne by congruence. eauto. }
  destruct Hdest2 as [destStep2 Hdest2]. rewrite Hnone.
  destruct (httpPatch_testStep_served 0 tid dest (PatchIntention None) w2 destStep2
              Hserved2 Hdest2) as (w3 & -> & Hs3 & _).
  destruct (httpGet_note_None tid w3) as (e & w4 & -> & Hs4).
  intros [= _ <-]. rewrite Hs4, Hs3. cbn. by rewrite lookup_insert_eq.
Qed.

Lemma moveIntention_without_intention_erases_destination_witness :
  ∃ reply w',
    RepositoryServiceDispatcher.moveIntention exampleNewURL "r1" 2 1 (exampleWorld [])
    = (Returns reply, w') ∧
    succeeded reply = false ∧
    ts_intention <$> steps exampleService !! ("r1", 1) = Some (Some 7) ∧
    ts_intention <$> steps (service w') !! ("r1", 1) = Some None.
Proof.
  destruct (moveIntention_without_intention_erases_destination exampleNewURL "r1" 2 1
              (exampleWorld []) (mkTestStep None [Some 12] [] None)
              (mkTestStep (Some 7) [Some 10; Some 11] [Some 20; Some 21]
                 (Some "s1.png")))
    as (reply & w' & Hrun & Hfailed & Herased).
  - reflexivity.
  - reflexivity.
  - reflexivity.
  - exists reply, w'. split; [exact Hrun|]. split; [exact Hfailed|].
    split; [reflexivity|]. apply Herased.
    intros [e He]. cbn in He. by apply elem_of_nil in He.
Defined.

(** X10 — a successful [moveIntention] of a step onto itself changes
    neither the test steps nor the notes. *)
Theorem moveIntention_onto_itself_is_identity newURL tid seq w note w' :
  RepositoryServiceDispatcher.moveIntention newURL tid seq seq w
  = (Returns (ReplySuccess note), w') →
  steps (service w') = steps (service w) ∧ notes (service w') = notes (service w).
Proof.
  unfold RepositoryServiceDispatcher.moveIntention. intros H.
  apply try_catch_success in H.
  apply bind_returns in H as (step & w1 & Hget & H).
  apply bind_returns in H as (step1 & w2 & Hpatch1 & H).
  apply bind_returns in H as (step2 & w3 & Hpatch2 & H).
  apply bind_returns in H as (saved & w4 & Hnote & H).
  apply bind_returns in H as (path & w5 & Hpath & H).
  apply httpGet_testStep_returns in Hget as [Hstep Hs1].
  apply httpPatch_testStep_returns in Hpatch1 as (step0 & Hstep0 & -> & Hs2).
  apply httpPatch_testStep_returns in Hpatch2 as (step3 & Hstep3 & -> & Hs3).
  apply httpGet_note_returns in Hnote as (id & _ & _ & Hs4).
  apply imagePath_returns in Hpath as ->.
  unfold ret in H. injection H as _ <-.
  rewrite Hs1, Hstep in Hstep0. injection Hstep0 as <-.
  rewrite Hs2 in Hstep3. cbn in Hstep3. rewrite lookup_insert_eq in Hstep3.
  injection Hstep3 as <-.
  rewrite Hs4, Hs3, Hs2, Hs1. cbn. split; [|done].
  rewrite insert_insert_eq. apply insert_id. by destruct step.
Qed.

Lemma moveIntention_onto_itself_is_identity_witness :
  ∃ w', steps (service w') = steps exampleService ∧
        notes (service w') = notes exampleService.
Proof.
  destruct (RepositoryServiceDispatcher.moveIntention exampleNewURL "r1" 1 1
              (exampleWorld [])) as [o w'] eqn:Hrun.
  assert (Hr : ∃ note, o = Returns (ReplySuccess note)).
  { vm_compute in Hrun. injection Hrun as <- _. eauto. }
  destruct Hr as (note & ->).
  exists w'.
  apply (moveIntention_onto_itself_is_identity exampleNewURL "r1" 1 (exampleWorld [])
           note w' Hrun).
Defined.

(** X11 — [editIntention] and [deleteIntention] on a test step that has no
    intention fail and change nothing in the service. *)
Theorem absent_intention_is_neither_edited_nor_deleted newURL tid seq summary details w :
  (∀ step, steps (service w) !! (tid, seq) = Some step → ts_intention step = None) →
  (∃ w', RepositoryServiceDispatcher.editIntention newURL tid seq summary details w
         = (Returns repository_service_not_found, w') ∧ service w' = service w) ∧
  (∃ w', RepositoryServiceDispatcher.deleteIntention tid seq w
         = (Returns repository_service_not_found, w') ∧ service w' = service w).
Proof.
  intros Hnone. split.
  - unfold RepositoryServiceDispatcher.editIntention, try_catch, bind.
    destruct (httpGet_testStep_cases tid seq w)
      as [(e & w1 & -> & Hs1) | (step & w1 & -> & Hstep & Hs1)]; [by eexists|].
    rewrite (Hnone step Hstep).
    destruct (httpPut_note_cases tid None
                (mkNoteBody "intention" summary details None None) w1)
      as [(e & w2 & -> & Hs2) | (id & ? & ? & ? & _)]; [|done].
    eexists. split; [reflexivity|]. by rewrite Hs2.
  - unfold RepositoryServiceDispatcher.deleteIntention, try_catch, bind.
    destruct (httpGet_testStep_cases tid seq w)
      as [(e & w1 & -> & Hs1) | (step & w1 & -> & Hstep & Hs1)]; [by eexists|].
    rewrite (Hnone step Hstep).
    destruct (httpDelete_note_cases tid None w1)
      as [(e & w2 & -> & Hs2) | (id & ? & ? & _)]; [|done].
    eexists. split; [reflexivity|]. by rewrite Hs2.
Qed.

Lemma absent_intention_is_neither_edited_nor_deleted_witness :
  (∃ w', RepositoryServiceDispatcher.editIntention exampleNewURL "r1" 2 "s" "d"
           (exampleWorld [])
         = (Returns repository_service_not_found, w') ∧ service w' = exampleService) ∧
  (∃ w', RepositoryServiceDispatcher.deleteIntention "r1" 2 (exampleWorld [])
         = (Returns repository_service_not_found, w') ∧ service w' = exampleService).
Proof.
  apply (absent_intention_is_neither_edited_nor_deleted exampleNewURL "r1" 2 "s" "d"
           (exampleWorld [])).
  intros step Hstep. vm_compute in Hstep. by injection Hstep as <-.
Defined.

(** X12 — [addIntention] followed by [deleteIntention] on the same step
    leaves all other steps alone and this step without intention, with the
    note just created gone again; a step that had no intention before is
    exactly as it was. *)
Theorem addIntention_then_deleteIntention newURL tid seq summary details w note w1 d w2 :
  RepositoryServiceDispatcher.addIntention newURL tid seq summary details w
  = (Returns (ReplySuccess note), w1) →
  RepositoryServiceDispatcher.deleteIntention tid seq w1
  = (Returns (ReplySuccess d), w2) →
  ∃ step,
    steps (service w) !! (tid, seq) = Some step ∧
    steps (service w2)
    = <[(tid, seq) := applyPatch (PatchIntention None) step]> (steps (service w)) ∧
    (ts_intention step = None → steps (service w2) = steps (service w)) ∧
    notes (service w2) !! (tid, nextNoteId (service w)) = None ∧
    d = seq.
Proof.
  unfold RepositoryServiceDispatcher.addIntention,
    RepositoryServiceDispatcher.deleteIntention.
  intros Hadd Hdelete.
  apply try_catch_success in Hadd.
  apply bind_returns in Hadd as (saved & v1 & Hpost & Hadd).
  apply bind_returns in Hadd as (step1 & v2 & Hpatch & Hadd).
  apply bind_returns in Hadd as (path & v3 & Hpath & Hadd).
  apply httpPost_notes_stores in Hpost as [Hid Hv1].
  apply httpPatch_testStep_returns in Hpatch as (step & Hstep & -> & Hv2).
  apply imagePath_returns in Hpath as ->.
  unfold ret in Hadd. injection Hadd as _ <-.
  apply try_catch_success in Hdelete.
  apply bind_returns in Hdelete as (step2 & u1 & Hget & Hdelete).
  apply bind_returns in Hdelete as ([] & u2 & Hdel & Hdelete).
  apply bind_returns in Hdelete as (step3 & u3 & Hpatch' & Hdelete).
  apply httpGet_testStep_returns in Hget as [Hstep2 Hu1].
  destruct (httpDelete_note_cases tid (ts_intention step2) u1)
    as [(e & u2' & He & _) | (id & u2' & Hid2 & _ & He & Hu2)];
    rewrite He in Hdel; [discriminate|]. injection Hdel as <-.
  apply httpPatch_testStep_returns in Hpatch' as (step4 & Hstep4 & -> & Hu3).
  unfold ret in Hdelete. injection Hdelete as <- <-.
  rewrite Hv1 in Hstep, Hv2. cbn in Hstep, Hv2.
  rewrite Hv2 in Hstep2. cbn in Hstep2. rewrite lookup_insert_eq in Hstep2.
  injection Hstep2 as <-. cbn in Hid2. injection Hid2 as <-.
  rewrite Hu2, Hu1, Hv2 in Hstep4. cbn in Hstep4. rewrite lookup_insert_eq in Hstep4.
  injection Hstep4 as <-.
  exists step. split; [done|].
  rewrite Hu3, Hu2, Hu1, Hv2. cbn. rewrite insert_insert_eq.
  split; [done|]. split.
  - intros Hnone. apply insert_id. rewrite Hstep. f_equal.
    destruct step. cbn in *. by subst.
  - split; [|done]. rewrite Hid. apply lookup_delete_eq.
Qed.

Lemma addIntention_then_deleteIntention_witness :
  ∃ w2, steps (service w2) = steps exampleService ∧
        notes (service w2) !! ("r1", 30) = None.
Proof.
  destruct (RepositoryServiceDispatcher.addIntention exampleNewURL "r1" 2 "s" "d"
              (exampleWorld [])) as [o w1] eqn:Hadd.
  assert (Hr : ∃ note, o = Returns (ReplySuccess note)).
  { vm_compute in Hadd. injection Hadd as <- _. eauto. }
  destruct Hr as (note & ->).
  destruct (RepositoryServiceDispatcher.deleteIntention "r1" 2 w1) as [o w2] eqn:Hdelete.
  assert (Hd : ∃ d, o = Returns (ReplySuccess d)).
  { pose proof Hadd as Hw1. vm_compute in Hw1. injection Hw1 as _ <-.
    vm_compute in Hdelete. injection Hdelete as <- _. eauto. }
  destruct Hd as (d & ->).
  destruct (addIntention_then_deleteIntention exampleNewURL "r1" 2 "s" "d"
              (exampleWorld []) note w1 d w2 Hadd Hdelete)
    as (step & Hstep & _ & Hsame & Hgone & _).
  exists w2. split; [|exact Hgone].
  apply Hsame. vm_compute in Hstep. by injection Hstep as <-.
Defined.

(** ** What the dispatcher never does: throw *)

Lemma returns_success_ret {A} (d : A) : returns_success (ret (ReplySuccess d)).
Proof. by intros w reply w' [= <- _]. Qed.

Lemma returns_success_throw {A} e : returns_success (@throw (Reply A) e).
Proof. by intros w reply w'. Qed.

Lemma returns_success_bind {A B} (m : Async A) (k : A → Async (Reply B)) :
  (∀ a, returns_success (k a)) → returns_success (bind m k).
Proof.
  intros Hk w reply w' H. apply bind_returns in H as (a & w1 & _ & H).
  by apply (Hk a w1 reply w').
Qed.

Lemma try_catch_replies {A} (body : Async (Reply A)) (failure : Reply A) :
  returns_success body → replies_with failure (try_catch body (λ _, ret failure)).
Proof.
  intros Hbody w. unfold try_catch, ret.
  destruct (body w) as [[reply|e] w'] eqn:Hrun; [|by eexists _, _].
  exists reply, w'. split; [done|]. by rewrite (Hbody w reply w' Hrun).
Qed.

Ltac replying :=
  apply try_catch_replies; cbv zeta;
  repeat first
    [ apply returns_success_ret | apply returns_success_throw
    | apply returns_success_bind; intros ?
    | match goal with |- returns_success (if ?b then _ else _) => destruct b end ].

(** X13 — none of the dispatcher's methods embedded above throws: whatever
    the transport, the service and the URL constructor do, each ends with a
    reply, and each has one failure reply only. *)
Theorem dispatcher_never_throws newURL (tid projectId summary details locale : string)
  (seq index dest : nat) (tags : list string) (imageData : option string)
  (noteId : NoteRef) (captured : CapturedOperation) (config : Settings) :
  let note_failure {A} : Reply A := repository_service_not_found in
  replies_with note_failure RepositoryServiceDispatcher.getSettings ∧
  replies_with note_failure (RepositoryServiceDispatcher.saveSettings config) ∧
  replies_with note_failure (RepositoryServiceDispatcher.changeLocale locale) ∧
  replies_with
    (ReplyFailure "error.operation_history.compress_note_screenshot_failed"
       "Compression error.")
    (RepositoryServiceDispatcher.compressNoteImage tid noteId) ∧
  replies_with
    (ReplyFailure "error.operation_history.compress_operation_screenshot_failed"
       "Compression error.")
    (RepositoryServiceDispatcher.compressTestStepImage tid seq) ∧
  replies_with note_failure
    (RepositoryServiceDispatcher.registerOperation newURL tid captured) ∧
  replies_with note_failure
    (RepositoryServiceDispatcher.addBug newURL tid seq summary details imageData) ∧
  replies_with note_failure
    (RepositoryServiceDispatcher.editBug newURL tid seq index summary details) ∧
  replies_with note_failure
    (RepositoryServiceDispatcher.moveBug newURL tid seq index dest) ∧
  replies_with note_failure (RepositoryServiceDispatcher.deleteBug tid seq index) ∧
  replies_with note_failure
    (RepositoryServiceDispatcher.addNotice newURL tid seq summary details tags
       imageData) ∧
  replies_with note_failure
    (RepositoryServiceDispatcher.editNotice newURL tid seq index summary details tags) ∧
  replies_with note_failure
    (RepositoryServiceDispatcher.moveNotice newURL tid seq index dest) ∧
  replies_with note_failure (RepositoryServiceDispatcher.deleteNotice tid seq index) ∧
  replies_with note_failure
    (RepositoryServiceDispatcher.addIntention newURL tid seq summary details) ∧
  replies_with note_failure
    (RepositoryServiceDispatcher.editIntention newURL tid seq summary details) ∧
  replies_with note_failure
    (RepositoryServiceDispatcher.moveIntention newURL tid seq dest) ∧
  replies_with note_failure (RepositoryServiceDispatcher.deleteIntention tid seq) ∧
  replies_with note_failure (RepositoryServiceDispatcher.resume newURL tid) ∧
  replies_with (ReplyFailure "code" "error")
    (RepositoryServiceDispatcher.readProject projectId) ∧
  replies_with (ReplyFailure "code" "message")
    (RepositoryServiceDispatcher.postTestscriptsWithProjectId projectId) ∧
  replies_with (ReplyFailure "code" "message")
    (RepositoryServiceDispatcher.postTestscriptsWithTestResultId tid).
Proof.
  cbv zeta. repeat split; replying.
Qed.

(** ** Resuming: shape and failure *)

Lemma map_from_Forall2 {A B} (f : A → nat → Outcome B) (P : A → B → Prop) i l res :
  (∀ x k y, f x k = Returns y → P x y) →
  map_from f i l = Returns res → Forall2 P l res.
Proof.
  intros Hf. revert i res. induction l as [|x l IH]; intros i res; cbn.
  - intros [= <-]. constructor.
  - intros H. apply outcome_bind_returns in H as (y & Hy & H).
    apply outcome_bind_returns in H as (ys & Hys & [= <-]).
    constructor; [by eapply Hf | by eapply IH].
Qed.

Lemma map_from_defined {A B} (f : A → nat → Outcome B) i l res k x :
  map_from f i l = Returns res → l !! k = Some x → ∃ y, f x (i + k) = Returns y.
Proof.
  intros Hmap Hx. destruct (map_from_lookup _ _ _ _ Hmap) as [Hlen Hall].
  destruct (lookup_lt_is_Some_2 res k) as [y Hy].
  { rewrite Hlen. by eapply lookup_lt_Some. }
  destruct (Hall k y Hy) as (x' & Hx' & Hf).
  rewrite Hx in Hx'. injection Hx' as <-. eauto.
Qed.

Lemma optional_notes_length (note : SavedNote → nat → Outcome Note)
  (raw : option (list SavedNote)) (res : option (list Note)) :
  match raw with
  | Some l => Some <$> js_map note l
  | None => Returns None
  end = Returns res →
  length <$> res = length <$> raw.
Proof.
  destruct raw as [l|]; [|by intros [= <-]].
  intros (l' & Hmap & ->)%outcome_fmap_returns. cbn.
  by destruct (map_from_lookup _ _ _ _ Hmap) as [-> _].
Qed.

Lemma resumeItem_sameShape newURL base step index item :
  RepositoryServiceDispatcher.resumeItem newURL base step index = Returns item →
  sameShape step item.
Proof.
  unfold RepositoryServiceDispatcher.resumeItem. intros H.
  apply outcome_bind_returns in H as (operation & Hop & H).
  apply outcome_bind_returns in H as (bugs & Hbugs & H).
  apply outcome_bind_returns in H as (notices & Hnotices & H).
  injection H as <-. unfold sameShape.
  cbn [item_operation item_intention item_bugs item_notices].
  split; [|split; [|split]].
  - destruct (rs_operation step) as [other|]; [|by injection Hop as <-].
    apply outcome_bind_returns in Hop as (p & _ & [= <-]). done.
  - by destruct (rs_intention step).
  - by eapply optional_notes_length.
  - by eapply optional_notes_length.
Qed.

(** X14 — [resume] only reads: the service is as before, whatever the
    reply.  A success hands back the id, name, coverage sources, input
    element infos and initial URL of the stored test result, and one item
    per test step, in order, each with an operation, an intention, bugs and
    notices exactly where the step has them, and as many of them. *)
Theorem resume_reads_only_and_keeps_shape newURL tid w :
  ∃ reply w',
    RepositoryServiceDispatcher.resume newURL tid w = (Returns reply, w') ∧
    service w' = service w ∧
    ∀ r, reply = ReplySuccess r →
      ∃ testResult,
        testResults (service w) !! tid = Some testResult ∧
        resumed_id r = tr_id testResult ∧
        resumed_name r = tr_name testResult ∧
        coverageSources r = tr_coverageSources testResult ∧
        inputElementInfos r = tr_inputElementInfos testResult ∧
        initialUrl r = tr_initialUrl testResult ∧
        Forall2 sameShape (tr_testSteps testResult) (operationHistoryItems r).
Proof.
  unfold RepositoryServiceDispatcher.resume, try_catch, bind, httpGet_testResult.
  match goal with |- context [http ?r ?f w] =>
    destruct (http_cases r f w) as [[e He] | (testResult & s' & Hs & He)] end;
    rewrite He; [by eexists _, _|].
  destruct (testResults (service w) !! tid) as [tr|] eqn:Hlookup; simplify_eq/=.
  unfold read, lift, ret.
  destruct (js_map _ _) as [items|e] eqn:Hmap; [|by eexists _, _].
  eexists _, _. split; [reflexivity|]. split; [done|].
  intros r [= <-]. exists testResult. cbn. repeat (split; [done|]).
  eapply map_from_Forall2; [|exact Hmap].
  intros step k item. apply resumeItem_sameShape.
Qed.

(** X15 — [resume] is all or nothing: when the URL constructor rejects the
    screenshot of a single operation of the test result, the reply is the
    failure and no item is handed back. *)
Theorem resume_fails_on_unparsable_image newURL tid w testResult i step other e :
  testResults (service w) !! tid = Some testResult →
  tr_testSteps testResult !! i = Some step →
  rs_operation step = Some other →
  truthy (so_imageFileUrl other) = true →
  newURL (default "" (so_imageFileUrl other)) (serviceUrl w) = Throws e →
  ∃ w', RepositoryServiceDispatcher.resume newURL tid w
        = (Returns repository_service_not_found, w').
Proof.
  intros Hresult Hstep Hop Htruthy Hthrows.
  unfold RepositoryServiceDispatcher.resume, try_catch, bind, httpGet_testResult.
  match goal with |- context [http ?r ?f w] =>
    destruct (http_cases r f w) as [[e' He] | (testResult' & s' & Hs & He)] end;
    rewrite He; [by eexists|].
  rewrite Hresult in Hs. simplify_eq/=.
  unfold read, lift, ret.
  destruct (js_map _ _) as [items|e'] eqn:Hmap; [exfalso|by eexists].
  destruct (map_from_defined _ _ _ _ _ _ Hmap Hstep) as [item Hitem].
  revert Hitem. unfold RepositoryServiceDispatcher.resumeItem.
  rewrite Hop. cbn. by rewrite Htruthy, Hthrows.
Qed.

Lemma resume_fails_on_unparsable_image_witness :
  ∃ w', RepositoryServiceDispatcher.resume strictNewURL "r3" brokenWorld
        = (Returns repository_service_not_found, w').
Proof.
  apply (resume_fails_on_unparsable_image strictNewURL "r3" brokenWorld brokenResult 1
           (mkResultStep
              (Some (mkServiceOperation 2 "w1" "Top" "click" "" (Some "::") []))
              None None None)
           (mkServiceOperation 2 "w1" "Top" "click" "" (Some "::") []) TypeError);
    reflexivity.
Defined.

(** ** Projects and settings *)

(** X16 — for an id that the project list has, [readProject] creates
    nothing: it sends the list request and, when that was answered, the
    request for the project itself, and the service is as before. *)
Theorem readProject_known_id_creates_nothing projectId w :
  projectId ∈ projectIds (service w) →
  ∃ reply w',
    RepositoryServiceDispatcher.readProject projectId w = (Returns reply, w') ∧
    service w' = service w ∧
    (log w' = log w ++ [Requested GET_projects] ∨
     log w' = log w ++ [Requested GET_projects; Requested (GET_project projectId)]).
Proof.
  intros Hknown.
  unfold RepositoryServiceDispatcher.readProject, try_catch, bind, httpGet_projects.
  match goal with |- context [http ?r ?f w] =>
    destruct (http_cases r f w) as [[e He] | (l & s' & Hs & He)] end;
    rewrite He; [eexists _, _; split; [reflexivity|]; split; [done|]; by left|].
  injection Hs as <- <-.
  rewrite bool_decide_eq_true_2 by exact Hknown. unfold ret, httpGet_project.
  match goal with |- context [http ?r ?f ?v] =>
    destruct (http_cases r f v) as [[e He'] | (p & s' & Hs & He')] end;
    rewrite He'; (eexists _, _; split; [reflexivity|]).
  - split; [done|]. right. cbn. by rewrite <- app_assoc.
  - cbn in Hs.
    destruct (list_find _ _) as [[k q]|]; simplify_eq/=.
    split; [done|]. right. by rewrite <- app_assoc.
Qed.

Lemma readProject_known_id_creates_nothing_witness :
  ∃ reply w',
    RepositoryServiceDispatcher.readProject "1" (exampleWorld []) = (Returns reply, w') ∧
    service w' = exampleService ∧
    (log w' = [Requested GET_projects] ∨
     log w' = [Requested GET_projects; Requested (GET_project "1")]).
Proof.
  apply (readProject_known_id_creates_nothing "1" (exampleWorld [])).
  cbn. apply list_elem_of_here.
Defined.


(** ** Actions on listed notes and the store of the GUI *)

Lemma dispatched_refl w : dispatched w w.
Proof.
  repeat split. exists []. split; [by rewrite app_nil_r | constructor].
Qed.

Lemma dispatched_trans w1 w2 w3 : dispatched w1 w2 → dispatched w2 w3 → dispatched w1 w3.
Proof.
  intros (Hs1 & Ht1 & ev1 & Hl1 & Hf1) (Hs2 & Ht2 & ev2 & Hl2 & Hf2).
  split; [congruence|]. split; [congruence|].
  exists (ev1 ++ ev2). split; [by rewrite Hl2, Hl1, app_assoc|].
  by apply Forall_app.
Qed.

Lemma dispatching_ret {A} (a : A) : dispatching (ret a).
Proof. intros w o w' [= _ <-]. apply dispatched_refl. Qed.

Lemma dispatching_throw {A} e : dispatching (@throw A e).
Proof. intros w o w' [= _ <-]. apply dispatched_refl. Qed.

Lemma dispatching_read {A} (f : World → A) : dispatching (read f).
Proof. intros w o w' [= _ <-]. apply dispatched_refl. Qed.

Lemma dispatching_lift {A} (o : Outcome A) : dispatching (lift o).
Proof. intros w o' w' [= _ <-]. apply dispatched_refl. Qed.

Lemma dispatching_bind {A B} (m : Async A) (k : A → Async B) :
  dispatching m → (∀ a, dispatching (k a)) → dispatching (bind m k).
Proof.
  intros Hm Hk w o w'. unfold bind.
  destruct (m w) as [[a|e] w1] eqn:Hrun.
  - intros H. eapply dispatched_trans; [by eapply Hm | by eapply Hk].
  - intros [= _ <-]. by eapply Hm.
Qed.

Lemma dispatching_try_catch {A} (body : Async A) (handler : Thrown → Async A) :
  dispatching body → (∀ e, dispatching (handler e)) →
  dispatching (try_catch body handler).
Proof.
  intros Hm Hk w o w'. unfold try_catch.
  destruct (body w) as [[a|e] w1] eqn:Hrun.
  - intros [= _ <-]. by eapply Hm.
  - intros H. eapply dispatched_trans; [by eapply Hm | by eapply Hk].
Qed.

Lemma dispatching_http {A} r (serve : Service → option (A * Service)) :
  dispatching (http r serve).
Proof.
  intros w o w' H.
  assert (Hsent : dispatched w (sent r w)).
  { repeat split. exists [Requested r]. split; [done|]. constructor; eauto. }
  destruct (http_cases r serve w) as [[e He] | (a & s' & _ & He)];
    rewrite He in H; injection H as _ <-; exact Hsent.
Qed.

Lemma dispatching_http_unlogged {A} (serve : Service → option (A * Service)) :
  dispatching (http_unlogged serve).
Proof.
  intros w o w' H.
  destruct (http_unlogged_cases serve w) as [[e He] | (a & s' & _ & He)];
    rewrite He in H; injection H as _ <-;
    (repeat split; exists []; split; [by rewrite app_nil_r | constructor]).
Qed.

Ltac dispatch :=
  repeat first
    [ apply dispatching_ret | apply dispatching_throw | apply dispatching_read
    | apply dispatching_lift | apply dispatching_http | apply dispatching_http_unlogged
    | apply dispatching_try_catch; [|intros ?]
    | apply dispatching_bind; [|intros ?]
    | match goal with |- dispatching (if ?b then _ else _) => destruct b end
    | match goal with |- dispatching (match ?x with _ => _ end) => destruct x end ].

Lemma dispatching_moveListed newURL kind tid from index dest :
  dispatching (moveListed newURL kind tid from index dest).
Proof.
  rewrite moveListed_moveList.
  unfold moveList, RepositoryServiceDispatcher.imagePath, httpGet_testStep,
    httpPatch_testStep, httpGet_note.
  dispatch.
Qed.

Lemma dispatching_deleteListed kind tid seq index :
  dispatching (deleteListed kind tid seq index).
Proof.
  rewrite deleteListed_shape.
  unfold httpGet_testStep, httpPatch_testStep, httpDelete_note.
  dispatch.
Qed.

Lemma dispatching_registerOperation newURL tid captured :
  dispatching (RepositoryServiceDispatcher.registerOperation newURL tid captured).
Proof.
  unfold RepositoryServiceDispatcher.registerOperation, httpPost_testSteps.
  cbv zeta. dispatch.
Qed.

Lemma commit_logged c w st :
  mutate c (state w) = Returns st →
  commit c w = (Returns (), logged (Committed c) (with_state st w)).
Proof. intros H. unfold commit. by rewrite H. Qed.

(** X18 — the [moveBug] / [moveNotice] action commits the removal from the
    source step as soon as the dispatcher has replied, whatever the reply.
    In particular, when the transport fails the very first request, the
    service still holds every link while the store of the GUI was told to
    drop the note. *)
Theorem moveAction_commits_removal_whatever_the_reply newURL kind from index dest w :
  ∃ reply w1 o w',
    moveListed newURL kind (testResultInfo_id (state w)) from index dest w
    = (Returns reply, w1) ∧
    dispatched w w1 ∧
    moveAction newURL kind from index dest w = (o, w') ∧
    service w' = service w1 ∧
    (∃ rest, log w' = log w1 ++ Committed (deleteCommit kind from index) :: rest) ∧
    (∀ e, head (faults w) = Some (Some e) →
          succeeded reply = false ∧ service w' = service w).
Proof.
  pose proof (moveListed_moveList newURL kind) as Hshape.
  destruct (moveList_outcomes newURL (listOf kind) (patchOf kind)
              (testResultInfo_id (state w)) from index dest w)
    as (reply & w1 & Hrun & _).
  rewrite <- Hshape in Hrun.
  assert (Hfault : ∀ e, head (faults w) = Some (Some e) →
                        succeeded reply = false ∧ service w1 = service w).
  { intros e He. revert Hrun. rewrite Hshape.
    unfold moveList, try_catch, bind, httpGet_testStep, http. rewrite He.
    by intros [= <- <-]. }
  exists reply, w1.
  assert (Hact : moveAction newURL kind from index dest w
                 = (commit (deleteCommit kind from index);;
                    commit (match kind with
                            | Bugs => setBug (data reply)
                            | Notices => setNotice (data reply)
                            end);;
                    commit (setCanUpdateModels true)) w1).
  { destruct kind; cbn [moveAction moveListed deleteCommit] in *;
      [unfold actions.moveBug|unfold actions.moveNotice];
      unfold actions.testResultId_now, read, bind at 1 2; by rewrite Hrun. }
  rewrite Hact. unfold bind.
  rewrite (commit_logged (deleteCommit kind from index) w1 (state w1))
    by (by destruct kind).
  destruct reply as [r|code msg]; cbn [data].
  - rewrite (commit_logged _ _ (state w1)) by (by destruct kind).
    rewrite (commit_logged _ _ (state w1)) by done.
    eexists _, _. split; [done|]. split; [by eapply dispatching_moveListed|].
    split; [reflexivity|]. split; [done|]. split; [|by intros e [? ?]%Hfault].
    eexists. cbn. by rewrite <- !app_assoc.
  - eexists _, _. split; [done|]. split; [by eapply dispatching_moveListed|].
    split; [by destruct kind|]. split; [done|]. split; [by exists []|].
    intros e [_ Hs]%Hfault. by split.
Qed.

(** X19 — the [deleteBug] / [deleteNotice] action tells the store of the
    GUI to drop the note only after the dispatcher succeeded; on a failure
    reply it throws a [TypeError] and commits nothing. *)
Theorem deleteAction_commits_only_on_success kind seq index w :
  ∃ reply w1,
    deleteListed kind (testResultInfo_id (state w)) seq index w = (Returns reply, w1) ∧
    dispatched w w1 ∧
    if succeeded reply then
      ∃ w', deleteAction kind seq index w = (Returns (), w') ∧
            service w' = service w1 ∧
            log w' = log w1 ++ [Committed (deleteCommit kind seq index);
                                Committed (setCanUpdateModels true)]
    else deleteAction kind seq index w = (Throws TypeError, w1).
Proof.
  destruct (deleteListed_outcomes kind (testResultInfo_id (state w)) seq index w)
    as (reply & w1 & Hrun & Hcases).
  exists reply, w1. split; [done|]. split; [by eapply dispatching_deleteListed|].
  assert (Hreply : succeeded reply = true → reply = ReplySuccess (seq, index)).
  { by destruct Hcases as [[-> _] | (? & ? & _ & _ & _ & [[-> _] | [-> _]])]. }
  assert (Hact : deleteAction kind seq index w
                 = match data reply with
                   | None => throw TypeError
                   | Some (sequence, index) =>
                       commit (deleteCommit kind sequence index);;
                       commit (setCanUpdateModels true)
                   end w1).
  { destruct kind; cbn [deleteAction deleteListed deleteCommit] in *;
      [unfold actions.deleteBug|unfold actions.deleteNotice];
      unfold actions.testResultId_now, read, bind at 1 2; by rewrite Hrun. }
  rewrite Hact. destruct (succeeded reply) eqn:Hok.
  - rewrite (Hreply eq_refl). cbn [data]. unfold bind.
    rewrite (commit_logged _ _ (state w1)) by (by destruct kind).
    rewrite (commit_logged _ _ (state w1)) by done.
    eexists. split; [reflexivity|]. split; [done|]. cbn. by rewrite <- app_assoc.
  - by destruct reply.
Qed.

(** X20 — when the dispatcher could not register the operation, the
    [registerOperation] action throws a [TypeError] where it takes the reply
    apart: nothing is committed, no timer is set, the history is as it
    was. *)
Theorem registerOperation_failure_commits_nothing newURL collectKeyword captured w :
  let capturedOperation :=
    if debug_saveItems_keywordSet (state w) then
      mkCapturedOperation (co_windowHandle captured) (co_screenDef captured)
        (co_type captured) (co_input captured) (co_imageData captured)
        (co_pageSource captured) (Some (collectKeyword (co_pageSource captured)))
    else captured in
  ∃ reply w1,
    RepositoryServiceDispatcher.registerOperation newURL (testResultInfo_id (state w))
      capturedOperation w = (Returns reply, w1) ∧
    dispatched w w1 ∧
    (succeeded reply = false →
     actions.registerOperation newURL collectKeyword captured w
     = (Throws TypeError, w1)).
Proof.
  intros capturedOperation.
  destruct (RepositoryServiceDispatcher.registerOperation newURL
              (testResultInfo_id (state w)) capturedOperation w) as [o w1] eqn:Hrun.
  assert (Hreply : ∃ reply, o = Returns reply).
  { revert Hrun. unfold RepositoryServiceDispatcher.registerOperation, try_catch, ret.
    destruct (bind _ _ w) as [[reply|e] w0]; intros [= <- _]; eauto. }
  destruct Hreply as [reply ->].
  exists reply, w1. split; [done|].
  split; [by eapply dispatching_registerOperation|].
  intros Hfailed. unfold actions.registerOperation, actions.testResultId_now, read.
  unfold bind at 1 2 3. fold capturedOperation. rewrite Hrun.
  by destruct reply.
Qed.

Lemma edit_success newURL kind tid seq index summary details tags w r w' :
  edit newURL kind tid seq index summary details tags w
  = (Returns (ReplySuccess r), w') →
  recorded_index r = Z.of_nat index ∧ note_id (recorded_note r) = None ∧
  state w' = state w ∧ timers w' = timers w.
Proof.
  intros H.
  assert (Hquiet : requests_only w w').
  { destruct kind; [by eapply quiet_editBug | by eapply quiet_editNotice]. }
  destruct Hquiet as (Hstate & Htimers & _).
  rewrite edit_shape in H. apply try_catch_success in H.
  apply bind_returns in H as (step & w1 & _ & H).
  apply bind_returns in H as (saved & w2 & _ & H).
  apply bind_returns in H as (path & w3 & _ & H).
  unfold ret in H. by injection H as <- _.
Qed.

Lemma compressNoteImage_without_id tid w :
  ∃ w', RepositoryServiceDispatcher.compressNoteImage tid None w
        = (Returns (ReplyFailure
                      "error.operation_history.compress_note_screenshot_failed"
                      "Compression error."), w') ∧
        log w' = log w ++ [Requested (POST_note_compressedImage tid None)] ∧
        state w' = state w ∧ service w' = service w.
Proof.
  unfold RepositoryServiceDispatcher.compressNoteImage, try_catch, bind,
    httpPost_note_compressedImage.
  match goal with |- context [http ?r ?f w] =>
    destruct (http_cases r f w) as [[e He] | (a & s' & Hs & He)] end;
    [|discriminate].
  rewrite He. by eexists.
Qed.

(** X21 — a bug or notice recorded through the edit path (an index is
    given) has its compression scheduled under no note id: [editBug] /
    [editNotice] hand back a note without id.  When that timer fires, the
    request goes to [/notes/undefined/compressed-image], the dispatcher
    answers with its compression failure, the callback throws it, and
    neither the store of the GUI nor the service change. *)
Theorem edited_note_is_compressed_under_no_id newURL kind summary details tags seq
  index shot w w' :
  recordAction newURL kind summary details tags seq (Some index) shot w
  = (Returns (), w') →
  config_imageCompression (state w) = true →
  (kind = Notices → shot = true) →
  let task := compressNoteImage_task (typeOf kind) None seq (Z.of_nat index) in
  timers w' = timers w ++ [task] ∧
  ∀ w0, ∃ w2,
    actions.runTimerTask task w0
    = (Throws (ErrorObject "error.operation_history.compress_note_screenshot_failed"
                 "Compression error."), w2) ∧
    log w2 = log w0 ++ [Requested (POST_note_compressedImage
                                      (testResultInfo_id (state w0)) None)] ∧
    state w2 = state w0 ∧ service w2 = service w0.
Proof.
  intros Hrun Henabled Hshot task. split.
  - assert (Hbody : ∃ reply w1,
      edit newURL kind (testResultInfo_id (state w)) seq index summary details tags w
      = (Returns reply, w1) ∧
      (commit (match kind with
               | Bugs => setBug (data reply)
               | Notices => setNotice (data reply)
               end);;
       commit (setCanUpdateModels true);;
       let* enabled := actions.imageCompression_isEnabled in
       if (match kind with Bugs => true | Notices => shot end) && enabled then
         match data reply with
         | Some r =>
             setTimeout (compressNoteImage_task (typeOf kind)
                           (note_id (recorded_note r)) seq (recorded_index r))
         | None => throw TypeError
         end
       else ret ()) w1 = (Returns (), w')).
    { destruct kind; cbn [recordAction edit typeOf] in *;
        [unfold actions.recordBug in Hrun|unfold actions.recordNotice in Hrun];
        apply bind_returns in Hrun as (imageData & v1 & Himage & Hrun);
        assert (v1 = w) as -> by
          (destruct shot; unfold bind, read, ret in Himage; by injection Himage);
        apply bind_returns in Hrun as (tid & v2 & Htid & Hrun);
        unfold actions.testResultId_now, read in Htid; injection Htid as <- <-;
        apply bind_returns in Hrun as (recordedNote & v3 & Hnote & Hrun);
        apply bind_returns in Hnote as (reply & v4 & Hedit & Hnote);
        unfold ret in Hnote; injection Hnote as <- <-;
        exists reply, v4; (split; [exact Hedit|]); exact Hrun. }
    destruct Hbody as (reply & w1 & Hedit & Hrest).
    apply bind_returns in Hrest as ([] & w2 & Hc1 & Hrest).
    apply bind_returns in Hrest as ([] & w3 & Hc2 & Hrest).
    apply bind_returns in Hrest as (enabled & w4 & Hread & Hrest).
    destruct reply as [r|code msg];
      [|destruct kind; unfold commit in Hc1; cbn in Hc1; discriminate].
    apply edit_success in Hedit as (Hindex & Hid & Hstate & Htimers).
    apply commit_returns in Hc1 as (st1 & Hm1 & Hst1 & _ & Ht1).
    apply commit_returns in Hc2 as (st2 & Hm2 & Hst2 & _ & Ht2).
    assert (state w3 = state w) as Hstate3.
    { destruct kind; cbn in Hm1, Hm2; congruence. }
    unfold actions.imageCompression_isEnabled, read in Hread.
    injection Hread as <- <-. rewrite Hstate3, Henabled in Hrest.
    assert ((match kind with Bugs => true | Notices => shot end) = true) as Hshoot
      by (destruct kind; auto).
    rewrite Hshoot in Hrest. cbn [andb data] in Hrest.
    unfold setTimeout in Hrest. injection Hrest as <-.
    cbn. rewrite Hid, Hindex. unfold task. congruence.
  - intros w0. unfold task, actions.runTimerTask, actions.testResultId_now, read, bind.
    destruct (compressNoteImage_without_id (testResultInfo_id (state w0)) w0)
      as (w2 & -> & Hlog & Hstate & Hservice).
    by exists w2.
Qed.

Lemma edited_note_is_compressed_under_no_id_witness :
  ∃ w', timers w' = [compressNoteImage_task "bug" None 1 0] ∧
        ∃ w2, actions.runTimerTask (compressNoteImage_task "bug" None 1 0) w'
              = (Throws (ErrorObject
                           "error.operation_history.compress_note_screenshot_failed"
                           "Compression error."), w2).
Proof.
  destruct (recordAction exampleNewURL Bugs "s" "d" [] 1 (Some 0) false (exampleWorld []))
    as [o w'] eqn:Hrun.
  assert (Ho : o = Returns ()).
  { vm_compute in Hrun. by injection Hrun as <- _. }
  subst o.
  destruct (edited_note_is_compressed_under_no_id exampleNewURL Bugs "s" "d" [] 1 0
              false (exampleWorld []) w' Hrun) as [Htimers Hfire].
  - reflexivity.
  - discriminate.
  - exists w'. split; [exact Htimers|].
    destruct (Hfire w') as (w2 & Hthrown & _). by exists w2.
Defined.

(** ** Window handles while the history grows *)

Lemma filter_from_app {A} (p : A → nat → list A → bool) array i (l1 l2 : list A) :
  filter_from p array i (l1 ++ l2)
  = filter_from p array i l1 ++ filter_from p array (i + length l1) l2.
Proof.
  revert i. induction l1 as [|x l1 IH]; intros i; cbn.
  - by rewrite Nat.add_0_r.
  - rewrite IH. replace (S i + length l1) with (i + S (length l1)) by lia.
    by destruct (p x i array).
Qed.

Lemma filter_from_ext {A} (p q : A → nat → list A → bool) a b i (l : list A) :
  (∀ k x, l !! k = Some x → p x (i + k) a = q x (i + k) b) →
  filter_from p a i l = filter_from q b i l.
Proof.
  revert i. induction l as [|x l IH]; intros i H; [done|]. cbn.
  rewrite <- (Nat.add_0_r i) at 1 3. rewrite (H 0 x eq_refl), Nat.add_0_r.
  rewrite (IH (S i)); [done|].
  intros k y Hy. replace (S i + k) with (i + S k) by lia. by apply H.
Qed.

Lemma indexOf_app array more x : x ∈ array → indexOf (array ++ more) x = indexOf array x.
Proof.
  intros [k Hk]%indexOf_elem. rewrite Hk. unfold indexOf in *.
  destruct (list_find (λ y, y = x) array) as [[k' y]|] eqn:Hfind; [|done].
  by rewrite (list_find_app_l _ _ _ _ _ Hfind).
Qed.

(** X22 — the window handles computed from a history stay as they are when
    the history grows: those of the longer history begin with those of the
    shorter one, labels included. *)
Theorem windowHandles_stable_when_history_grows (history more : list OperationWithNotes) :
  actions.windowHandles history `prefix_of` actions.windowHandles (history ++ more).
Proof.
  unfold actions.windowHandles, js_filter.
  rewrite map_app, filter_from_app, imap_app.
  set (handles := map (λ o, windowHandle (operation o)) history).
  set (others := map (λ o, windowHandle (operation o)) more).
  rewrite (filter_from_ext _ (λ windowHandle index array,
                                bool_decide (indexOf array windowHandle = Some index))
             (handles ++ others) handles 0 handles).
  - by apply prefix_app_r.
  - intros k x Hx. cbn. rewrite indexOf_app; [done|].
    by eapply list_elem_of_lookup_2.
Qed.

(** ** The links of the README *)

Module ReadmeLinks.
Import JSDocReadmeGenerator ReadmeLayout ReadmeFacts.

Lemma hexDigit_uriCharacter d : uriCharacter (hexDigit d) = true.
Proof.
  unfold hexDigit. remember (N.to_nat d) as n eqn:Hn. clear Hn.
  do 16 (destruct n; [by vm_compute|]). by destruct n.
Qed.

Lemma percent_uriCharacter octets : Forall (λ c, uriCharacter c = true) (percent octets).
Proof.
  unfold percent. induction octets as [|octet octets IH]; [constructor|].
  rewrite bind_cons.
  apply Forall_cons_2; [done|].
  apply Forall_cons_2; [apply hexDigit_uriCharacter|].
  apply Forall_cons_2; [apply hexDigit_uriCharacter|]. exact IH.
Qed.

Lemma unescaped_uriCharacter C : uriUnescapedOrReserved C = true → uriCharacter C = true.
Proof. unfold uriCharacter. by intros ->. Qed.

Lemma encodeURI_uriCharacters s r :
  encodeURI s = Returns r → Forall (λ c, uriCharacter c = true) r.
Proof.
  revert r. induction s as [| C | C D rest IH0 IH1] using list_pair_ind; intros r.
  - intros [= <-]. constructor.
  - cbn. destruct (uriUnescapedOrReserved C) eqn:Hu.
    { intros [= <-]. apply Forall_cons_2; [by apply unescaped_uriCharacter|constructor]. }
    destruct (isLeadSurrogate C); [done|].
    destruct (isTrailSurrogate C); [done|].
    intros [= <-]. rewrite app_nil_r. apply percent_uriCharacter.
  - change (encodeURI (C :: D :: rest)) with
      (if uriUnescapedOrReserved C then
         R ← encodeURI (D :: rest); Returns (C :: R)
       else if isLeadSurrogate C then
         if isTrailSurrogate D then
           R ← encodeURI rest;
           Returns (percent (utf8 ((C - 55296) * 1024 + (D - 56320) + 65536)%N) ++ R)
         else Throws URIError
       else if isTrailSurrogate C then Throws URIError
       else R ← encodeURI (D :: rest); Returns (percent (utf8 C) ++ R)).
    destruct (uriUnescapedOrReserved C) eqn:Hu.
    { intros (R & HR & [= <-])%outcome_bind_returns.
      apply Forall_cons_2; [by apply unescaped_uriCharacter|by apply IH1]. }
    destruct (isLeadSurrogate C).
    + destruct (isTrailSurrogate D); [|done].
      intros (R & HR & [= <-])%outcome_bind_returns.
      apply Forall_app. split; [apply percent_uriCharacter|by apply IH0].
    + destruct (isTrailSurrogate C); [done|].
      intros (R & HR & [= <-])%outcome_bind_returns.
      apply Forall_app. split; [apply percent_uriCharacter|by apply IH1].
Qed.

(** X23 — the link target that a row of the README gets is made of
    characters that [encodeURI] leaves alone and of percent signs only; so
    it holds no double quote, no angle bracket, no blank and no line break,
    whatever the name it was built from. *)
Theorem href_is_made_of_uri_characters label target :
  href label = Returns target →
  Forall (λ c, uriCharacter c = true) target ∧
  Forall (λ c, c ∉ [34; 60; 62; 32; 10; 13]%N) target.
Proof.
  unfold href. intros (inner & _ & Htarget)%outcome_bind_returns.
  apply encodeURI_uriCharacters in Htarget. split; [done|].
  eapply Forall_impl; [exact Htarget|]. intros c Hc Hin. revert Hc.
  repeat (apply elem_of_cons in Hin as [->|Hin]; [by vm_compute|]).
  by apply elem_of_nil in Hin.
Qed.

Lemma href_is_made_of_uri_characters_witness :
  ∃ target, href (js "a b") = Returns target ∧
            target = js "./a%2520b.html" ∧
            Forall (λ c, c ∉ [34; 60; 62; 32; 10; 13]%N) target.
Proof.
  exists (js "./a%2520b.html"). split; [by vm_compute|]. split; [done|].
  apply (href_is_made_of_uri_characters (js "a b")). by vm_compute.
Defined.

Lemma encodeURI_unescaped s :
  Forall (λ c, uriUnescapedOrReserved c = true) s → encodeURI s = Returns s.
Proof.
  induction 1 as [|C rest HC _ IH]; [done|].
  destruct rest as [|D rest]; cbn in *; rewrite HC; [done|].
  cbn in IH. by rewrite IH.
Qed.

(** X24 — a name made of letters, digits and the marks that [encodeURI]
    leaves alone is linked as it stands: the target is [./name.html]. *)
Theorem href_of_plain_name label :
  Forall (λ c, uriUnescapedOrReserved c = true) label →
  href label = Returns (js "./" ++ label ++ js ".html").
Proof.
  intros Hlabel. unfold href.
  assert (Hall : Forall (λ c, uriUnescapedOrReserved c = true)
                   (js "./" ++ label ++ js ".html")).
  { apply Forall_app. split; [by repeat constructor|].
    apply Forall_app. split; [done|by repeat constructor]. }
  rewrite (encodeURI_unescaped _ Hall). cbn [mbind outcome_bind].
  by apply encodeURI_unescaped.
Qed.

Lemma href_of_plain_name_witness :
  href (js "Login_page-2") = Returns (js "./Login_page-2.html").
Proof.
  apply (href_of_plain_name (js "Login_page-2")).
  apply Forall_forall. intros c Hc. revert c Hc. apply Forall_forall.
  by repeat constructor.
Defined.

Lemma unescaped_no_surrogate C :
  uriUnescapedOrReserved C = true → isLeadSurrogate C = false ∧ isTrailSurrogate C = false.
Proof.
  intros H%unescaped_ascii7. unfold isLeadSurrogate, isTrailSurrogate.
  rewrite !bool_decide_eq_false_2 by lia. done.
Qed.

Lemma encodeURI_illFormed s : isWellFormed s = false → encodeURI s = Throws URIError.
Proof.
  induction s as [| C | C D rest IH0 IH1] using list_pair_ind.
  - done.
  - cbn. destruct (uriUnescapedOrReserved C) eqn:Hu.
    { destruct (unescaped_no_surrogate C Hu) as [-> ->]. done. }
    destruct (isLeadSurrogate C); [done|]. by destruct (isTrailSurrogate C).
  - change (isWellFormed (C :: D :: rest))
      with (if isLeadSurrogate C then isTrailSurrogate D && isWellFormed rest
            else negb (isTrailSurrogate C) && isWellFormed (D :: rest)).
    change (encodeURI (C :: D :: rest)) with
      (if uriUnescapedOrReserved C then
         R ← encodeURI (D :: rest); Returns (C :: R)
       else if isLeadSurrogate C then
         if isTrailSurrogate D then
           R ← encodeURI rest;
           Returns (percent (utf8 ((C - 55296) * 1024 + (D - 56320) + 65536)%N) ++ R)
         else Throws URIError
       else if isTrailSurrogate C then Throws URIError
       else R ← encodeURI (D :: rest); Returns (percent (utf8 C) ++ R)).
    destruct (uriUnescapedOrReserved C) eqn:Hu.
    { destruct (unescaped_no_surrogate C Hu) as [-> ->]. cbn [negb andb].
      intros H. by rewrite (IH1 H). }
    destruct (isLeadSurrogate C).
    + destruct (isTrailSurrogate D); [|done]. cbn [andb].
      intros H. by rewrite (IH0 H).
    + destruct (isTrailSurrogate C); [done|]. cbn [negb andb].
      intros H. by rewrite (IH1 H).
Qed.

Lemma isWellFormed_ascii7_app s t : ascii7 s → isWellFormed (s ++ t) = isWellFormed t.
Proof.
  induction 1 as [|C rest HC _ IH]; [done|].
  cbn. unfold isLeadSurrogate, isTrailSurrogate.
  rewrite !bool_decide_eq_false_2 by lia. done.
Qed.

Lemma isWellFormed_app_ascii7 s t : ascii7 t → isWellFormed (s ++ t) = isWellFormed s.
Proof.
  intros Ht. induction s as [| C | C D rest IH0 IH1] using list_pair_ind.
  - by apply ascii7_wellFormed.
  - destruct t as [|D t]; [done|].
    change (isWellFormed ([C] ++ D :: t))
      with (if isLeadSurrogate C then isTrailSurrogate D && isWellFormed t
            else negb (isTrailSurrogate C) && isWellFormed (D :: t)).
    rewrite (ascii7_wellFormed _ Ht). cbn.
    apply Forall_cons in Ht as [HD _]. unfold isTrailSurrogate at 1.
    rewrite (bool_decide_eq_false_2 (56320 ≤ D ≤ 57343)%N) by lia.
    by destruct (isLeadSurrogate C).
  - change (isWellFormed (C :: D :: rest))
      with (if isLeadSurrogate C then isTrailSurrogate D && isWellFormed rest
            else negb (isTrailSurrogate C) && isWellFormed (D :: rest)).
    change (isWellFormed ((C :: D :: rest) ++ t))
      with (if isLeadSurrogate C then isTrailSurrogate D && isWellFormed (rest ++ t)
            else negb (isTrailSurrogate C) && isWellFormed ((D :: rest) ++ t)).
    by rewrite IH0, IH1.
Qed.

Lemma href_illFormed label : isWellFormed label = false → href label = Throws URIError.
Proof.
  intros Hill. unfold href. rewrite encodeURI_illFormed; [done|].
  rewrite isWellFormed_ascii7_app by apply js_ascii7_dot_slash.
  by rewrite isWellFormed_app_ascii7 by apply js_ascii7_html.
Qed.

Lemma map_from_throws {A B} (f : A → nat → Outcome B) e i l :
  (∀ x k e', f x k = Throws e' → e' = e) →
  Exists (λ x, ∀ k, f x k = Throws e) l →
  map_from f i l = Throws e.
Proof.
  intros He Hex. revert i. induction Hex as [x l Hx | x l _ IH]; intros i; cbn.
  - by rewrite Hx.
  - destruct (f x i) as [y|e'] eqn:Hfx; cbn; [by rewrite IH|].
    by rewrite (He _ _ _ Hfx).
Qed.

Lemma row_throws (label last : JSString * JSString → JSString) entry k e :
  (inner ← encodeURI (js "./" ++ label entry ++ js ".html");
   target ← encodeURI inner;
   Returns (row (k + 1) target (label entry) (last entry))) = Throws e →
  e = URIError ∧ isWellFormed (label entry) = false.
Proof.
  destruct (isWellFormed (label entry)) eqn:Hwf.
  - destruct (href_wellFormed _ Hwf) as [target Htarget]. unfold href in Htarget.
    destruct (encodeURI (js "./" ++ label entry ++ js ".html")) as [inner|];
      [|done]. cbn in *. by rewrite Htarget.
  - pose proof (href_illFormed _ Hwf) as Hthrows. unfold href in Hthrows.
    destruct (encodeURI (js "./" ++ label entry ++ js ".html")) as [inner|]; cbn in *.
    + rewrite Hthrows. by intros [= <-].
    + injection Hthrows as ->. by intros [= <-].
Qed.

Lemma rows_throw (label last : JSString * JSString → JSString) entries :
  Exists (λ entry, isWellFormed (label entry) = false) entries →
  js_map (λ entry index,
            inner ← encodeURI (js "./" ++ label entry ++ js ".html");
            target ← encodeURI inner;
            Returns (row (index + 1) target (label entry) (last entry))) entries
  = Throws URIError.
Proof.
  intros Hex. apply map_from_throws.
  - intros entry k e H. by apply row_throws in H as [-> _].
  - eapply Exists_impl; [exact Hex|]. intros entry Hill k. cbn beta.
    pose proof (href_illFormed _ Hill) as Hthrows. unfold href in Hthrows.
    destruct (encodeURI (js "./" ++ label entry ++ js ".html")) as [inner|]; cbn in *;
      [by rewrite Hthrows | by injection Hthrows as ->].
Qed.

Lemma buildTestSuiteTable_throws entries :
  Exists (λ entry, isWellFormed entry.1 = false) entries →
  buildTestSuiteTable entries = Throws URIError.
Proof.
  intros Hex. unfold buildTestSuiteTable, js_map.
  rewrite (map_from_ext _
             (λ entry index,
                inner ← encodeURI (js "./" ++ entry.1 ++ js ".html");
                target ← encodeURI inner;
                Returns (row (index + 1) target entry.1 entry.2)))
    by (by intros [name topPageUrl] k).
  pose proof (rows_throw fst snd entries Hex) as Hrows. unfold js_map in Hrows.
  by rewrite Hrows.
Qed.

Lemma buildPageObjectTable_throws entries :
  Exists (λ entry, isWellFormed entry.2 = false) entries →
  buildPageObjectTable entries = Throws URIError.
Proof.
  intros Hex. unfold buildPageObjectTable, js_map.
  rewrite (map_from_ext _
             (λ entry index,
                inner ← encodeURI (js "./" ++ entry.2 ++ js ".html");
                target ← encodeURI inner;
                Returns (row (index + 1) target entry.2 entry.1)))
    by (by intros [name alias] k).
  pose proof (rows_throw snd fst entries Hex) as Hrows. unfold js_map in Hrows.
  by rewrite Hrows.
Qed.

Lemma wellFormed_or_not (label : JSString * JSString → JSString) entries :
  Forall (λ entry, isWellFormed (label entry) = true) entries ∨
  Exists (λ entry, isWellFormed (label entry) = false) entries.
Proof.
  induction entries as [|entry entries [IH|IH]].
  - left. constructor.
  - destruct (isWellFormed (label entry)) eqn:Hwf.
    + left. by constructor.
    + right. by apply Exists_cons_hd.
  - right. by apply Exists_cons_tl.
Qed.

(** X25 — [generate] fails exactly when one of the linked names (a test
    suite name, a page object alias) has a lone surrogate, and then with a
    [URIError]; it throws nothing else. *)
Theorem generate_fails_exactly_on_lone_surrogates
  (testSuiteNameToTopPageUrl pageObjectNameToAlias : list (JSString * JSString)) :
  (generate testSuiteNameToTopPageUrl pageObjectNameToAlias = Throws URIError ↔
   Exists (λ entry, isWellFormed entry.1 = false) testSuiteNameToTopPageUrl ∨
   Exists (λ entry, isWellFormed entry.2 = false) pageObjectNameToAlias) ∧
  ∀ e, generate testSuiteNameToTopPageUrl pageObjectNameToAlias = Throws e →
       e = URIError.
Proof.
  unfold generate.
  destruct (wellFormed_or_not fst testSuiteNameToTopPageUrl) as [Hs|Hs].
  - destruct (buildTestSuiteTable_layout _ Hs) as (suiteRows & _ & ->).
    cbn [mbind outcome_bind].
    destruct (wellFormed_or_not snd pageObjectNameToAlias) as [Ho|Ho].
    + destruct (buildPageObjectTable_layout _ Ho) as (objectRows & _ & ->).
      cbn [mbind outcome_bind]. split; [|done]. split; [done|].
      intros [Hex|Hex]; apply Exists_exists in Hex as (entry & Hin & Hill).
      * rewrite Forall_forall in Hs. by rewrite (Hs entry Hin) in Hill.
      * rewrite Forall_forall in Ho. by rewrite (Ho entry Hin) in Hill.
    + rewrite (buildPageObjectTable_throws _ Ho). cbn [mbind outcome_bind].
      split; [|by intros e [= <-]]. split; [by right|done].
  - rewrite (buildTestSuiteTable_throws _ Hs). cbn [mbind outcome_bind].
    split; [|by intros e [= <-]]. split; [by left|done].
Qed.

End ReadmeLinks.

(** ** The image URL resolver of the script generator *)

Lemma append_cons x (a b : string) : String x a +:+ b = String x (a +:+ b).
Proof. reflexivity. Qed.

Lemma append_assoc (a b c : string) : (a +:+ b) +:+ c = a +:+ (b +:+ c).
Proof. induction a as [|x a IH]; [done|]. by rewrite !append_cons, IH. Qed.

Lemma length_append (a b : string) :
  String.length (a +:+ b) = String.length a + String.length b.
Proof. induction a as [|x a IH]; [done|]. rewrite append_cons. cbn. by rewrite IH. Qed.

Lemma prefix_append (p s : string) : String.prefix p (p +:+ s) = true.
Proof.
  induction p as [|x p IH]; [by destruct s|]. rewrite append_cons. cbn.
  by destruct (Ascii.ascii_dec x x).
Qed.

Lemma prefix_inv (p s : string) : String.prefix p s = true → ∃ rest, s = p +:+ rest.
Proof.
  revert s. induction p as [|x p IH]; intros s; [by exists s|].
  destruct s as [|y s]; cbn; [done|].
  destruct (Ascii.ascii_dec x y) as [->|]; [|done].
  intros [rest ->]%IH. exists rest. by rewrite append_cons.
Qed.

Lemma substring_all (s : string) : String.substring 0 (String.length s) s = s.
Proof. induction s as [|x s IH]; [done|]. cbn. by rewrite IH. Qed.

Lemma substring_append (p s : string) :
  String.substring (String.length p) (String.length s) (p +:+ s) = s.
Proof.
  induction p as [|x p IH]; [apply substring_all|]. by rewrite append_cons.
Qed.

Lemma replace_unfold (pattern replacement s : string) :
  replace pattern replacement s
  = if String.prefix pattern s then
      replacement +:+ String.substring (String.length pattern)
                        (String.length s - String.length pattern) s
    else match s with
         | EmptyString => EmptyString
         | String c s' => String c (replace pattern replacement s')
         end.
Proof. by destruct s. Qed.

Lemma replace_absent (pattern s : string) :
  (∀ before after, s ≠ before +:+ pattern +:+ after) → replace pattern "" s = s.
Proof.
  induction s as [|c s IH]; intros Habsent; rewrite replace_unfold.
  - destruct (String.prefix pattern "") eqn:Hp; [|done].
    apply prefix_inv in Hp as [rest Hrest]. by destruct (Habsent "" rest).
  - destruct (String.prefix pattern (String c s)) eqn:Hp.
    + apply prefix_inv in Hp as [rest Hrest]. by destruct (Habsent "" rest).
    + rewrite IH; [done|]. intros before after ->.
      by apply (Habsent (String c before) after).
Qed.

(** [generateTestScripts] hands this resolver to the script generator. *)
Lemma generateTestScripts_resolver message scriptsFor optimize testResultId
  projectId sources useDataDriven maxGeneration :
  actions.generateTestScripts_in_mode message scriptsFor optimize testResultId
    projectId sources useDataDriven maxGeneration
  = try_catch
      (let* serviceUrl := read serviceUrl in
       actions.GenerateTestScriptsAction_generate
         (actions.TestScriptGeneratorImpl_generate scriptsFor
            (imageUrlResolver serviceUrl)
            (mkGeneratorOption optimize useDataDriven maxGeneration) sources)
         testResultId projectId)
      (λ error,
         if bool_decide (message_of error = Some "generate_test_suite_failed") then
           throw (ErrorMessage
                    (message
                       ("error.operation_history."
                        +:+ (if optimize then "save_test_scripts_no_section_error"
                             else "save_test_scripts_no_operation_error"))))
         else
           throw (ErrorMessage
                    (message
                       ("error.operation_history."
                        +:+ default "undefined" (message_of error))))).
Proof. reflexivity. Qed.

(** X26 — the [imageUrlResolver] of [generateTestScripts] turns an image
    URL below [serviceUrl/test-results/] into its path below that prefix,
    and leaves a URL in which the prefix does not occur as it is. *)
Theorem imageUrlResolver_strips_the_service_prefix (serviceUrl : string) :
  (∀ path, imageUrlResolver serviceUrl (serviceUrl +:+ "/test-results/" +:+ path)
           = path) ∧
  (∀ url, (∀ before after,
             url ≠ before +:+ (serviceUrl +:+ "/test-results/") +:+ after) →
          imageUrlResolver serviceUrl url = url).
Proof.
  unfold imageUrlResolver. split.
  - intros path. rewrite <- append_assoc, replace_unfold, prefix_append.
    set (prefix := serviceUrl +:+ "/test-results/").
    replace (String.length (prefix +:+ path) - String.length prefix)
      with (String.length path) by (rewrite length_append; lia).
    apply substring_append.
  - intros url Habsent. by apply replace_absent.
Qed.

(** ** Adding a note: what a failure leaves behind *)

Lemma httpPost_notes_cases tid body w :
  (∃ e w', httpPost_notes tid body w = (Throws e, w') ∧ service w' = service w) ∨
  (∃ w', let saved := mkSavedNote (nextNoteId (service w)) (nb_type body)
                        (nb_value body) (nb_details body)
                        (storeImage (service w) <$> nb_imageData body) (nb_tags body) in
         httpPost_notes tid body w = (Returns saved, w') ∧
         service w' = with_notes
                        (<[(tid, nextNoteId (service w)) := saved]> (notes (service w)))
                        (S (nextNoteId (service w))) (service w)).
Proof.
  unfold httpPost_notes.
  match goal with |- context [http ?r ?f w] =>
    destruct (http_cases r f w) as [[e He] | (a & s' & Hs & He)] end;
    rewrite He; [left; eauto|right].
  injection Hs as <- <-. eauto.
Qed.

(** The body that [addBug] and [addNotice] post. *)
Lemma add_shape newURL kind tid seq summary details tags imageData :
  add newURL kind tid seq summary details tags imageData
  = try_catch
      (let* savedNote :=
         httpPost_notes tid
           (mkNoteBody (typeOf kind) summary details
              (match kind with Bugs => None | Notices => Some tags end) imageData) in
       let* savedTestStep :=
         (let* step := httpGet_testStep tid seq in
          httpPatch_testStep tid seq
            (patchOf kind (listOf kind step ++ [Some (sn_id savedNote)]))) in
       let* imageFilePath :=
         RepositoryServiceDispatcher.imagePath newURL (sn_imageFileUrl savedNote) in
       ret (ReplySuccess
              (mkRecorded
                 (mkNote (Some (sn_id savedNote)) seq (sn_value savedNote)
                    (sn_details savedNote) imageFilePath (sn_tags savedNote))
                 (Z.of_nat (length (listOf kind savedTestStep)) - 1))))
      (λ _, ret repository_service_not_found).
Proof. by destruct kind. Qed.

(** X27 — [addBug] / [addNotice] post the note first and link it second.
    So they end in one of three states of the service: untouched (and the
    reply is a failure); the note stored under the next id but linked
    nowhere (a failure, too); or the note stored and its id appended to the
    step's list — which is what every success leaves, and also a failure
    whose image URL could not be built.  No other link is ever changed. *)
Theorem add_outcomes newURL kind tid seq summary details tags imageData w :
  ∃ reply w',
    add newURL kind tid seq summary details tags imageData w = (Returns reply, w') ∧
    ((succeeded reply = false ∧ service w' = service w) ∨
     ∃ saved,
       sn_id saved = nextNoteId (service w) ∧
       sn_type saved = typeOf kind ∧
       notes (service w') = <[(tid, sn_id saved) := saved]> (notes (service w)) ∧
       ((succeeded reply = false ∧ steps (service w') = steps (service w)) ∨
        ∃ step,
          steps (service w) !! (tid, seq) = Some step ∧
          steps (service w')
          = <[(tid, seq) := applyPatch
                              (patchOf kind (listOf kind step ++ [Some (sn_id saved)]))
                              step]> (steps (service w)))).
Proof.
  rewrite add_shape. unfold try_catch, bind.
  destruct (httpPost_notes_cases tid
              (mkNoteBody (typeOf kind) summary details
                 (match kind with Bugs => None | Notices => Some tags end) imageData) w)
    as [(e & w1 & -> & Hs1) | (w1 & -> & Hs1)].
  { eexists _, _. split; [reflexivity|]. left. by rewrite Hs1. }
  set (saved := mkSavedNote _ _ _ _ _ _) in *.
  assert (Hstored : ∀ w2 : World,
            notes (service w2) = notes (service w1) →
            sn_id saved = nextNoteId (service w) ∧ sn_type saved = typeOf kind ∧
            notes (service w2) = <[(tid, sn_id saved) := saved]> (notes (service w))).
  { intros w2 ->. by rewrite Hs1. }
  destruct (httpGet_testStep_cases tid seq w1)
    as [(e & w2 & -> & Hs2) | (step & w2 & -> & Hstep & Hs2)].
  { eexists _, _. split; [reflexivity|]. right. exists saved.
    destruct (Hstored w2) as (? & ? & ?); [by rewrite Hs2|].
    repeat (split; [done|]). left. by rewrite Hs2, Hs1. }
  destruct (httpPatch_testStep_cases tid seq
              (patchOf kind (listOf kind step ++ [Some (sn_id saved)])) w2)
    as [(e & w3 & -> & Hs3) | (step' & w3 & -> & Hstep' & Hs3)].
  { eexists _, _. split; [reflexivity|]. right. exists saved.
    destruct (Hstored w3) as (? & ? & ?); [by rewrite Hs3, Hs2|].
    repeat (split; [done|]). left. by rewrite Hs3, Hs2, Hs1. }
  rewrite Hs2 in Hstep', Hs3. rewrite Hstep in Hstep'. injection Hstep' as <-.
  rewrite Hs1 in Hstep. cbn in Hstep.
  assert (Hlinked : ∀ w4 : World, service w4 = service w3 →
    ∃ saved0,
      sn_id saved0 = nextNoteId (service w) ∧ sn_type saved0 = typeOf kind ∧
      notes (service w4) = <[(tid, sn_id saved0) := saved0]> (notes (service w)) ∧
      ∃ step0,
        steps (service w) !! (tid, seq) = Some step0 ∧
        steps (service w4)
        = <[(tid, seq) := applyPatch
                            (patchOf kind (listOf kind step0 ++ [Some (sn_id saved0)]))
                            step0]> (steps (service w))).
  { intros w4 Hw4. exists saved.
    destruct (Hstored w4) as (? & ? & ?); [by rewrite Hw4, Hs3|].
    repeat (split; [done|]). exists step. split; [done|].
    by rewrite Hw4, Hs3, Hs1. }
  destruct (imagePath_cases newURL (sn_imageFileUrl saved) w3) as [[e ->] | [p ->]];
    (eexists _, _; split; [reflexivity|]); right;
    destruct (Hlinked w3 eq_refl) as (saved0 & ? & ? & ? & step0 & ? & ?);
    exists saved0; repeat (split; [done|]); right; by exists step0.
Qed.

(** X28 — adding a bug or notice to a test step that the service does not
    have fails, links nothing, and still leaves the new note in the service:
    stored under the next id, attached to no step. *)
Theorem add_to_missing_step_leaves_orphan newURL kind tid seq summary details tags
  imageData w :
  steps (service w) !! (tid, seq) = None →
  ¬ faulty 1 w →
  ∃ w' saved,
    add newURL kind tid seq summary details tags imageData w
    = (Returns repository_service_not_found, w') ∧
    steps (service w') = steps (service w) ∧
    notes (service w') !! (tid, nextNoteId (service w)) = Some saved ∧
    sn_value saved = summary ∧ sn_details saved = details.
Proof.
  intros Hmissing Hserved. rewrite add_shape. unfold try_catch, bind.
  destruct (httpPost_notes_cases tid
              (mkNoteBody (typeOf kind) summary details
                 (match kind with Bugs => None | Notices => Some tags end) imageData) w)
    as [(e & w1 & Hrun & _) | (w1 & -> & Hs1)].
  { exfalso. revert Hrun. unfold httpPost_notes.
    match goal with |- context [http ?r ?f w] =>
      destruct (http_cases3 r f w) as [(e' & He & _) | [[Hnone _] | (? & ? & _ & ->)]]
    end; [|done..].
    destruct Hserved. by apply (faulty_head 0 w e'). }
  destruct (httpGet_testStep_cases tid seq w1)
    as [(e & w2 & -> & Hs2) | (step & w2 & _ & Hstep & _)].
  - eexists _, _. split; [reflexivity|]. rewrite Hs2, Hs1. cbn.
    split; [done|]. by rewrite lookup_insert_eq.
  - rewrite Hs1 in Hstep. cbn in Hstep. by rewrite Hmissing in Hstep.
Qed.

Lemma add_to_missing_step_leaves_orphan_witness :
  ∃ w' saved,
    add exampleNewURL Bugs "r1" 9 "lost" "d" [] None (exampleWorld [])
    = (Returns repository_service_not_found, w') ∧
    steps (service w') = steps exampleService ∧
    notes (service w') !! ("r1", 30) = Some saved ∧
    sn_value saved = "lost" ∧ sn_details saved = "d".
Proof.
  apply (add_to_missing_step_leaves_orphan exampleNewURL Bugs "r1" 9 "lost" "d" [] None
           (exampleWorld [])).
  - reflexivity.
  - intros [e He]. cbn in He. by apply elem_of_nil in He.
Defined.

(** X29 — a successful [moveIntention] between two different steps takes
    the intention off the source and puts it on the destination, replacing
    whatever intention the destination had; the replaced note is not
    deleted: the notes of the service are as before. *)
Theorem moveIntention_replaces_destination newURL tid from dest w note w' :
  RepositoryServiceDispatcher.moveIntention newURL tid from dest w
  = (Returns (ReplySuccess note), w') →
  from ≠ dest →
  ∃ fromStep destStep n,
    steps (service w) !! (tid, from) = Some fromStep ∧
    steps (service w) !! (tid, dest) = Some destStep ∧
    ts_intention fromStep = Some n ∧
    steps (service w')
    = <[(tid, dest) := applyPatch (PatchIntention (Some n)) destStep]>
        (<[(tid, from) := applyPatch (PatchIntention None) fromStep]>
           (steps (service w))) ∧
    notes (service w') = notes (service w) ∧
    note_sequence note = dest.
Proof.
  unfold RepositoryServiceDispatcher.moveIntention. intros H Hne.
  apply try_catch_success in H.
  apply bind_returns in H as (fromStep & w1 & Hget & H).
  apply bind_returns in H as (step1 & w2 & Hpatch1 & H).
  apply bind_returns in H as (step2 & w3 & Hpatch2 & H).
  apply bind_returns in H as (saved & w4 & Hnote & H).
  apply bind_returns in H as (path & w5 & Hpath & H).
  apply httpGet_testStep_returns in Hget as [Hfrom Hs1].
  apply httpPatch_testStep_returns in Hpatch1 as (step0 & Hstep0 & -> & Hs2).
  apply httpPatch_testStep_returns in Hpatch2 as (destStep & Hdest & -> & Hs3).
  apply httpGet_note_returns in Hnote as (n & Hn & _ & Hs4).
  apply imagePath_returns in Hpath as ->.
  unfold ret in H. injection H as <- <-.
  rewrite Hs1, Hfrom in Hstep0. injection Hstep0 as <-.
  rewrite Hs2 in Hdest. cbn in Hdest.
  rewrite lookup_insert_ne in Hdest by congruence. rewrite Hs1 in Hdest.
  exists fromStep, destStep, n. repeat (split; [done|]).
  rewrite Hs4, Hs3, Hs2, Hs1, Hn. by cbn.
Qed.

Lemma moveIntention_replaces_destination_witness :
  ∃ w', ts_intention <$> steps (service w') !! ("r1", 2) = Some (Some 7) ∧
        ts_intention <$> steps (service w') !! ("r1", 1) = Some None ∧
        notes (service w') = notes exampleService.
Proof.
  destruct (RepositoryServiceDispatcher.moveIntention exampleNewURL "r1" 1 2
              (exampleWorld [])) as [o w'] eqn:Hrun.
  assert (Hr : ∃ note, o = Returns (ReplySuccess note)).
  { vm_compute in Hrun. injection Hrun as <- _. eauto. }
  destruct Hr as (note & ->).
  destruct (moveIntention_replaces_destination exampleNewURL "r1" 1 2 (exampleWorld [])
              note w' Hrun)
    as (fromStep & destStep & n & Hfrom & Hdest & Hn & Hsteps & Hnotes & _);
    [done|].
  exists w'. vm_compute in Hfrom. injection Hfrom as <-.
  cbn in Hn. injection Hn as <-.
  rewrite Hsteps, Hnotes. split; [by rewrite lookup_insert_eq|]. split; [|done].
  rewrite lookup_insert_ne by done. by rewrite lookup_insert_eq.
Defined.
